(** * Document-scanner imaging pipeline: a shallow embedding

    The development follows the Python sources under [app/infra/imaging]:
    [quad_detect.py] (module [QuadDetect]), [warp.py] (module [Warp]),
    [filters.py] (module [Filters]), [exif_sanitize.py] (module
    [ExifSanitize]) and [scanner_pipeline.py] (module [Pipeline]).

    Conventions.
    - Python [int] is [Z]; a point [(x, y)] is a pair of [Z]; 8-bit
      samples are [byte]s.
    - A Python [float] is modelled by the rational it denotes ([Q]) and
      float literals by the decimal they spell; arithmetic and comparisons
      are exact.  Where a float expression is truncated to an int its
      binary64 rounding is the field [fl] of the world; the float power
      [n ** 0.5] is the field [float_root]; float32 conversion of integers
      is [QuadDetect.f32].
    - A call that can raise is a value of [exc]; [try ... except] is
      [catch].  Logging is not modelled.
    - Library calls whose result depends on pixel data, on the file system
      or on the clock (OpenCV, Pillow, [os], [time]) are the fields of a
      [world]; a theorem quantified over [W : world] holds for every
      behaviour of those libraries. *)

From Stdlib Require Import ZArith QArith Qround Qabs String Ascii List Lia.
From Stdlib Require Import Sorted Permutation Lqa.
From Stdlib.Strings Require Import Byte.
From stdpp Require Import base option list strings gmap pretty.

Local Open Scope string_scope.
Local Open Scope Z_scope.

(** ** Python exceptions *)

Inductive exc (A : Type) : Type :=
| Ok (a : A)
| Raise (msg : string).
Arguments Ok {A} a.
Arguments Raise {A} msg.

#[global] Instance exc_ret : MRet exc := fun A a => Ok a.
#[global] Instance exc_bind : MBind exc := fun A B f m =>
  match m with
  | Ok a => f a
  | Raise e => Raise e
  end.

(** [try: m except Exception as e: h e] *)
Definition catch {A} (m : exc A) (h : string -> A) : A :=
  match m with
  | Ok a => a
  | Raise e => h e
  end.

Definition raises {A} (m : exc A) : Prop :=
  match m with
  | Ok _ => False
  | Raise _ => True
  end.

Definition point : Type := Z * Z.

(** [int(q)] on a float: truncation toward zero. *)
Definition py_int (q : Q) : Z := Z.quot (Qnum q) (Z.pos (Qden q)).

(** [a < b] on floats. *)
Definition Qltb (a b : Q) : bool := negb (Qle_bool b a).

(** A decoded raster (a numpy array of shape (height, width, bands) or a
    Pillow image): row-major 8-bit samples. *)
Record frame : Type := {
  f_width : Z;
  f_height : Z;
  f_bands : Z;
  f_data : list byte
}.

(** What [_process_opencv] reads off one contour returned by
    [cv2.findContours]: [cv2.contourArea], the polygon
    [cv2.approxPolyDP(contour, 0.02 * arcLength, True)] and
    [cv2.isContourConvex] of that polygon. *)
Record contour : Type := {
  c_area : Q;
  c_approx : list point;
  c_convex : bool
}.

(** [app.domain.models.FilterType] *)
Inductive FilterType : Type := ORIGINAL | GRAYSCALE | BLACK_WHITE | ENHANCED.

(** The libraries and the operating system.  [fl] is binary64 rounding,
    applied where a float expression is truncated to an int.  A step that
    ends in [cv2.imwrite] yields what [cv2.imwrite] returns: [False] when
    the file could not be written, which raises nothing.  Pillow's [save]
    raises when it cannot write. *)
Record world : Type := {
  OPENCV_AVAILABLE : bool;
  fl : Q -> Q;
  (* n ** 0.5 for an int n >= 0: the binary64 power of float(n), or the
     OverflowError of float(n) *)
  float_root : Z -> exc Q;
  (* cv2 / numpy *)
  cv2_imread : string -> option frame;
  cv2_cvtColor_RGBA2BGR : frame -> exc frame;
  cv2_resize : frame -> Q -> exc frame;
  (* cvtColor, GaussianBlur, Canny, dilate, findContours *)
  cv2_contours : frame -> exc (list contour);
  (* cvtColor, Canny, HoughLines: [None] or the (rho, theta) pairs *)
  cv2_hough : frame -> exc (option (list (Q * Q)));
  (* theta * 180 / np.pi *)
  rad2deg : Q -> Q;
  (* getPerspectiveTransform, warpPerspective(img, matrix, dsize), imwrite *)
  cv2_warp_write : frame -> list point -> Z * Z -> string -> exc bool;
  (* getRotationMatrix2D, warpAffine, imwrite *)
  cv2_rotate_write : frame -> Q -> string -> exc bool;
  (* Pillow *)
  pil_open : string -> exc frame;
  pil_open_bytes : list byte -> exc frame;
  pil_resize : frame -> Z * Z -> exc frame;
  pil_convert_L : frame -> exc frame;
  pil_find_edges : frame -> exc frame;
  (* img.transform(size, QUAD, quad_flat, BICUBIC), save *)
  pil_transform_save : frame -> Z * Z -> list point -> string -> exc unit;
  (* Image.open, rotate(expand=True), save *)
  pil_rotate_save : string -> Z -> string -> exc unit;
  (* the body of _apply_grayscale / _apply_black_white / _apply_enhanced up
     to its last step, a Pillow save (True) or a cv2.imwrite (its result) *)
  filter_render : FilterType -> string -> string -> exc bool;
  (* the body of sanitize_image: open, copy pixels, save *)
  sanitize_write : string -> string -> exc unit;
  (* os *)
  os_path_splitext_base : string -> string;
  os_listdir : string -> exc (list string);
  os_remove : string -> exc unit;
  (* the n-th reading of time.time() *)
  time_at : nat -> Q
}.

(** [output_path] when it is not [None], else [f"{base}{suffix}"] *)
Definition default_output (W : world) (image_path : string)
    (output_path : option string) (suffix : string) : string :=
  match output_path with
  | Some p => p
  | None => os_path_splitext_base W image_path +:+ suffix
  end.

(** ** quad_detect.py *)

Module QuadDetect.

(** [np.float32(z)] for a Python int [z] inside the finite float32 range:
    24 significant bits, round to nearest, ties to even.  The result is an
    integer again, so [astype(int)] gives it back unchanged. *)
Definition f32 (z : Z) : Z :=
  let a := Z.abs z in
  if a <? 2 ^ 24 then z
  else
    let e := Z.log2 a - 23 in
    let q := a / 2 ^ e in
    let r := a mod 2 ^ e in
    let h := 2 ^ (e - 1) in
    let q' := if r <? h then q
              else if h <? r then q + 1
              else if Z.even q then q else q + 1 in
    Z.sgn z * (q' * 2 ^ e).

(** [np.argmin] / [np.argmax] on a one-dimensional array: the index of the
    first occurrence of the extreme value; [ValueError] on an empty array. *)
Fixpoint argmin_from (i best_i : nat) (best : Z) (l : list Z) : nat :=
  match l with
  | [] => best_i
  | v :: l' =>
      if v <? best then argmin_from (S i) i v l'
      else argmin_from (S i) best_i best l'
  end.

Definition argmin (l : list Z) : exc nat :=
  match l with
  | [] => Raise "attempt to get argmin of an empty sequence"
  | v :: l' => Ok (argmin_from 1 0 v l')
  end.

Fixpoint argmax_from (i best_i : nat) (best : Z) (l : list Z) : nat :=
  match l with
  | [] => best_i
  | v :: l' =>
      if best <? v then argmax_from (S i) i v l'
      else argmax_from (S i) best_i best l'
  end.

Definition argmax (l : list Z) : exc nat :=
  match l with
  | [] => Raise "attempt to get argmax of an empty sequence"
  | v :: l' => Ok (argmax_from 1 0 v l')
  end.

(** [pts[i]] *)
Definition getitem {A} (l : list A) (i : nat) : exc A :=
  match l !! i with
  | Some a => Ok a
  | None => Raise "index out of bounds"
  end.

Definition psum (p : point) : Z := p.1 + p.2.
Definition pdiff (p : point) : Z := p.2 - p.1.

(** [QuadDetector._order_points] *)
Definition _order_points (points : list point) : exc (list point) :=
  let pts : list point := map (fun p : point => (f32 p.1, f32 p.2)) points in
  let s := map (fun p => f32 (psum p)) pts in
  tl_idx ← argmin s;
  br_idx ← argmax s;
  let d := map (fun p => f32 (pdiff p)) pts in
  tr_idx ← argmin d;
  bl_idx ← argmax d;
  tl ← getitem pts tl_idx;
  tr ← getitem pts tr_idx;
  br ← getitem pts br_idx;
  bl ← getitem pts bl_idx;
  Ok [tl; tr; br; bl].

(** [app.domain.models.QuadResult] *)
Record QuadResult : Type := {
  detected : bool;
  points : option (list point);
  confidence : Q;
  frame_size : Z * Z
}.

(** [QuadResult(detected=False)] *)
Definition QuadResult_not_detected : QuadResult :=
  {| detected := false; points := None; confidence := 0; frame_size := (0, 0) |}.

Definition DOWNSCALE_WIDTH : Z := 960.
Definition MIN_AREA_RATIO : Q := 1 # 10.
Definition MAX_AREA_RATIO : Q := 95 # 100.

(** [int(v / scale)] *)
Definition unscale (W : world) (scale : Q) (v : Z) : Z :=
  py_int (fl W (inject_Z v / scale)).

(** The loop of [_process_opencv] over the contours. *)
Definition best_quad_step (min_area max_area : Q)
    (best : option (list point) * Q) (c : contour) : option (list point) * Q :=
  let area := c_area c in
  if Qltb area min_area || Qltb max_area area then best
  else if (length (c_approx c) =? 4)%nat then
    if Qltb best.2 area then
      if c_convex c then (Some (c_approx c), area) else best
    else best
  else best.

(** [QuadDetector._process_opencv] *)
Definition _process_opencv (W : world) (img : frame) : exc QuadResult :=
  let original_height := f_height img in
  let original_width := f_width img in
  '(scale, img) ←
    (if DOWNSCALE_WIDTH <? original_width then
       let scale := fl W (inject_Z DOWNSCALE_WIDTH / inject_Z original_width) in
       img' ← cv2_resize W img scale; Ok (scale, img')
     else Ok (1%Q, img));
  let height := f_height img in
  let width := f_width img in
  contours ← cv2_contours W img;
  let frame_area := width * height in
  let min_area := (inject_Z frame_area * MIN_AREA_RATIO)%Q in
  let max_area := (inject_Z frame_area * MAX_AREA_RATIO)%Q in
  let '(best_quad, best_area) :=
    foldl (best_quad_step min_area max_area) (None, 0%Q) contours in
  match best_quad with
  | Some quad =>
      let pts := map (fun p : point => (unscale W scale p.1, unscale W scale p.2)) quad in
      pts ← _order_points pts;
      Ok {| detected := true; points := Some pts;
            confidence := (best_area / inject_Z frame_area)%Q;
            frame_size := (original_width, original_height) |}
  | None =>
      Ok {| detected := false; points := None; confidence := 0;
            frame_size := (original_width, original_height) |}
  end.

(** [QuadDetector._detect_opencv] *)
Definition _detect_opencv (W : world) (image_path : string) : exc QuadResult :=
  match cv2_imread W image_path with
  | None => Ok QuadResult_not_detected
  | Some img => _process_opencv W img
  end.

(** [arr.reshape((height, width, bands))] once [len(arr)] is known to be
    [width * height * bands]: numpy refuses a negative dimension. *)
Definition reshape (arr : list byte) (height width bands : Z) : exc frame :=
  if (0 <=? height) && (0 <=? width) then
    Ok {| f_width := width; f_height := height; f_bands := bands; f_data := arr |}
  else Raise "cannot reshape array".

(** [QuadDetector._detect_opencv_bytes] *)
Definition _detect_opencv_bytes (W : world) (image_bytes : list byte)
    (width height : Z) : exc QuadResult :=
  let arr := image_bytes in
  let len := Z.of_nat (length arr) in
  match
    (if len =? width * height * 4 then
       img ← reshape arr height width 4;
       img ← cv2_cvtColor_RGBA2BGR W img;
       Ok (Some img)
     else if len =? width * height * 3 then
       img ← reshape arr height width 3;
       Ok (Some img)
     else Ok None)
  with
  | Ok (Some img) => _process_opencv W img
  | Ok None => Ok QuadResult_not_detected
  | Raise _ => Ok QuadResult_not_detected
  end.

(** The accumulator of the scan in [_find_content_bbox]:
    [(min_x, min_y, max_x, max_y, edge_count)]. *)
Record bbox_acc : Type := {
  min_x : Z; min_y : Z; max_x : Z; max_y : Z; edge_count : Z
}.

Definition is_edge_sample (b : byte) : bool := 128 <? Z.of_N (Byte.to_N b).

Definition bbox_visit (pixels : list byte) (width y : Z)
    (acc : exc bbox_acc) (x : Z) : exc bbox_acc :=
  a ← acc;
  px ← getitem pixels (Z.to_nat (y * width + x));
  if is_edge_sample px then
    Ok {| min_x := Z.min (min_x a) x; min_y := Z.min (min_y a) y;
          max_x := Z.max (max_x a) x; max_y := Z.max (max_y a) y;
          edge_count := edge_count a + 1 |}
  else Ok a.

Definition bbox_row (pixels : list byte) (width : Z)
    (acc : exc bbox_acc) (y : Z) : exc bbox_acc :=
  foldl (bbox_visit pixels width y) acc (seqZ 0 width).

Definition bbox_scan (edges_img : frame) : exc bbox_acc :=
  let width := f_width edges_img in
  let height := f_height edges_img in
  foldl (bbox_row (f_data edges_img) width)
        (Ok {| min_x := width; min_y := height; max_x := 0; max_y := 0;
               edge_count := 0 |})
        (seqZ 0 height).

Definition margin : Z := 10.

(** [QuadDetector._find_content_bbox]; the comparisons with
    [width * 0.2] and [height * 0.2] are made in exact arithmetic. *)
Definition _find_content_bbox (edges_img : frame) : exc (option (Z * Z * Z * Z)) :=
  let width := f_width edges_img in
  let height := f_height edges_img in
  a ← bbox_scan edges_img;
  if edge_count a <? 100 then Ok None
  else
    let min_x := Z.max 0 (min_x a - margin) in
    let min_y := Z.max 0 (min_y a - margin) in
    let max_x := Z.min (width - 1) (max_x a + margin) in
    let max_y := Z.min (height - 1) (max_y a + margin) in
    let box_width := max_x - min_x in
    let box_height := max_y - min_y in
    if Qltb (inject_Z box_width) (inject_Z width * (2 # 10))
       || Qltb (inject_Z box_height) (inject_Z height * (2 # 10))
    then Ok None
    else Ok (Some (min_x, min_y, max_x, max_y)).

(** [edges.point(lambda x: 255 if x > threshold else 0)] with threshold 30 *)
Definition binarize (b : byte) : byte :=
  if 30 <? Z.of_N (Byte.to_N b) then xff else x00.

Definition point_threshold (img : frame) : frame :=
  {| f_width := f_width img; f_height := f_height img;
     f_bands := f_bands img; f_data := map binarize (f_data img) |}.

(** The first half of [_process_pillow]: downscale, grayscale, edge filter
    and threshold; the result is the scale and the binary edge image. *)
Definition pillow_edges (W : world) (img : frame) : exc (Q * frame) :=
  let original_width := f_width img in
  let original_height := f_height img in
  '(scale, img) ←
    (if DOWNSCALE_WIDTH <? original_width then
       let scale := fl W (inject_Z DOWNSCALE_WIDTH / inject_Z original_width) in
       let new_width := py_int (fl W (inject_Z original_width * scale)) in
       let new_height := py_int (fl W (inject_Z original_height * scale)) in
       img' ← pil_resize W img (new_width, new_height); Ok (scale, img')
     else Ok (1%Q, img));
  gray ← pil_convert_L W img;
  edges ← pil_find_edges W gray;
  Ok (scale, point_threshold edges).

(** [QuadDetector._process_pillow] *)
Definition _process_pillow (W : world) (img : frame) : exc QuadResult :=
  let original_width := f_width img in
  let original_height := f_height img in
  '(scale, edges) ← pillow_edges W img;
  bbox ← _find_content_bbox edges;
  match bbox with
  | Some (x1, y1, x2, y2) =>
      Ok {| detected := true;
            points := Some [ (unscale W scale x1, unscale W scale y1);
                             (unscale W scale x2, unscale W scale y1);
                             (unscale W scale x2, unscale W scale y2);
                             (unscale W scale x1, unscale W scale y2) ];
            confidence := 5 # 10;
            frame_size := (original_width, original_height) |}
  | None =>
      Ok {| detected := false; points := None; confidence := 0;
            frame_size := (original_width, original_height) |}
  end.

(** [QuadDetector._detect_pillow] *)
Definition _detect_pillow (W : world) (image_path : string) : exc QuadResult :=
  Ok (catch (img ← pil_open W image_path; _process_pillow W img)
            (fun _ => QuadResult_not_detected)).

(** [QuadDetector._detect_pillow_bytes]; [width] and [height] are unused. *)
Definition _detect_pillow_bytes (W : world) (image_bytes : list byte)
    (width height : Z) : exc QuadResult :=
  Ok (catch (img ← pil_open_bytes W image_bytes; _process_pillow W img)
            (fun _ => QuadResult_not_detected)).

(** [QuadDetector.detect] *)
Definition detect (W : world) (image_path : string) : QuadResult :=
  catch (if OPENCV_AVAILABLE W then _detect_opencv W image_path
         else _detect_pillow W image_path)
        (fun _ => QuadResult_not_detected).

(** [QuadDetector.detect_from_bytes] *)
Definition detect_from_bytes (W : world) (image_bytes : list byte)
    (width height : Z) : QuadResult :=
  catch (if OPENCV_AVAILABLE W then _detect_opencv_bytes W image_bytes width height
         else _detect_pillow_bytes W image_bytes width height)
        (fun _ => QuadResult_not_detected).

(** [gray.crop((left, upper, right, lower)).getdata()]: samples outside
    the source are 0. *)
Definition sample (img : frame) (x y : Z) : byte :=
  if (0 <=? x) && (x <? f_width img) && (0 <=? y) && (y <? f_height img) then
    nth (Z.to_nat (y * f_width img + x)) (f_data img) x00
  else x00.

Definition crop_data (img : frame) (left upper right lower : Z) : list byte :=
  y ← seqZ upper (lower - upper);
  x ← seqZ left (right - left);
  [sample img x y].

Definition sum_samples (pixels : list byte) : Z :=
  foldr (fun b acc => Z.of_N (Byte.to_N b) + acc) 0 pixels.

(** [QuadDetector.estimate_brightness] *)
Definition estimate_brightness (W : world) (image_path : string) : Q :=
  catch (img ← pil_open W image_path;
         gray ← pil_convert_L W img;
         let width := f_width gray in
         let height := f_height gray in
         let cx := width / 2 in
         let cy := height / 2 in
         let sample_size := Z.min (Z.min 200 (width / 2)) (height / 2) in
         let pixels := crop_data gray (cx - sample_size) (cy - sample_size)
                                      (cx + sample_size) (cy + sample_size) in
         Ok (match pixels with
             | [] => 128%Q
             | _ => (inject_Z (sum_samples pixels)
                     / inject_Z (Z.of_nat (length pixels)))%Q
             end))
        (fun _ => 128%Q).

(** [QuadDetector.is_low_light] *)
Definition is_low_light_with (W : world) (image_path : string) (threshold : Q) : bool :=
  Qltb (estimate_brightness W image_path) threshold.

Definition is_low_light (W : world) (image_path : string) : bool :=
  is_low_light_with W image_path 50.

(** Coordinates that float32 holds exactly together with their sums and
    differences. *)
Definition f32_exact (p : point) : Prop :=
  Z.abs p.1 < 2 ^ 23 /\ Z.abs p.2 < 2 ^ 23.

(** [p] is a point of [P] at which [key] is minimal (maximal). *)
Definition attains_min (key : point -> Z) (P : list point) (p : point) : Prop :=
  p ∈ P /\ forall q, q ∈ P -> key p <= key q.
Definition attains_max (key : point -> Z) (P : list point) (p : point) : Prop :=
  p ∈ P /\ forall q, q ∈ P -> key q <= key p.

(** The extreme is reached by one point only. *)
Definition sole_min (key : point -> Z) (P : list point) : Prop :=
  forall p q, attains_min key P p -> attains_min key P q -> p = q.
Definition sole_max (key : point -> Z) (P : list point) : Prop :=
  forall p q, attains_max key P p -> attains_max key P q -> p = q.

(** A raster holds one sample per pixel. *)
Definition well_formed (F : frame) : Prop :=
  0 <= f_width F /\ 0 <= f_height F /\
  Z.of_nat (length (f_data F)) = f_width F * f_height F.

(** The pixel positions of a [w] x [h] raster, row by row. *)
Definition coords (w h : Z) : list (Z * Z) :=
  flat_map (fun y => map (fun x => (x, y)) (seqZ 0 w)) (seqZ 0 h).

(** The sample at position [c] exceeds 128. *)
Definition edge_here (F : frame) (c : Z * Z) : bool :=
  match f_data F !! Z.to_nat (c.2 * f_width F + c.1) with
  | Some b => is_edge_sample b
  | None => false
  end.

Definition edge_at (F : frame) (x y : Z) : Prop :=
  0 <= x < f_width F /\ 0 <= y < f_height F /\ edge_here F (x, y) = true.

(** The number of edge pixels. *)
Definition count_edges (F : frame) : Z :=
  Z.of_nat (length (List.filter (edge_here F) (coords (f_width F) (f_height F)))).

(** [(x1, y1, x2, y2)] is the bounding box of the edge pixels. *)
Definition tight_bbox (F : frame) (box : Z * Z * Z * Z) : Prop :=
  let '(x1, y1, x2, y2) := box in
  (forall x y, edge_at F x y -> x1 <= x <= x2 /\ y1 <= y <= y2) /\
  (exists y, edge_at F x1 y) /\ (exists y, edge_at F x2 y) /\
  (exists x, edge_at F x y1) /\ (exists x, edge_at F x y2).

(** The box widened by the 10 px margin and clamped to the frame. *)
Definition margin_box (F : frame) (box : Z * Z * Z * Z) : Z * Z * Z * Z :=
  let '(x1, y1, x2, y2) := box in
  (Z.max 0 (x1 - 10), Z.max 0 (y1 - 10),
   Z.min (f_width F - 1) (x2 + 10), Z.min (f_height F - 1) (y2 + 10)).

(** The box spans at least 20% of the frame in each dimension. *)
Definition spans_fifth (F : frame) (box : Z * Z * Z * Z) : Prop :=
  let '(x1, y1, x2, y2) := box in
  f_width F <= 5 * (x2 - x1) /\ f_height F <= 5 * (y2 - y1).

(** The corners of a box, clockwise from the top left, in original-frame
    coordinates. *)
Definition rescaled_corners (W : world) (scale : Q) (box : Z * Z * Z * Z)
    : list point :=
  let '(x1, y1, x2, y2) := box in
  map (fun p : point => (unscale W scale p.1, unscale W scale p.2))
      [(x1, y1); (x2, y1); (x2, y2); (x1, y2)].

(** The claim's vocabulary for the fallback detection, over the response
    [F] of the edge filter.  The response at position [c] exceeds the
    binary threshold 30. *)
Definition strong_here (F : frame) (c : Z * Z) : bool :=
  match f_data F !! Z.to_nat (c.2 * f_width F + c.1) with
  | Some b => 30 <? Z.of_N (Byte.to_N b)
  | None => false
  end.

Definition strong_at (F : frame) (x y : Z) : Prop :=
  0 <= x < f_width F /\ 0 <= y < f_height F /\ strong_here F (x, y) = true.

(** The number of pixels whose response exceeds the threshold. *)
Definition count_strong (F : frame) : Z :=
  Z.of_nat (length (List.filter (strong_here F) (coords (f_width F) (f_height F)))).

(** [(x1, y1, x2, y2)] is the bounding box of those pixels. *)
Definition bounding_box (F : frame) (box : Z * Z * Z * Z) : Prop :=
  let '(x1, y1, x2, y2) := box in
  (forall x y, strong_at F x y -> x1 <= x <= x2 /\ y1 <= y <= y2) /\
  (exists y, strong_at F x1 y) /\ (exists y, strong_at F x2 y) /\
  (exists x, strong_at F x y1) /\ (exists x, strong_at F x y2).

(** The picture as it is searched: [img] itself up to 960 pixels of
    width, else what [resize] makes of it; the factor is [scale]. *)
Definition downscaled (W : world) (img small : frame) (scale : Q) : Prop :=
  if 960 <? f_width img then
    scale = fl W (960 / inject_Z (f_width img)) /\
    pil_resize W img (py_int (fl W (inject_Z (f_width img) * scale)),
                      py_int (fl W (inject_Z (f_height img) * scale))) = Ok small
  else scale = 1%Q /\ small = img.

Definition visit (pixels : list byte) (width : Z) (acc : exc bbox_acc)
    (c : Z * Z) : exc bbox_acc :=
  bbox_visit pixels width c.2 acc c.1.

(** What the scan has accumulated over the positions [L], starting from
    [a0]. *)
Record summary (hot : Z * Z -> bool) (L : list (Z * Z)) (a0 a : bbox_acc) : Prop := {
  s_count : edge_count a = edge_count a0 + Z.of_nat (length (List.filter hot L));
  s_min_x : min_x a <= min_x a0;
  s_min_y : min_y a <= min_y a0;
  s_max_x : max_x a0 <= max_x a;
  s_max_y : max_y a0 <= max_y a;
  s_inside : forall c, c ∈ L -> hot c = true ->
             min_x a <= c.1 <= max_x a /\ min_y a <= c.2 <= max_y a;
  s_min_x_hit : min_x a = min_x a0 \/ exists c, c ∈ L /\ hot c = true /\ c.1 = min_x a;
  s_min_y_hit : min_y a = min_y a0 \/ exists c, c ∈ L /\ hot c = true /\ c.2 = min_y a;
  s_max_x_hit : max_x a = max_x a0 \/ exists c, c ∈ L /\ hot c = true /\ c.1 = max_x a;
  s_max_y_hit : max_y a = max_y a0 \/ exists c, c ∈ L /\ hot c = true /\ c.2 = max_y a
}.

(** The file cannot be read, or processing the decoded image raises. *)
Definition detect_fails (W : world) (image_path : string) : Prop :=
  if OPENCV_AVAILABLE W then
    cv2_imread W image_path = None \/
    exists img, cv2_imread W image_path = Some img /\ raises (_process_opencv W img)
  else
    raises (pil_open W image_path) \/
    exists img, pil_open W image_path = Ok img /\ raises (_process_pillow W img).

(** What the OpenCV backend makes of a raw buffer: [None] when its length
    is neither [width * height * 4] nor [width * height * 3]. *)
Definition decode_raw (W : world) (image_bytes : list byte) (width height : Z)
    : exc (option frame) :=
  let len := Z.of_nat (length image_bytes) in
  if len =? width * height * 4 then
    img ← reshape image_bytes height width 4;
    img ← cv2_cvtColor_RGBA2BGR W img;
    Ok (Some img)
  else if len =? width * height * 3 then
    img ← reshape image_bytes height width 3;
    Ok (Some img)
  else Ok None.

(** The buffer is rejected or cannot be decoded, or processing raises. *)
Definition bytes_fail (W : world) (image_bytes : list byte) (width height : Z) : Prop :=
  if OPENCV_AVAILABLE W then
    decode_raw W image_bytes width height = Ok None \/
    raises (decode_raw W image_bytes width height) \/
    exists img, decode_raw W image_bytes width height = Ok (Some img) /\
                raises (_process_opencv W img)
  else
    raises (pil_open_bytes W image_bytes) \/
    exists img, pil_open_bytes W image_bytes = Ok img /\ raises (_process_pillow W img).

(** The image cannot be opened or converted to grayscale. *)
Definition unreadable (W : world) (image_path : string) : Prop :=
  raises (pil_open W image_path) \/
  exists img, pil_open W image_path = Ok img /\ raises (pil_convert_L W img).

(** [QuadDetector.get_full_frame_quad] *)
Definition get_full_frame_quad (width height margin : Z) : list point :=
  [ (margin, margin);
    (width - margin, margin);
    (width - margin, height - margin);
    (margin, height - margin) ].

(** [QuadResult.is_valid] *)
Definition is_valid (r : QuadResult) : bool :=
  detected r &&
  match points r with
  | Some pts => (length pts =? 4)%nat
  | None => false
  end.

(** A contour that the loop of [_process_opencv] accepts as a document:
    area within the bounds, four vertices after approximation, convex. *)
Definition qualifies (min_area max_area : Q) (c : contour) : Prop :=
  (min_area <= c_area c)%Q /\ (c_area c <= max_area)%Q /\
  length (c_approx c) = 4%nat /\ c_convex c = true.

(** A result is sound when, if it reports a document, it is valid (it
    carries four points) and its confidence lies between 0.1 and 0.95. *)
Definition sound_result (r : QuadResult) : Prop :=
  detected r = true ->
  is_valid r = true /\ (1 # 10 <= confidence r)%Q /\ (confidence r <= 95 # 100)%Q.

End QuadDetect.

(** ** warp.py *)

Module Warp.

(** [PerspectiveWarper._distance]: the squared length is an int, its
    power a float. *)
Definition _distance (W : world) (p1 p2 : point) : exc Q :=
  float_root W ((p2.1 - p1.1) ^ 2 + (p2.2 - p1.2) ^ 2).

(** [max(a, b)] on floats: [b] when [b > a], else [a] *)
Definition float_max (a b : Q) : Q := if Qltb a b then b else a.

(** [PerspectiveWarper._calculate_output_size] *)
Definition _calculate_output_size (W : world) (quad_points : list point)
    : exc (Z * Z) :=
  match quad_points with
  | [tl; tr; br; bl] =>
      width_top ← _distance W tl tr;
      width_bottom ← _distance W bl br;
      let width := py_int (float_max width_top width_bottom) in
      height_left ← _distance W tl bl;
      height_right ← _distance W tr br;
      let height := py_int (float_max height_left height_right) in
      let width := Z.max width 100 in
      let height := Z.max height 100 in
      Ok (width, height)
  | _ => Raise "wrong number of values to unpack"
  end.

(** [PerspectiveWarper._warp_opencv] *)
Definition _warp_opencv (W : world) (image_path : string)
    (quad_points : list point) (output_path : string) : exc string :=
  match cv2_imread W image_path with
  | None => Raise ("Could not read image: " +:+ image_path)
  | Some img =>
      size ← _calculate_output_size W quad_points;
      _ ← cv2_warp_write W img quad_points size output_path;
      Ok output_path
  end.

(** [PerspectiveWarper._warp_pillow] *)
Definition _warp_pillow (W : world) (image_path : string)
    (quad_points : list point) (output_path : string) : exc string :=
  img ← pil_open W image_path;
  size ← _calculate_output_size W quad_points;
  _ ← pil_transform_save W img size quad_points output_path;
  Ok output_path.

(** [PerspectiveWarper.warp] *)
Definition warp (W : world) (image_path : string) (quad_points : list point)
    (output_path : option string) : string :=
  catch (let output_path := default_output W image_path output_path "_warped.jpg" in
         if OPENCV_AVAILABLE W
         then _warp_opencv W image_path quad_points output_path
         else _warp_pillow W image_path quad_points output_path)
        (fun _ => image_path).

(** [PerspectiveWarper.rotate_image] *)
Definition rotate_image (W : world) (image_path : string) (degrees : Z)
    (output_path : option string) : string :=
  catch (let output_path := default_output W image_path output_path "_rotated.jpg" in
         let degrees := degrees mod 360 in
         if degrees =? 0 then Ok image_path
         else
           _ ← pil_rotate_save W image_path degrees output_path;
           Ok output_path)
        (fun _ => image_path).

(** [np.median] of a non-empty list: the middle of the sorted values, or
    the mean of the two middle ones. *)
Fixpoint insert_sorted (a : Q) (l : list Q) : list Q :=
  match l with
  | [] => [a]
  | b :: l' => if Qle_bool a b then a :: l else b :: insert_sorted a l'
  end.

Definition sorted (l : list Q) : list Q := foldr insert_sorted [] l.

Definition median (l : list Q) : Q :=
  let s := sorted l in
  let n := length s in
  if Nat.even n
  then ((nth (n / 2 - 1) s 0 + nth (n / 2) s 0) / 2)%Q
  else nth (n / 2) s 0%Q.

(** The angles collected by the loop of [_deskew_opencv]. *)
Definition line_angle (W : world) (line : Q * Q) : Q :=
  (rad2deg W line.2 - 90)%Q.

Definition small_angle (angle : Q) : bool :=
  Qltb (-45) angle && Qltb angle 45.

Definition deskew_angles (W : world) (lines : list (Q * Q)) : list Q :=
  List.filter small_angle (map (line_angle W) (take 20 lines)).

(** [abs(median_angle) < 0.5 or abs(median_angle) > 15] *)
Definition skip_deskew (median_angle : Q) : bool :=
  Qltb (Qabs median_angle) (5 # 10) || Qltb 15 (Qabs median_angle).

(** [PerspectiveWarper._deskew_opencv] *)
Definition _deskew_opencv (W : world) (image_path output_path : string) : exc string :=
  match cv2_imread W image_path with
  | None => Ok image_path
  | Some img =>
      lines ← cv2_hough W img;
      match lines with
      | None => Ok image_path
      | Some [] => Ok image_path
      | Some lines =>
          let angles := deskew_angles W lines in
          match angles with
          | [] => Ok image_path
          | _ =>
              let median_angle := median angles in
              if skip_deskew median_angle then Ok image_path
              else
                _ ← cv2_rotate_write W img median_angle output_path;
                Ok output_path
          end
      end
  end.

(** [PerspectiveWarper.deskew] *)
Definition deskew (W : world) (image_path : string)
    (output_path : option string) : string :=
  catch (let output_path := default_output W image_path output_path "_deskewed.jpg" in
         if OPENCV_AVAILABLE W then _deskew_opencv W image_path output_path
         else Ok image_path)
        (fun _ => image_path).

(** The squared Euclidean length of the segment from [p] to [q]. *)
Definition sqdist (p q : point) : Z :=
  (q.1 - p.1) * (q.1 - p.1) + (q.2 - p.2) * (q.2 - p.2).

(** [k] is the integer part of the square root of [n]. *)
Definition is_floor_sqrt (n k : Z) : Prop :=
  0 <= k /\ k * k <= n < (k + 1) * (k + 1).

(** [k] is the integer nearest to the square root of [n]. *)
Definition is_nearest_sqrt (n k : Z) : Prop :=
  0 <= k /\ 4 * n < (2 * k + 1) * (2 * k + 1) /\
  (0 < k -> (2 * k - 1) * (2 * k - 1) < 4 * n).

(** The claim's reading of the output size: the nearest integer to the
    longer edge.  [nearest_sqrt n] is the integer nearest to the square
    root of [n] (which is never half-way between two integers). *)
Definition nearest_sqrt (n : Z) : Z :=
  let k := Z.sqrt n in
  if n - k * k <=? k then k else k + 1.

Definition rounded_output_size (tl tr br bl : point) : Z * Z :=
  (Z.max (nearest_sqrt (Z.max (sqdist tl tr) (sqdist bl br))) 100,
   Z.max (nearest_sqrt (Z.max (sqdist tl bl) (sqdist tr br))) 100).

(** Coordinates below 2^23 in absolute value, as pixel positions are:
    the squared distance of two such points is below 2^50. *)
Definition pixel_point (p : point) : Prop :=
  Z.abs p.1 < 2 ^ 23 /\ Z.abs p.2 < 2 ^ 23.

(** The float power is faithful on squared lengths below 2^50: it does
    not raise there, and no binary64 number [a / 2^26] ([0 <= a < 2^53])
    separates its result from the exact square root.  A power computed
    to less than one unit in the last place has this property. *)
Definition root_faithful (W : world) : Prop :=
  forall n, 0 <= n < 2 ^ 50 ->
    exists q, float_root W n = Ok q /\
      forall a, 0 <= a < 2 ^ 53 ->
        (a * a <= n * 2 ^ 52 -> (a # 2 ^ 26 <= q)%Q) /\
        (n * 2 ^ 52 <= a * a -> (q <= a # 2 ^ 26)%Q).

(** The claim's vocabulary for [deskew].  The line at position [i] is one
    of the first 20 and its angle [a] from the horizontal lies strictly
    within 45 degrees. *)
Definition qualifying (W : world) (lines : list (Q * Q)) (i : nat) (a : Q) : Prop :=
  (i < 20)%nat /\
  exists line, lines !! i = Some line /\
    a = (rad2deg W line.2 - 90)%Q /\ (-45 < a)%Q /\ (a < 45)%Q.

(** [angles] lists the qualifying angles, in the order of the lines. *)
Definition qualifying_angles (W : world) (lines : list (Q * Q))
    (angles : list Q) : Prop :=
  exists idx : list nat,
    StronglySorted lt idx /\
    (forall i, i ∈ idx <-> exists a, qualifying W lines i a) /\
    Forall2 (qualifying W lines) idx angles.

(** [m] is the median of [l]: the middle one of the values in ascending
    order, or the mean of the two middle ones. *)
Definition is_median (l : list Q) (m : Q) : Prop :=
  exists s, Permutation s l /\ Sorted Qle s /\
    m = (if Nat.even (length s)
         then (nth (length s / 2 - 1) s 0 + nth (length s / 2) s 0) / 2
         else nth (length s / 2) s 0)%Q.

(** The median [m] calls for a correction, and rotating the image by [m]
    and handing the result to [cv2.imwrite] raises nothing; [written] is
    what [cv2.imwrite] returned ([false]: no file was written). *)
Definition correction_made (W : world) (img : frame) (m : Q)
    (output_path : string) (written : bool) : Prop :=
  (5 # 10 <= Qabs m)%Q /\ (Qabs m <= 15)%Q /\
  cv2_rotate_write W img m output_path = Ok written.

End Warp.

(** ** filters.py and exif_sanitize.py *)

Module Filters.

Definition FilterType_value (f : FilterType) : string :=
  match f with
  | ORIGINAL => "original"
  | GRAYSCALE => "grayscale"
  | BLACK_WHITE => "black_white"
  | ENHANCED => "enhanced"
  end.

(** [ImageFilters.apply_filter] *)
Definition apply_filter (W : world) (image_path : string)
    (filter_type : FilterType) (output_path : option string) : string :=
  catch (let output_path :=
           default_output W image_path output_path
                          ("_" +:+ FilterType_value filter_type +:+ ".jpg") in
         match filter_type with
         | ORIGINAL => Ok image_path
         | _ =>
             _ ← filter_render W filter_type image_path output_path;
             Ok output_path
         end)
        (fun _ => image_path).

End Filters.

Module ExifSanitize.

(** [sanitize_image] *)
Definition sanitize_image (W : world) (image_path : string)
    (output_path : option string) : string :=
  catch (let output_path := default_output W image_path output_path "_sanitized.jpg" in
         _ ← sanitize_write W image_path output_path; Ok output_path)
        (fun _ => image_path).

End ExifSanitize.

(** ** scanner_pipeline.py *)

Module Pipeline.

(** [app.domain.models.ProcessingResult] *)
Record ProcessingResult : Type := {
  success : bool;
  output_path : string;
  error_message : string;
  processing_time_ms : Z
}.

(** A Python callable handed in by the caller. *)
Definition callback : Type := nat.

(** What [Clock.schedule_once] has been asked to call on the UI thread. *)
Inductive event : Type :=
| Progress (cb : callback) (msg : string)
| Completed (cb : callback) (r : ProcessingResult)
| Detection (cb : callback) (r : QuadDetect.QuadResult).

(** The arguments of [process_capture]. *)
Record capture : Type := {
  image_path : string;
  quad_points : option (list point);
  filter_type : FilterType;
  rotation : Z;
  progress_callback : option callback
}.

(** The target of a started [threading.Thread]. *)
Inductive job : Type :=
| DetectJob (image_bytes : list byte) (width height : Z) (cb : callback)
| ProcessJob (c : capture) (completion_callback : option callback).

(** The process around the pipeline object: how often [time.time()] has
    been read, the Kivy clock queue and the threads started so far. *)
Record runtime : Type := {
  ticks : nat;
  clock_events : list event;
  started : list job
}.

(** The fields of a [ScannerPipeline] instance. *)
Record ScannerPipeline : Type := {
  cache_path : string;
  _processing_thread : option job;
  _is_processing : bool;
  _last_preview_time : Q
}.

Definition PREVIEW_FRAME_INTERVAL : Q := 2 # 10.

(** [ScannerPipeline.__init__] *)
Definition new_pipeline (cache_path : string) : ScannerPipeline :=
  {| cache_path := cache_path; _processing_thread := None;
     _is_processing := false; _last_preview_time := 0 |}.

(** [time.time()] *)
Definition time_time (W : world) (rt : runtime) : Q * runtime :=
  (time_at W (ticks rt),
   {| ticks := S (ticks rt); clock_events := clock_events rt; started := started rt |}).

(** [Clock.schedule_once(lambda dt: ..., 0)] *)
Definition schedule_once (ev : event) (rt : runtime) : runtime :=
  {| ticks := ticks rt; clock_events := clock_events rt ++ [ev]; started := started rt |}.

(** [threading.Thread(target=..., daemon=True).start()] *)
Definition start_thread (j : job) (rt : runtime) : runtime :=
  {| ticks := ticks rt; clock_events := clock_events rt; started := started rt ++ [j] |}.

(** Computations that read the clock, schedule events and may raise. *)
Definition M (A : Type) : Type := runtime -> exc A * runtime.

Definition retM {A} (a : A) : M A := fun rt => (Ok a, rt).

Definition bindM {A B} (m : M A) (f : A -> M B) : M B := fun rt =>
  match m rt with
  | (Ok a, rt') => f a rt'
  | (Raise e, rt') => (Raise e, rt')
  end.

Notation "'do' x <- m ; f" := (bindM m (fun x => f))
  (at level 10, x name, m at level 100, f at level 200).

Definition liftM {A} (m : exc A) : M A := fun rt => (m, rt).

(** [if progress_callback: Clock.schedule_once(lambda dt: progress_callback(msg), 0)] *)
Definition report (progress_callback : option callback) (msg : string) : M unit :=
  fun rt =>
    match progress_callback with
    | Some cb => (Ok tt, schedule_once (Progress cb msg) rt)
    | None => (Ok tt, rt)
    end.

(** [int(time.time() * 1000)] *)
Definition timestamp (W : world) : M Z := fun rt =>
  let '(t, rt') := time_time W rt in
  (Ok (py_int (fl W (t * 1000))), rt').

Fixpoint ends_with_slash (s : string) : bool :=
  match s with
  | EmptyString => false
  | String c EmptyString => Ascii.eqb c "/"
  | String _ s' => ends_with_slash s'
  end.

(** [os.path.join(a, b)] (POSIX) *)
Definition os_path_join (a b : string) : string :=
  if String.prefix "/" b then b
  else if String.eqb a "" || ends_with_slash a then a +:+ b
  else a +:+ "/" +:+ b.

(** [os.path.join(self.cache_path, f"{stem}{timestamp}.jpg")] *)
Definition stage_path (self : ScannerPipeline) (stem : string) (ts : Z) : string :=
  os_path_join (cache_path self) (stem +:+ pretty ts +:+ ".jpg").

(** The five callees of [process_capture]: [self.warper.warp],
    [self.warper.rotate_image], [self.warper.deskew],
    [self.filters.apply_filter] and [sanitize_image]. *)
Record stages : Type := {
  st_warp : string -> list point -> string -> exc string;
  st_rotate : string -> Z -> string -> exc string;
  st_deskew : string -> string -> exc string;
  st_filter : string -> FilterType -> string -> exc string;
  st_sanitize : string -> string -> exc string
}.

(** The callees as this repository defines them: none of them raises. *)
Definition repo_stages (W : world) : stages :=
  {| st_warp := fun p q o => Ok (Warp.warp W p q (Some o));
     st_rotate := fun p d o => Ok (Warp.rotate_image W p d (Some o));
     st_deskew := fun p o => Ok (Warp.deskew W p (Some o));
     st_filter := fun p f o => Ok (Filters.apply_filter W p f (Some o));
     st_sanitize := fun p o => Ok (ExifSanitize.sanitize_image W p (Some o)) |}.

(** [if quad_points:] *)
Definition truthy {A} (l : option (list A)) : option (list A) :=
  match l with
  | Some (_ :: _) => l
  | _ => None
  end.

Definition is_original (f : FilterType) : bool :=
  match f with ORIGINAL => true | _ => false end.

(** The [try] block of [process_capture]. *)
Definition process_capture_try (W : world) (S : stages) (self : ScannerPipeline)
    (c : capture) : M string :=
  let current_path := image_path c in
  do _ <- report (progress_callback c) "Correcting perspective...";
  do current_path <-
    match truthy (quad_points c) with
    | Some quad =>
        do ts <- timestamp W;
        liftM (st_warp S current_path quad (stage_path self "warped_" ts))
    | None => retM current_path
    end;
  do current_path <-
    (if rotation c =? 0 then retM current_path
     else
       do _ <- report (progress_callback c) "Rotating...";
       do ts <- timestamp W;
       liftM (st_rotate S current_path (rotation c) (stage_path self "rotated_" ts)));
  do current_path <-
    match truthy (quad_points c) with
    | Some _ =>
        do _ <- report (progress_callback c) "Deskewing...";
        do ts <- timestamp W;
        liftM (st_deskew S current_path (stage_path self "deskewed_" ts))
    | None => retM current_path
    end;
  do current_path <-
    (if is_original (filter_type c) then retM current_path
     else
       do _ <- report (progress_callback c) "Applying filter...";
       do ts <- timestamp W;
       liftM (st_filter S current_path (filter_type c) (stage_path self "filtered_" ts)));
  do _ <- report (progress_callback c) "Finalizing...";
  do ts <- timestamp W;
  liftM (st_sanitize S current_path (stage_path self "page_" ts)).

(** [ScannerPipeline.process_capture] over given callees. *)
Definition process_capture_with (W : world) (S : stages) (self : ScannerPipeline)
    (c : capture) (rt : runtime) : ProcessingResult * runtime :=
  let '(start_time, rt) := time_time W rt in
  let '(r, rt) := process_capture_try W S self c rt in
  let '(end_time, rt) := time_time W rt in
  let elapsed := py_int (fl W (fl W (end_time - start_time) * 1000)) in
  (match r with
   | Ok current_path =>
       {| success := true; output_path := current_path;
          error_message := ""; processing_time_ms := elapsed |}
   | Raise e =>
       {| success := false; output_path := "";
          error_message := e; processing_time_ms := elapsed |}
   end, rt).

(** [ScannerPipeline.process_capture] *)
Definition process_capture (W : world) : ScannerPipeline -> capture -> runtime ->
                                         ProcessingResult * runtime :=
  process_capture_with W (repo_stages W).

Definition set_processing (self : ScannerPipeline) (b : bool)
    (t : option job) : ScannerPipeline :=
  {| cache_path := cache_path self; _processing_thread := t;
     _is_processing := b; _last_preview_time := _last_preview_time self |}.

(** [ProcessingResult(error_message="Already processing")] *)
Definition already_processing : ProcessingResult :=
  {| success := false; output_path := "";
     error_message := "Already processing"; processing_time_ms := 0 |}.

(** [ScannerPipeline.process_capture_async] *)
Definition process_capture_async (self : ScannerPipeline) (c : capture)
    (completion_callback : option callback) (rt : runtime)
    : ScannerPipeline * runtime :=
  if _is_processing self then
    (self,
     match completion_callback with
     | Some cb => schedule_once (Completed cb already_processing) rt
     | None => rt
     end)
  else
    let j := ProcessJob c completion_callback in
    (set_processing self true (Some j), start_thread j rt).

(** The thread target [process] of [process_capture_async]. *)
Definition process (W : world) (self : ScannerPipeline) (c : capture)
    (completion_callback : option callback) (rt : runtime)
    : ScannerPipeline * runtime :=
  let '(result, rt) := process_capture W self c rt in
  (set_processing self false (_processing_thread self),
   match completion_callback with
   | Some cb => schedule_once (Completed cb result) rt
   | None => rt
   end).

(** [ScannerPipeline.detect_document_preview] *)
Definition detect_document_preview (W : world) (self : ScannerPipeline)
    (image_bytes : list byte) (width height : Z) (cb : callback) (rt : runtime)
    : bool * ScannerPipeline * runtime :=
  let '(current_time, rt) := time_time W rt in
  if Qltb (current_time - _last_preview_time self) PREVIEW_FRAME_INTERVAL then
    (false, self, rt)
  else
    (true,
     {| cache_path := cache_path self;
        _processing_thread := _processing_thread self;
        _is_processing := _is_processing self;
        _last_preview_time := current_time |},
     start_thread (DetectJob image_bytes width height cb) rt).

(** The thread target [detect] of [detect_document_preview]. *)
Definition detect_thread (W : world) (image_bytes : list byte) (width height : Z)
    (cb : callback) (rt : runtime) : runtime :=
  schedule_once (Detection cb (QuadDetect.detect_from_bytes W image_bytes width height)) rt.

(** [ScannerPipeline.is_low_light] *)
Definition is_low_light (W : world) (self : ScannerPipeline) (image_path : string) : bool :=
  QuadDetect.is_low_light W image_path.

(** [prefix in filename] *)
Definition contains (needle haystack : string) : bool :=
  match String.index 0 needle haystack with
  | Some _ => true
  | None => false
  end.

Definition temp_markers : list string :=
  ["warped_"; "rotated_"; "deskewed_"; "filtered_"; "sanitized_"].

(** One turn of the loop of [cleanup_temp_files]; [removed] collects the
    paths that [os.remove] has deleted. *)
Definition cleanup_visit (W : world) (self : ScannerPipeline)
    (keep_set : gset string) (removed : list string) (filename : string)
    : list string :=
  let filepath := os_path_join (cache_path self) filename in
  if decide (filepath ∈ keep_set) then removed
  else if existsb (fun prefix => contains prefix filename) temp_markers then
    match os_remove W filepath with
    | Ok _ => removed ++ [filepath]
    | Raise _ => removed
    end
  else removed.

(** [ScannerPipeline.cleanup_temp_files]; the result is the list of the
    files deleted. *)
Definition cleanup_temp_files (W : world) (self : ScannerPipeline)
    (keep_paths : option (list string)) : list string :=
  let keep_set : gset string :=
    match truthy keep_paths with
    | Some l => list_to_set l
    | None => ∅
    end in
  catch (names ← os_listdir W (cache_path self);
         Ok (foldl (cleanup_visit W self keep_set) [] names))
        (fun _ => []).

(** A run of preview calls: before each call the clock may have been read
    [skip] times by other code.  The trace records, per call, the time it
    read and what it returned. *)
Record preview_call : Type := {
  skip : nat;
  pc_bytes : list byte;
  pc_width : Z;
  pc_height : Z;
  pc_callback : callback
}.

Definition advance (n : nat) (rt : runtime) : runtime :=
  {| ticks := n + ticks rt; clock_events := clock_events rt; started := started rt |}.

Fixpoint run_previews (W : world) (self : ScannerPipeline) (rt : runtime)
    (calls : list preview_call) : list (Q * bool) :=
  match calls with
  | [] => []
  | c :: calls' =>
      let rt := advance (skip c) rt in
      let now := time_at W (ticks rt) in
      let '(ran, self', rt') :=
        detect_document_preview W self (pc_bytes c) (pc_width c) (pc_height c)
                                (pc_callback c) rt in
      (now, ran) :: run_previews W self' rt' calls'
  end.

(** The claim's reading of a temp-file name: it starts with one of the
    stage prefixes. *)
Definition has_temp_prefix (filename : string) : bool :=
  existsb (fun prefix => String.prefix prefix filename) temp_markers.

(** The bodies of the [try] blocks of the five stages. *)
Definition warp_body (W : world) (image_path : string) (quad : list point)
    (output_path : string) : exc string :=
  if OPENCV_AVAILABLE W then Warp._warp_opencv W image_path quad output_path
  else Warp._warp_pillow W image_path quad output_path.

Definition rotate_body (W : world) (image_path : string) (degrees : Z)
    (output_path : string) : exc string :=
  if degrees mod 360 =? 0 then Ok image_path
  else _ ← pil_rotate_save W image_path (degrees mod 360) output_path; Ok output_path.

Definition deskew_body (W : world) (image_path output_path : string) : exc string :=
  if OPENCV_AVAILABLE W then Warp._deskew_opencv W image_path output_path
  else Ok image_path.

(** [filename] contains one of the stage markers. *)
Definition marked (filename : string) : bool :=
  existsb (fun prefix => contains prefix filename) temp_markers.

(** [ScannerPipeline.detect_document] *)
Definition detect_document (W : world) (self : ScannerPipeline)
    (image_path : string) : QuadDetect.QuadResult :=
  QuadDetect.detect W image_path.

(** [ScannerPipeline.get_fallback_quad] *)
Definition get_fallback_quad (self : ScannerPipeline) (width height : Z) : list point :=
  QuadDetect.get_full_frame_quad width height 20.

(** The name stems of the files [process_capture] writes. *)
Definition stage_stems : list string :=
  ["warped_"; "rotated_"; "deskewed_"; "filtered_"; "page_"].

(** The progress messages of one capture, in the order of the stages. *)
Definition progress_messages (c : capture) : list string :=
  ["Correcting perspective..."]
  ++ (if rotation c =? 0 then [] else ["Rotating..."])
  ++ match truthy (quad_points c) with
     | Some _ => ["Deskewing..."]
     | None => []
     end
  ++ (if is_original (filter_type c) then [] else ["Applying filter..."])
  ++ ["Finalizing..."].

(** No character of [s] is an underscore. *)
Definition no_underscore (s : string) : Prop :=
  forall k, String.get k s <> Some "_"%char.

(** The path is the caller's image or a stage file in the cache. *)
Definition capture_path (self : ScannerPipeline) (c : capture) (p : string) : Prop :=
  p = image_path c \/
  exists stem ts, stem ∈ stage_stems /\ p = stage_path self stem ts.

End Pipeline.

(** ** domain/models.py *)

Module Models.

(** A [datetime]: the date it shows ([strftime('%Y-%m-%d')]) and its
    position on the time line, in seconds (a whole number of
    microseconds).  The difference of two of them is exact;
    [total_seconds()] rounds it to binary64, which does not change how it
    compares with a whole number of seconds below 2^32. *)
Record datetime : Type := { dt_date : string; dt_seconds : Q }.

(** [app.domain.models.Page] *)
Record Page : Type := {
  page_id : option Z;
  document_id : option Z;
  order : Z;
  image_path : string;
  thumbnail_path : string;
  filter_applied : FilterType;
  quad_points : option (list point);
  rotation : Z;
  created_at : datetime
}.

(** [page.order = i] *)
Definition set_order (i : Z) (p : Page) : Page :=
  {| page_id := page_id p; document_id := document_id p; order := i;
     image_path := image_path p; thumbnail_path := thumbnail_path p;
     filter_applied := filter_applied p; quad_points := quad_points p;
     rotation := rotation p; created_at := created_at p |}.

(** [app.domain.models.ScanSession]; [pages] holds references to [Page]
    objects, which live in a store [gmap nat Page] shared with the
    callers. *)
Record ScanSession : Type := {
  session_id : option Z;
  pages : list nat;
  started_at : datetime;
  is_complete : bool;
  current_page_index : Z
}.

Definition with_pages (s : ScanSession) (l : list nat) (current : Z) : ScanSession :=
  {| session_id := session_id s; pages := l; started_at := started_at s;
     is_complete := is_complete s; current_page_index := current |}.

(** [for i, page in enumerate(pages): page.order = i], counting from [i] *)
Fixpoint renumber_from (i : Z) (l : list nat) (h : gmap nat Page) : gmap nat Page :=
  match l with
  | [] => h
  | r :: rest => renumber_from (i + 1) rest (alter (set_order i) r h)
  end.

(** [ScanSession.add_page] *)
Definition add_page (h : gmap nat Page) (s : ScanSession) (page : nat)
    : gmap nat Page * ScanSession :=
  let h := alter (set_order (Z.of_nat (length (pages s)))) page h in
  let l := (pages s ++ [page])%list in
  (h, with_pages s l (Z.of_nat (length l) - 1)).

(** [0 <= index < len(self.pages)] *)
Definition in_range (index : Z) (l : list nat) : bool :=
  (0 <=? index) && (index <? Z.of_nat (length l)).

(** [ScanSession.remove_page] *)
Definition remove_page (h : gmap nat Page) (s : ScanSession) (index : Z)
    : gmap nat Page * ScanSession :=
  if in_range index (pages s) then
    let l := delete (Z.to_nat index) (pages s) in
    (renumber_from 0 l h, with_pages s l (current_page_index s))
  else (h, s).

(** [l.insert(i, x)] for [0 <= i] *)
Definition list_insert_at (i : nat) (x : nat) (l : list nat) : list nat :=
  (take i l ++ x :: drop i l)%list.

(** [ScanSession.reorder_pages] *)
Definition reorder_pages (h : gmap nat Page) (s : ScanSession)
    (from_index to_index : Z) : gmap nat Page * ScanSession :=
  if in_range from_index (pages s) && in_range to_index (pages s) then
    match pages s !! Z.to_nat from_index with
    | Some page =>
        let l := list_insert_at (Z.to_nat to_index) page
                                (delete (Z.to_nat from_index) (pages s)) in
        (renumber_from 0 l h, with_pages s l (current_page_index s))
    | None => (h, s)
    end
  else (h, s).

(** Every page of the session carries its index as [order]. *)
Definition ordered (h : gmap nat Page) (l : list nat) : Prop :=
  forall i r, l !! i = Some r ->
    exists p, h !! r = Some p /\ order p = Z.of_nat i.

(** The store [h'] differs from [h] in the [order] of pages only. *)
Definition same_but_order (h h' : gmap nat Page) : Prop :=
  forall r, match h !! r, h' !! r with
            | Some p, Some p' => set_order 0 p' = set_order 0 p
            | None, None => True
            | _, _ => False
            end.

(** [app.domain.models.AppState] *)
Record AppState : Type := {
  ads_enabled : bool;
  ads_removed_purchased : bool;
  last_interstitial_time : option datetime;
  interstitial_count_today : Z;
  last_count_reset_date : option string;
  max_pages_per_document : Z;
  MIN_INTERSTITIAL_INTERVAL_SECONDS : Z;
  MAX_INTERSTITIALS_PER_DAY : Z
}.

(** [AppState()] *)
Definition AppState_default : AppState :=
  {| ads_enabled := true; ads_removed_purchased := false;
     last_interstitial_time := None; interstitial_count_today := 0;
     last_count_reset_date := None; max_pages_per_document := 200;
     MIN_INTERSTITIAL_INTERVAL_SECONDS := 30; MAX_INTERSTITIALS_PER_DAY := 20 |}.

Definition with_count (s : AppState) (last : option datetime) (count : Z)
    (reset : option string) : AppState :=
  {| ads_enabled := ads_enabled s; ads_removed_purchased := ads_removed_purchased s;
     last_interstitial_time := last; interstitial_count_today := count;
     last_count_reset_date := reset;
     max_pages_per_document := max_pages_per_document s;
     MIN_INTERSTITIAL_INTERVAL_SECONDS := MIN_INTERSTITIAL_INTERVAL_SECONDS s;
     MAX_INTERSTITIALS_PER_DAY := MAX_INTERSTITIALS_PER_DAY s |}.

(** [AppState.can_show_interstitial]; [now1] and [now2] are the two
    readings of [datetime.now()]. *)
Definition can_show_interstitial (s : AppState) (now1 now2 : datetime)
    : bool * AppState :=
  if negb (ads_enabled s) || ads_removed_purchased s then (false, s)
  else
    let today := dt_date now1 in
    let s := if decide (last_count_reset_date s = Some today) then s
             else with_count s (last_interstitial_time s) 0 (Some today) in
    if MAX_INTERSTITIALS_PER_DAY s <=? interstitial_count_today s then (false, s)
    else
      match last_interstitial_time s with
      | Some last =>
          let elapsed := (dt_seconds now2 - dt_seconds last)%Q in
          if Qltb elapsed (inject_Z (MIN_INTERSTITIAL_INTERVAL_SECONDS s))
          then (false, s) else (true, s)
      | None => (true, s)
      end.

(** [AppState.record_interstitial_shown] *)
Definition record_interstitial_shown (s : AppState) (now : datetime) : AppState :=
  with_count s (Some now) (interstitial_count_today s + 1) (last_count_reset_date s).

(** [if state.can_show_interstitial(): state.record_interstitial_shown()]:
    the two methods used together, the second one only after the first
    one agreed.  [asked1] and [asked2] are the readings of the clock by
    [can_show_interstitial], [closed] the one by
    [record_interstitial_shown]. *)
Record attempt : Type := { asked1 : datetime; asked2 : datetime; closed : datetime }.

Definition check_then_record (s : AppState) (a : attempt) : bool * AppState :=
  let '(ok, s) := can_show_interstitial s (asked1 a) (asked2 a) in
  if ok then (true, record_interstitial_shown s (closed a)) else (false, s).

(** A sequence of attempts: the answers, and the state left. *)
Fixpoint attempts (s : AppState) (l : list attempt) : list bool * AppState :=
  match l with
  | [] => ([], s)
  | a :: rest =>
      let '(ok, s) := check_then_record s a in
      let '(oks, s) := attempts s rest in
      (ok :: oks, s)
  end.

(** How many interstitials were shown. *)
Definition shown (oks : list bool) : Z :=
  Z.of_nat (length (List.filter (fun ok : bool => ok) oks)).

(** The interstitials counted for the day [today]: the stored count if
    it was last reset on that day, none otherwise. *)
Definition counted (s : AppState) (today : string) : Z :=
  if decide (last_count_reset_date s = Some today) then interstitial_count_today s
  else 0.

(** Ads are on: enabled and not bought off. *)
Definition ads_on (s : AppState) : bool :=
  ads_enabled s && negb (ads_removed_purchased s).

(** Every reference of the list points to a page of the store. *)
Definition allocated (h : gmap nat Page) (l : list nat) : Prop :=
  Forall (fun r => is_Some (h !! r)) l.

(** The values a stored dictionary holds. *)
Inductive pyval : Type :=
  | PyNone
  | PyBool (b : bool)
  | PyInt (z : Z)
  | PyStr (s : string).

(** [bool(v)] *)
Definition py_truthy (v : pyval) : bool :=
  match v with
  | PyNone => false
  | PyBool b => b
  | PyInt z => negb (z =? 0)
  | PyStr s => negb (String.eqb s "")
  end.

(** [datetime.isoformat] and [datetime.fromisoformat]; [None] is a
    [ValueError]. *)
Record calendar : Type := {
  isoformat : datetime -> string;
  fromisoformat : string -> option datetime
}.

(** [data.get(key, default)] *)
Definition dict_get (data : gmap string pyval) (key : string) (default : pyval)
    : pyval :=
  match data !! key with Some v => v | None => default end.

(** [AppState.to_dict] *)
Definition AppState_to_dict (C : calendar) (s : AppState) : gmap string pyval :=
  <["max_pages_per_document" := PyInt (max_pages_per_document s)]>
  (<["last_count_reset_date" :=
       match last_count_reset_date s with Some d => PyStr d | None => PyNone end]>
  (<["interstitial_count_today" := PyInt (interstitial_count_today s)]>
  (<["last_interstitial_time" :=
       match last_interstitial_time s with
       | Some t => PyStr (isoformat C t)
       | None => PyNone
       end]>
  (<["ads_removed_purchased" := PyBool (ads_removed_purchased s)]>
  (<["ads_enabled" := PyBool (ads_enabled s)]> ∅))))).

(** The fields of the record are typed; a dictionary that holds a value
    of another type under one of the keys is not covered ([None]). *)
Definition as_bool (v : pyval) : option bool :=
  match v with PyBool b => Some b | _ => None end.

Definition as_int (v : pyval) : option Z :=
  match v with PyInt z => Some z | _ => None end.

Definition as_optional_str (v : pyval) : option (option string) :=
  match v with PyStr s => Some (Some s) | PyNone => Some None | _ => None end.

(** [AppState.from_dict]; a failure of [fromisoformat], also on a value
    that is no string, is caught and leaves [last_time = None]. *)
Definition AppState_from_dict (C : calendar) (data : gmap string pyval)
    : option AppState :=
  let last_time :=
    if py_truthy (dict_get data "last_interstitial_time" PyNone) then
      match dict_get data "last_interstitial_time" PyNone with
      | PyStr str => fromisoformat C str
      | _ => None
      end
    else None in
  enabled ← as_bool (dict_get data "ads_enabled" (PyBool true));
  purchased ← as_bool (dict_get data "ads_removed_purchased" (PyBool false));
  count ← as_int (dict_get data "interstitial_count_today" (PyInt 0));
  reset ← as_optional_str (dict_get data "last_count_reset_date" PyNone);
  max_pages ← as_int (dict_get data "max_pages_per_document" (PyInt 200));
  Some {| ads_enabled := enabled; ads_removed_purchased := purchased;
          last_interstitial_time := last_time;
          interstitial_count_today := count;
          last_count_reset_date := reset;
          max_pages_per_document := max_pages;
          MIN_INTERSTITIAL_INTERVAL_SECONDS := 30;
          MAX_INTERSTITIALS_PER_DAY := 20 |}.

(** The state with the frequency caps of the class. *)
Definition with_default_caps (s : AppState) : AppState :=
  {| ads_enabled := ads_enabled s; ads_removed_purchased := ads_removed_purchased s;
     last_interstitial_time := last_interstitial_time s;
     interstitial_count_today := interstitial_count_today s;
     last_count_reset_date := last_count_reset_date s;
     max_pages_per_document := max_pages_per_document s;
     MIN_INTERSTITIAL_INTERVAL_SECONDS := 30;
     MAX_INTERSTITIALS_PER_DAY := 20 |}.

End Models.

(** ** Sample worlds, for the examples *)

(** A 20 x 20 single-band picture, every sample 255. *)
Definition white_square : frame :=
  {| f_width := 20; f_height := 20; f_bands := 1; f_data := repeat xff 400 |}.

(** A 40 x 40 single-band picture: a page of brightness [v], 30 x 30
    pixels, on a black desk. *)
Definition page_picture (v : byte) : frame :=
  {| f_width := 40; f_height := 40; f_bands := 1;
     f_data := map (fun c : Z * Z =>
                      if (5 <=? c.1) && (c.1 <? 35) && (5 <=? c.2) && (c.2 <? 35)
                      then v else x00)
                   (QuadDetect.coords 40 40) |}.

(** The PNG file (8-bit grayscale, 85 bytes) of [page_picture xff]. *)
Definition page_png : list byte :=
  [ x89; x50; x4e; x47; x0d; x0a; x1a; x0a; x00; x00; x00; x0d;
    x49; x48; x44; x52; x00; x00; x00; x28; x00; x00; x00; x28;
    x08; x00; x00; x00; x00; xa9; x95; xe7; xb1; x00; x00; x00;
    x1c; x49; x44; x41; x54; x78; xda; x63; x60; x18; x76; xe0;
    x3f; x5e; x30; xaa; x70; x54; xe1; xa8; xc2; x51; x85; x43;
    x45; xe1; x30; x01; x00; x3b; xe0; x80; xaa; xaa; x5a; x89;
    x04; x00; x00; x00; x00; x49; x45; x4e; x44; xae; x42; x60;
    x82 ].

Fixpoint bytes_eqb (a b : list byte) : bool :=
  match a, b with
  | [], [] => true
  | x :: a', y :: b' => Byte.eqb x y && bytes_eqb a' b'
  | _, _ => false
  end.

(** [ImageFilter.FIND_EDGES] on a single-band picture: the 3 x 3 kernel
    with 8 in the middle and -1 around it, clipped to [0, 255]; the pixels
    of the border are copied. *)
Definition find_edges (F : frame) : frame :=
  let w := f_width F in
  let h := f_height F in
  let px (x y : Z) : Z :=
    Z.of_N (Byte.to_N (nth (Z.to_nat (y * w + x)) (f_data F) x00)) in
  let clip (v : Z) : byte :=
    default x00 (Byte.of_N (Z.to_N (Z.max 0 (Z.min 255 v)))) in
  {| f_width := w; f_height := h; f_bands := f_bands F;
     f_data :=
       map (fun c : Z * Z =>
              let x := c.1 in
              let y := c.2 in
              if (x =? 0) || (y =? 0) || (x =? w - 1) || (y =? h - 1)
              then clip (px x y)
              else clip (8 * px x y
                         - px (x - 1) (y - 1) - px x (y - 1) - px (x + 1) (y - 1)
                         - px (x - 1) y - px (x + 1) y
                         - px (x - 1) (y + 1) - px x (y + 1) - px (x + 1) (y + 1)))
           (QuadDetect.coords w h) |}.

(** A world in which every image file decodes to [picture] and the only
    buffer that decodes as an encoded image is [page_png], Pillow's edge
    filter is [find_edges], Hough angles are expressed in degrees (so
    [rad2deg] is the identity), [lines] is what [cv2.HoughLines] finds, the
    cache directory lists [names], every write succeeds except possibly
    that of [sanitize_image], the float power is the square root cut to
    26 binary places, other float operations are exact and the clock
    advances by 0.15 s per reading. *)
Definition sample_world (opencv : bool) (picture : frame)
    (lines : option (list (Q * Q))) (sanitize_ok : bool)
    (names : list string) : world :=
  {| OPENCV_AVAILABLE := opencv;
     fl := fun q => q;
     float_root := fun n => Ok (Z.sqrt (n * 2 ^ 52) # 2 ^ 26);
     cv2_imread := fun _ => Some picture;
     cv2_cvtColor_RGBA2BGR := fun f => Ok f;
     cv2_resize := fun f _ => Ok f;
     cv2_contours := fun _ => Ok [];
     cv2_hough := fun _ => Ok lines;
     rad2deg := fun theta => theta;
     cv2_warp_write := fun _ _ _ _ => Ok true;
     cv2_rotate_write := fun _ _ _ => Ok true;
     pil_open := fun _ => Ok picture;
     pil_open_bytes := fun image_bytes =>
       if bytes_eqb image_bytes page_png then Ok (page_picture xff)
       else Raise "cannot identify image file";
     pil_resize := fun f _ => Ok f;
     pil_convert_L := fun f => Ok f;
     pil_find_edges := fun f => Ok (find_edges f);
     pil_transform_save := fun _ _ _ _ => Ok tt;
     pil_rotate_save := fun _ _ _ => Ok tt;
     filter_render := fun _ _ _ => Ok true;
     sanitize_write := fun _ _ =>
       if sanitize_ok then Ok tt else Raise "cannot write the output file";
     os_path_splitext_base := fun p => p;
     os_listdir := fun _ => Ok names;
     os_remove := fun _ => Ok tt;
     time_at := fun n => (inject_Z (Z.of_nat n) * (15 # 100))%Q |}.

(** The world [W] with a cache directory that cannot be written to:
    [cv2.imwrite] returns [False]. *)
Definition read_only_cache (W : world) : world :=
  {| OPENCV_AVAILABLE := OPENCV_AVAILABLE W;
     fl := fl W;
     float_root := float_root W;
     cv2_imread := cv2_imread W;
     cv2_cvtColor_RGBA2BGR := cv2_cvtColor_RGBA2BGR W;
     cv2_resize := cv2_resize W;
     cv2_contours := cv2_contours W;
     cv2_hough := cv2_hough W;
     rad2deg := rad2deg W;
     cv2_warp_write := fun _ _ _ _ => Ok false;
     cv2_rotate_write := fun _ _ _ => Ok false;
     pil_open := pil_open W;
     pil_open_bytes := pil_open_bytes W;
     pil_resize := pil_resize W;
     pil_convert_L := pil_convert_L W;
     pil_find_edges := pil_find_edges W;
     pil_transform_save := pil_transform_save W;
     pil_rotate_save := pil_rotate_save W;
     filter_render := fun _ _ _ => Ok false;
     sanitize_write := sanitize_write W;
     os_path_splitext_base := os_path_splitext_base W;
     os_listdir := os_listdir W;
     os_remove := os_remove W;
     time_at := time_at W |}.

(** A moment of the first of March 2024, [seconds] after midnight. *)
Definition sample_time (seconds : Q) : Models.datetime :=
  {| Models.dt_date := "2024-03-01"; Models.dt_seconds := seconds |}.

(** A page with the given [order]. *)
Definition sample_page (order : Z) (path : string) : Models.Page :=
  {| Models.page_id := None; Models.document_id := None; Models.order := order;
     Models.image_path := path; Models.thumbnail_path := "";
     Models.filter_applied := ORIGINAL; Models.quad_points := None;
     Models.rotation := 0; Models.created_at := sample_time 0 |}.

(** Three pages; the third one is not numbered yet. *)
Definition sample_store : gmap nat Models.Page :=
  <[2%nat := sample_page 0 "/cache/page_3.jpg"]>
  (<[1%nat := sample_page 1 "/cache/page_2.jpg"]>
  (<[0%nat := sample_page 0 "/cache/page_1.jpg"]> ∅)).

(** A session over the pages [l]. *)
Definition sample_session (l : list nat) : Models.ScanSession :=
  {| Models.session_id := None; Models.pages := l;
     Models.started_at := sample_time 0; Models.is_complete := false;
     Models.current_page_index := 0 |}.

(** A calendar that writes a moment as its date. *)
Definition sample_calendar : Models.calendar :=
  {| Models.isoformat := Models.dt_date;
     Models.fromisoformat := fun str =>
       Some {| Models.dt_date := str; Models.dt_seconds := 0 |} |}.

(** * Properties *)

Local Open Scope list_scope.

(** ** Corner ordering *)

Section OrderPoints.
Import QuadDetect.

Lemma f32_small (z : Z) : Z.abs z < 2 ^ 24 -> f32 z = z.
Proof.
  intros Hz. unfold f32.
  destruct (Z.ltb_spec (Z.abs z) (2 ^ 24)); [reflexivity | lia].
Qed.

Lemma f32_exact_point (p : point) :
  f32_exact p -> (f32 p.1, f32 p.2) = p /\ f32 (psum p) = psum p /\ f32 (pdiff p) = pdiff p.
Proof.
  destruct p as [x y]. unfold f32_exact, psum, pdiff. simpl. intros [Hx Hy].
  rewrite !f32_small by lia. auto.
Qed.

Lemma map_f32_exact (P : list point) :
  Forall f32_exact P ->
  map (fun p : point => (f32 p.1, f32 p.2)) P = P /\
  map (fun p => f32 (psum p)) P = map psum P /\
  map (fun p => f32 (pdiff p)) P = map pdiff P.
Proof.
  induction 1 as [|p P Hp _ (IH1 & IH2 & IH3)]; [auto|].
  destruct (f32_exact_point p Hp) as (E1 & E2 & E3).
  simpl. rewrite IH1, IH2, IH3, E1, E2, E3. auto.
Qed.

Lemma argmin_from_spec (l pre : list Z) (bi : nat) (best : Z) :
  pre !! bi = Some best ->
  (forall w, w ∈ pre -> best <= w) ->
  exists m, (pre ++ l) !! argmin_from (length pre) bi best l = Some m /\
            forall w, w ∈ pre ++ l -> m <= w.
Proof.
  revert pre bi best. induction l as [|v l IH]; intros pre bi best Hbi Hmin.
  - exists best. rewrite app_nil_r. auto.
  - simpl. replace (pre ++ v :: l) with ((pre ++ [v]) ++ l)
      by (rewrite <- app_assoc; reflexivity).
    replace (S (length pre)) with (length (pre ++ [v]))
      by (rewrite length_app; simpl; lia).
    destruct (Z.ltb_spec v best) as [Hlt|Hge].
    + apply IH.
      * rewrite lookup_app_r by lia. rewrite Nat.sub_diag. reflexivity.
      * intros w Hw. apply elem_of_app in Hw as [Hw|Hw].
        -- specialize (Hmin w Hw). lia.
        -- apply list_elem_of_singleton in Hw. lia.
    + apply IH.
      * apply lookup_app_l_Some. exact Hbi.
      * intros w Hw. apply elem_of_app in Hw as [Hw|Hw].
        -- auto.
        -- apply list_elem_of_singleton in Hw. lia.
Qed.

Lemma argmax_from_spec (l pre : list Z) (bi : nat) (best : Z) :
  pre !! bi = Some best ->
  (forall w, w ∈ pre -> w <= best) ->
  exists m, (pre ++ l) !! argmax_from (length pre) bi best l = Some m /\
            forall w, w ∈ pre ++ l -> w <= m.
Proof.
  revert pre bi best. induction l as [|v l IH]; intros pre bi best Hbi Hmax.
  - exists best. rewrite app_nil_r. auto.
  - simpl. replace (pre ++ v :: l) with ((pre ++ [v]) ++ l)
      by (rewrite <- app_assoc; reflexivity).
    replace (S (length pre)) with (length (pre ++ [v]))
      by (rewrite length_app; simpl; lia).
    destruct (Z.ltb_spec best v) as [Hlt|Hge].
    + apply IH.
      * rewrite lookup_app_r by lia. rewrite Nat.sub_diag. reflexivity.
      * intros w Hw. apply elem_of_app in Hw as [Hw|Hw].
        -- specialize (Hmax w Hw). lia.
        -- apply list_elem_of_singleton in Hw. lia.
    + apply IH.
      * apply lookup_app_l_Some. exact Hbi.
      * intros w Hw. apply elem_of_app in Hw as [Hw|Hw].
        -- auto.
        -- apply list_elem_of_singleton in Hw. lia.
Qed.

(** A minimal head stays the answer: [np.argmin] returns the first index. *)
Lemma argmin_from_head (l : list Z) (i bi : nat) (best : Z) :
  (forall w, w ∈ l -> best <= w) -> argmin_from i bi best l = bi.
Proof.
  revert i. induction l as [|v l IH]; intros i Hmin; [reflexivity|].
  simpl. destruct (Z.ltb_spec v best) as [Hlt|Hge].
  - specialize (Hmin v (list_elem_of_here _ _)). lia.
  - apply IH. intros w Hw. apply Hmin. now apply list_elem_of_further.
Qed.

Lemma lookup_map_key {A} (key : A -> Z) (P : list A) (i : nat) (m : Z) :
  map key P !! i = Some m -> exists p, P !! i = Some p /\ key p = m.
Proof.
  revert i. induction P as [|p P IH]; intros [|i] H; simpl in *; try discriminate.
  - exists p. split; [reflexivity | congruence].
  - apply IH. exact H.
Qed.

Lemma elem_of_map_key {A} (key : A -> Z) (P : list A) (p : A) :
  p ∈ P -> key p ∈ map key P.
Proof.
  induction 1; simpl; [apply list_elem_of_here | now apply list_elem_of_further].
Qed.

(** What [pts[np.argmin(key(pts))]] is. *)
Lemma select_min (key : point -> Z) (P : list point) :
  P <> [] ->
  exists i p, argmin (map key P) = Ok i /\ getitem P i = Ok p /\
              attains_min key P p /\
              (forall p0 rest, P = p0 :: rest ->
                 (forall q, q ∈ rest -> key p0 <= key q) -> i = 0%nat).
Proof.
  destruct P as [|p0 rest]; [congruence | intros _].
  destruct (argmin_from_spec (map key rest) [key p0] 0 (key p0)) as (m & Hm & Hmin).
  { reflexivity. }
  { intros w Hw. apply list_elem_of_singleton in Hw. lia. }
  simpl in Hm.
  change (key p0 :: map key rest) with (map key (p0 :: rest)) in Hm.
  apply lookup_map_key in Hm as (p & Hp & Hkey).
  exists (argmin_from 1 0 (key p0) (map key rest)), p.
  split; [reflexivity|]. split; [unfold getitem; now rewrite Hp|]. split.
  - split; [eapply list_elem_of_lookup_2; eauto|].
    intros q Hq. rewrite Hkey. apply Hmin.
    change ([key p0] ++ map key rest) with (map key (p0 :: rest)).
    now apply elem_of_map_key.
  - intros p1 rest1 [= <- <-] Hhead. apply argmin_from_head.
    intros w Hw. apply list_elem_of_In, in_map_iff in Hw as (q & <- & Hq).
    apply Hhead. now apply list_elem_of_In.
Qed.

Lemma select_max (key : point -> Z) (P : list point) :
  P <> [] ->
  exists i p, argmax (map key P) = Ok i /\ getitem P i = Ok p /\
              attains_max key P p.
Proof.
  destruct P as [|p0 rest]; [congruence | intros _].
  destruct (argmax_from_spec (map key rest) [key p0] 0 (key p0)) as (m & Hm & Hmax).
  { reflexivity. }
  { intros w Hw. apply list_elem_of_singleton in Hw. lia. }
  simpl in Hm.
  change (key p0 :: map key rest) with (map key (p0 :: rest)) in Hm.
  apply lookup_map_key in Hm as (p & Hp & Hkey).
  exists (argmax_from 1 0 (key p0) (map key rest)), p.
  split; [reflexivity|]. split; [unfold getitem; now rewrite Hp|].
  split; [eapply list_elem_of_lookup_2; eauto|].
  intros q Hq. rewrite Hkey. apply Hmax.
  change ([key p0] ++ map key rest) with (map key (p0 :: rest)).
  now apply elem_of_map_key.
Qed.

(** On coordinates that float32 holds exactly, [_order_points] returns the
    four selected corners. *)
Lemma order_points_exact (P : list point) :
  P <> [] -> Forall f32_exact P ->
  exists tl tr br bl,
    _order_points P = Ok [tl; tr; br; bl] /\
    attains_min psum P tl /\ attains_min pdiff P tr /\
    attains_max psum P br /\ attains_max pdiff P bl /\
    (forall p0 rest, P = p0 :: rest ->
       (forall q, q ∈ rest -> psum p0 <= psum q) -> tl = p0).
Proof.
  intros Hne Hex. unfold _order_points.
  destruct (map_f32_exact P Hex) as (E1 & E2 & E3).
  rewrite E1, E2, E3.
  destruct (select_min psum P Hne) as (i1 & tl & A1 & G1 & M1 & Hd1).
  destruct (select_max psum P Hne) as (i2 & br & A2 & G2 & M2).
  destruct (select_min pdiff P Hne) as (i3 & tr & A3 & G3 & M3 & _).
  destruct (select_max pdiff P Hne) as (i4 & bl & A4 & G4 & M4).
  exists tl, tr, br, bl.
  rewrite A1, A2, A3, A4. unfold mbind, exc_bind.
  change (list (Z * Z)) with (list point) in *.
  rewrite G1, G3, G2, G4.
  repeat (split; [assumption || reflexivity|]).
  intros p0 rest -> Hhead. specialize (Hd1 p0 rest eq_refl Hhead). subst i1.
  unfold getitem in G1. simpl in G1. congruence.
Qed.

Lemma sole_min_intro (key : point -> Z) (P : list point) (m : point) :
  m ∈ P -> (forall q, q ∈ P -> q <> m -> key m < key q) -> sole_min key P.
Proof.
  intros Hm Hlt p q [Hp Hpmin] [Hq Hqmin].
  destruct (decide (p = m)) as [->|Hpm]; destruct (decide (q = m)) as [->|Hqm];
    try reflexivity.
  - specialize (Hlt q Hq Hqm). specialize (Hqmin m Hm). lia.
  - specialize (Hlt p Hp Hpm). specialize (Hpmin m Hm). lia.
  - specialize (Hlt p Hp Hpm). specialize (Hpmin m Hm). lia.
Qed.

Lemma sole_max_intro (key : point -> Z) (P : list point) (m : point) :
  m ∈ P -> (forall q, q ∈ P -> q <> m -> key q < key m) -> sole_max key P.
Proof.
  intros Hm Hlt p q [Hp Hpmax] [Hq Hqmax].
  destruct (decide (p = m)) as [->|Hpm]; destruct (decide (q = m)) as [->|Hqm];
    try reflexivity.
  - specialize (Hlt q Hq Hqm). specialize (Hqmax m Hm). lia.
  - specialize (Hlt p Hp Hpm). specialize (Hpmax m Hm). lia.
  - specialize (Hlt p Hp Hpm). specialize (Hpmax m Hm). lia.
Qed.

(** C3, as stated, fails: the quad [(10,10), (6,12), (0,8), (0,0)] is
    ordered to [(0,0), (10,10), (10,10), (0,8)], whose corners are points
    of minimal x+y, minimal y-x, maximal x+y and maximal y-x in that order,
    and ordering that list again gives a different list: (0,0) ties with
    (10,10) for the minimal y-x and comes first. *)
Lemma order_points_not_idempotent :
  let P := [(10, 10); (6, 12); (0, 8); (0, 0)] in
  let Q := [(0, 0); (10, 10); (10, 10); (0, 8)] in
  _order_points P = Ok Q /\
  attains_min psum Q (0, 0) /\ attains_min pdiff Q (10, 10) /\
  attains_max psum Q (10, 10) /\ attains_max pdiff Q (0, 8) /\
  _order_points Q = Ok [(0, 0); (0, 0); (10, 10); (0, 8)] /\
  _order_points Q <> Ok Q.
Proof.
  cbv zeta. split; [reflexivity|].
  assert (Hall : forall (R : point -> Prop),
             R (0, 0) -> R (10, 10) -> R (0, 8) ->
             forall q, q ∈ [(0, 0); (10, 10); (10, 10); (0, 8)] -> R q).
  { intros R R1 R2 R3 q Hq.
    repeat (apply elem_of_cons in Hq as [->|Hq]; [assumption|]).
    now apply elem_of_nil in Hq. }
  repeat split;
    try (apply Hall; unfold psum, pdiff; simpl; lia);
    try (repeat constructor).
  discriminate.
Qed.

(** C3 (amended): for four points whose coordinates float32 holds exactly,
    if the maximal x+y, the minimal y-x and the maximal y-x are each
    reached by one point only, [_order_points] returns a list that
    [_order_points] maps to itself. *)
Theorem order_points_idempotent (P : list point) :
  length P = 4%nat ->
  Forall f32_exact P ->
  sole_max psum P -> sole_min pdiff P -> sole_max pdiff P ->
  exists Q, _order_points P = Ok Q /\ _order_points Q = Ok Q.
Proof.
  intros Hlen Hex Hbr Htr Hbl.
  assert (Hne : P <> []) by (intros ->; discriminate).
  destruct (order_points_exact P Hne Hex)
    as (tl & tr & br & bl & HQ & Mtl & Mtr & Mbr & Mbl & _).
  exists [tl; tr; br; bl]. split; [exact HQ|].
  set (Q := [tl; tr; br; bl]).
  assert (Hsub : forall q, q ∈ Q -> q ∈ P).
  { intros q Hq. unfold Q in Hq.
    repeat (apply elem_of_cons in Hq as [->|Hq];
            [first [apply Mtl | apply Mtr | apply Mbr | apply Mbl]|]).
    now apply elem_of_nil in Hq. }
  assert (HexQ : Forall f32_exact Q).
  { apply Forall_forall. intros q Hq. rewrite Forall_forall in Hex.
    apply Hex, Hsub, Hq. }
  destruct (order_points_exact Q ltac:(discriminate) HexQ)
    as (tl' & tr' & br' & bl' & HQ' & Mtl' & Mtr' & Mbr' & Mbl' & Hhead).
  rewrite HQ'.
  assert (tl' = tl) as ->.
  { apply (Hhead tl [tr; br; bl] eq_refl).
    intros q Hq. apply Mtl, Hsub. now apply list_elem_of_further. }
  assert (tr' = tr) as ->.
  { apply Htr; [|exact Mtr]. destruct Mtr' as [Hin Hmin]. split; [now apply Hsub|].
    intros q Hq. destruct Mtr as [_ HminP].
    assert (pdiff tr' <= pdiff tr) by (apply Hmin; unfold Q; repeat constructor).
    specialize (HminP q Hq). lia. }
  assert (br' = br) as ->.
  { apply Hbr; [|exact Mbr]. destruct Mbr' as [Hin Hmax]. split; [now apply Hsub|].
    intros q Hq. destruct Mbr as [_ HmaxP].
    assert (psum br <= psum br') by (apply Hmax; unfold Q; repeat constructor).
    specialize (HmaxP q Hq). lia. }
  assert (bl' = bl) as ->.
  { apply Hbl; [|exact Mbl]. destruct Mbl' as [Hin Hmax]. split; [now apply Hsub|].
    intros q Hq. destruct Mbl as [_ HmaxP].
    assert (pdiff bl <= pdiff bl') by (apply Hmax; unfold Q; repeat constructor).
    specialize (HmaxP q Hq). lia. }
  reflexivity.
Qed.

Lemma order_points_idempotent_witness :
  let P := [(500, 100); (500, 700); (100, 700); (100, 100)] in
  let Q := [(100, 100); (500, 100); (500, 700); (100, 700)] in
  _order_points P = Ok Q /\ _order_points Q = Ok Q.
Proof.
  cbv zeta.
  assert (Hin : forall (R : point -> Prop),
             R (500, 100) -> R (500, 700) -> R (100, 700) -> R (100, 100) ->
             forall q, q ∈ [(500, 100); (500, 700); (100, 700); (100, 100)] -> R q).
  { intros R R1 R2 R3 R4 q Hq.
    repeat (apply elem_of_cons in Hq as [->|Hq]; [assumption|]).
    now apply elem_of_nil in Hq. }
  destruct (order_points_idempotent [(500, 100); (500, 700); (100, 700); (100, 100)])
    as (Q & HQ & Hfix).
  - reflexivity.
  - repeat constructor; simpl; lia.
  - apply (sole_max_intro psum _ (500, 700)); [repeat constructor|].
    refine (Hin (fun q => q <> (500, 700) -> psum q < psum (500, 700)) _ _ _ _);
      intros Hneq; unfold psum; simpl; first [lia | congruence].
  - apply (sole_min_intro pdiff _ (500, 100)); [repeat constructor|].
    refine (Hin (fun q => q <> (500, 100) -> pdiff (500, 100) < pdiff q) _ _ _ _);
      intros Hneq; unfold pdiff; simpl; first [lia | congruence].
  - apply (sole_max_intro pdiff _ (100, 700)); [repeat constructor|].
    refine (Hin (fun q => q <> (100, 700) -> pdiff q < pdiff (100, 700)) _ _ _ _);
      intros Hneq; unfold pdiff; simpl; first [lia | congruence].
  - assert (Q = [(100, 100); (500, 100); (500, 700); (100, 700)]) as ->.
    { vm_compute in HQ. congruence. }
    split; [reflexivity | exact Hfix].
Defined.

End OrderPoints.

(** ** Comparisons of floats *)

Lemma Qltb_false (a b : Q) : Qltb a b = false <-> (b <= a)%Q.
Proof.
  unfold Qltb. rewrite negb_false_iff. apply Qle_bool_iff.
Qed.

Lemma Qltb_true (a b : Q) : Qltb a b = true <-> (a < b)%Q.
Proof.
  unfold Qltb. rewrite negb_true_iff. split.
  - intros H. apply Qnot_le_lt. intros Hle. apply Qle_bool_iff in Hle. congruence.
  - intros H. destruct (Qle_bool b a) eqn:E; [|reflexivity].
    apply Qle_bool_iff in E. exfalso. exact (Qlt_not_le _ _ H E).
Qed.

(** ** Output size of the perspective warp *)

Section OutputSize.
Import Warp.

Lemma sqdist_nonneg (p q : point) : 0 <= sqdist p q.
Proof.
  unfold sqdist.
  pose proof (Z.square_nonneg (q.1 - p.1)).
  pose proof (Z.square_nonneg (q.2 - p.2)). lia.
Qed.

Lemma distance_sqdist (W : world) (p q : point) :
  _distance W p q = float_root W (sqdist p q).
Proof. unfold _distance, sqdist. rewrite !Z.pow_2_r. reflexivity. Qed.

Lemma square_small (d : Z) : Z.abs d < 2 ^ 24 -> d * d < 2 ^ 48.
Proof.
  intros H. rewrite <- Z.abs_square.
  assert (0 <= Z.abs d) by apply Z.abs_nonneg.
  change (2 ^ 48) with (2 ^ 24 * 2 ^ 24). nia.
Qed.

Lemma sqdist_small (p q : point) :
  pixel_point p -> pixel_point q -> 0 <= sqdist p q < 2 ^ 50.
Proof.
  intros [Hp1 Hp2] [Hq1 Hq2]. split; [apply sqdist_nonneg|].
  unfold sqdist.
  assert (Z.abs (q.1 - p.1) < 2 ^ 24) as H1 by lia.
  assert (Z.abs (q.2 - p.2) < 2 ^ 24) as H2 by lia.
  apply square_small in H1, H2. lia.
Qed.

(** Where the float power is faithful, the exact root and the float have
    the same integer part. *)
Lemma faithful_floor (W : world) (n : Z) :
  root_faithful W -> 0 <= n < 2 ^ 50 ->
  exists q, float_root W n = Ok q /\
    (inject_Z (Z.sqrt n) <= q)%Q /\ (q < inject_Z (Z.sqrt n + 1))%Q.
Proof.
  intros Hf Hn. destruct (Hf n Hn) as (q & Hq & Ha).
  exists q. split; [exact Hq|].
  pose proof (Z.sqrt_nonneg n) as Hk0.
  pose proof (Z.sqrt_spec n (proj1 Hn)) as Hk. unfold Z.succ in Hk.
  set (k := Z.sqrt n) in *.
  assert (k < 2 ^ 25) as Hk25.
  { apply Z.nle_gt. intros Hge.
    assert (2 ^ 25 * 2 ^ 25 <= k * k) by nia.
    change (2 ^ 25 * 2 ^ 25) with (2 ^ 50) in *. lia. }
  destruct q as [num den].
  split.
  - destruct (Ha (k * 2 ^ 26)) as [Hlow _]; [lia|].
    assert (k * 2 ^ 26 * (k * 2 ^ 26) <= n * 2 ^ 52) as Hsq.
    { change (2 ^ 52) with (2 ^ 26 * 2 ^ 26). nia. }
    specialize (Hlow Hsq). unfold Qle in *. simpl in *.
    change (Z.pos (2 ^ 26)) with (2 ^ 26) in Hlow.
    assert (0 < Z.pos den) by lia. nia.
  - destruct (Ha ((k + 1) * 2 ^ 26 - 1)) as [_ Hhigh]; [lia|].
    assert (n * 2 ^ 52 <= ((k + 1) * 2 ^ 26 - 1) * ((k + 1) * 2 ^ 26 - 1)) as Hsq.
    { change (2 ^ 52) with (2 ^ 26 * 2 ^ 26).
      assert (n + 1 <= (k + 1) * (k + 1)) by lia.
      assert (2 * (k + 1) * 2 ^ 26 <= 2 ^ 26 * 2 ^ 26).
      { change (2 ^ 26 * 2 ^ 26) with (2 * 2 ^ 25 * 2 ^ 26). nia. }
      nia. }
    specialize (Hhigh Hsq). unfold Qle, Qlt in *. simpl in *.
    change (Z.pos (2 ^ 26)) with (2 ^ 26) in Hhigh.
    assert (0 < Z.pos den) by lia. nia.
Qed.

Lemma py_int_floor (q : Q) (k : Z) :
  0 <= k -> (inject_Z k <= q)%Q -> (q < inject_Z (k + 1))%Q -> py_int q = k.
Proof.
  intros Hk Hlo Hhi. destruct q as [num den]. unfold py_int, Qle, Qlt in *.
  simpl in *. rewrite Z.mul_1_r in *.
  assert (0 < Z.pos den) as Hden by lia.
  assert (0 <= num) by nia.
  rewrite Z.quot_div_nonneg by lia.
  symmetry. apply (Z.div_unique_pos num (Z.pos den) k (num - Z.pos den * k)); lia.
Qed.

(** The integer part of the larger of two faithful roots. *)
Lemma faithful_max (W : world) (n1 n2 : Z) :
  root_faithful W -> 0 <= n1 < 2 ^ 50 -> 0 <= n2 < 2 ^ 50 ->
  exists q1 q2, float_root W n1 = Ok q1 /\ float_root W n2 = Ok q2 /\
    py_int (float_max q1 q2) = Z.sqrt (Z.max n1 n2).
Proof.
  intros Hf H1 H2.
  destruct (faithful_floor W n1 Hf H1) as (q1 & Hq1 & Hlo1 & Hhi1).
  destruct (faithful_floor W n2 Hf H2) as (q2 & Hq2 & Hlo2 & Hhi2).
  exists q1, q2. split; [exact Hq1|]. split; [exact Hq2|].
  pose proof (Z.sqrt_nonneg n1). pose proof (Z.sqrt_nonneg n2).
  unfold float_max. destruct (Qltb q1 q2) eqn:E.
  - apply Qltb_true in E.
    assert (Z.sqrt n1 <= Z.sqrt n2) as Hle.
    { apply Z.lt_succ_r. unfold Z.succ. rewrite Zlt_Qlt.
      eapply Qle_lt_trans; [exact Hlo1|]. eapply Qlt_trans; [exact E|exact Hhi2]. }
    destruct (Z.max_spec n1 n2) as [[_ ->]|[Hge ->]].
    + apply py_int_floor; assumption.
    + assert (Z.sqrt n2 <= Z.sqrt n1) by (apply Z.sqrt_le_mono; lia).
      replace (Z.sqrt n1) with (Z.sqrt n2) by lia.
      apply py_int_floor; assumption.
  - apply Qltb_false in E.
    assert (Z.sqrt n2 <= Z.sqrt n1) as Hle.
    { apply Z.lt_succ_r. unfold Z.succ. rewrite Zlt_Qlt.
      eapply Qle_lt_trans; [exact Hlo2|]. eapply Qle_lt_trans; [exact E|exact Hhi1]. }
    destruct (Z.max_spec n1 n2) as [[Hlt ->]|[_ ->]].
    + assert (Z.sqrt n1 <= Z.sqrt n2) by (apply Z.sqrt_le_mono; lia).
      replace (Z.sqrt n2) with (Z.sqrt n1) by lia.
      apply py_int_floor; assumption.
    + apply py_int_floor; assumption.
Qed.

(** The size computed for the quads of pixel positions. *)
Lemma output_size_faithful (W : world) (tl tr br bl : point) :
  root_faithful W ->
  pixel_point tl -> pixel_point tr -> pixel_point br -> pixel_point bl ->
  _calculate_output_size W [tl; tr; br; bl] =
  Ok (Z.max (Z.sqrt (Z.max (sqdist tl tr) (sqdist bl br))) 100,
      Z.max (Z.sqrt (Z.max (sqdist tl bl) (sqdist tr br))) 100).
Proof.
  intros Hf Htl Htr Hbr Hbl.
  destruct (faithful_max W (sqdist tl tr) (sqdist bl br) Hf
              (sqdist_small _ _ Htl Htr) (sqdist_small _ _ Hbl Hbr))
    as (w1 & w2 & Hw1 & Hw2 & Hw).
  destruct (faithful_max W (sqdist tl bl) (sqdist tr br) Hf
              (sqdist_small _ _ Htl Hbl) (sqdist_small _ _ Htr Hbr))
    as (h1 & h2 & Hh1 & Hh2 & Hh).
  unfold _calculate_output_size. rewrite !distance_sqdist.
  rewrite Hw1, Hw2, Hh1, Hh2. unfold mbind, exc_bind. rewrite Hw, Hh.
  reflexivity.
Qed.

(** The float power of the sample worlds is faithful. *)
Lemma sample_root_faithful (opencv : bool) (picture : frame)
    (lines : option (list (Q * Q))) (sanitize_ok : bool) (names : list string) :
  root_faithful (sample_world opencv picture lines sanitize_ok names).
Proof.
  intros n Hn. eexists. split; [reflexivity|].
  intros a Ha.
  assert (0 <= n * 2 ^ 52) as Hnn by lia.
  pose proof (Z.sqrt_spec _ Hnn) as Hs. unfold Z.succ in Hs.
  pose proof (Z.sqrt_nonneg (n * 2 ^ 52)).
  set (r := Z.sqrt (n * 2 ^ 52)) in *.
  unfold Qle. simpl. split; intros Hsq.
  - assert (a <= r) by nia. nia.
  - assert (r <= a) by nia. nia.
Qed.

Lemma nearest_sqrt_nearest (n : Z) :
  0 <= n -> is_nearest_sqrt n (nearest_sqrt n).
Proof.
  intros Hn. unfold is_nearest_sqrt, nearest_sqrt.
  pose proof (Z.sqrt_nonneg n) as Hk.
  pose proof (Z.sqrt_spec n Hn) as Hs. unfold Z.succ in Hs.
  set (k := Z.sqrt n) in *.
  destruct (Z.leb_spec (n - k * k) k); nia.
Qed.

(** The size computed for a quad is the size of the warped image: it is
    the [dsize] handed to [cv2.warpPerspective] (resp. the size handed to
    [Image.transform]) whose result is written to [output_path]. *)
Lemma warp_opencv_dsize (W : world) (image_path output_path p : string)
    (quad_points : list point) :
  _warp_opencv W image_path quad_points output_path = Ok p ->
  exists img size written,
    cv2_imread W image_path = Some img /\
    _calculate_output_size W quad_points = Ok size /\
    cv2_warp_write W img quad_points size output_path = Ok written /\
    p = output_path.
Proof.
  unfold _warp_opencv. destruct (cv2_imread W image_path) as [img|]; [|discriminate].
  destruct (_calculate_output_size W quad_points) as [size|]; [|discriminate].
  unfold mbind, exc_bind.
  destruct (cv2_warp_write W img quad_points size output_path) as [written|] eqn:Hw;
    [|discriminate].
  intros [= <-]. exists img, size, written. auto.
Qed.

Lemma warp_pillow_size (W : world) (image_path output_path p : string)
    (quad_points : list point) :
  _warp_pillow W image_path quad_points output_path = Ok p ->
  exists img size,
    pil_open W image_path = Ok img /\
    _calculate_output_size W quad_points = Ok size /\
    pil_transform_save W img size quad_points output_path = Ok tt /\
    p = output_path.
Proof.
  unfold _warp_pillow. destruct (pil_open W image_path) as [img|]; [|discriminate].
  destruct (_calculate_output_size W quad_points) as [size|]; [|discriminate].
  unfold mbind, exc_bind.
  destruct (pil_transform_save W img size quad_points output_path) as [[]|] eqn:Hw;
    [|discriminate].
  intros [= <-]. exists img, size. auto.
Qed.

(** C4, as stated, fails: for the quad [(0,0), (110,110), (110,410),
    (0,300)] both horizontal edges have length sqrt 24200 = 155.56..., whose
    nearest integer is 156, and the computed width is 155, with every
    faithful float power. *)
Lemma output_size_not_rounded :
  (forall W, root_faithful W ->
     _calculate_output_size W [(0, 0); (110, 110); (110, 410); (0, 300)]
     = Ok (155, 300)) /\
  root_faithful (sample_world true white_square None true []) /\
  Z.max (sqdist (0, 0) (110, 110)) (sqdist (0, 300) (110, 410)) = 24200 /\
  is_nearest_sqrt 24200 156 /\
  rounded_output_size (0, 0) (110, 110) (110, 410) (0, 300) = (156, 300).
Proof.
  split.
  { intros W Hf.
    rewrite (output_size_faithful W _ _ _ _ Hf);
      [reflexivity | | | |]; split; simpl; lia. }
  split; [apply sample_root_faithful|].
  split; [reflexivity|].
  split; [unfold is_nearest_sqrt; lia|]. reflexivity.
Qed.

(** C4 (amended): for every quad [TL, TR, BR, BL] of pixel positions
    (coordinates below 2^23 in absolute value, where the float power is
    faithful) the output width is the integer part (not the rounding) of
    the longer of |TL-TR| and |BL-BR|, the output height the integer part
    of the longer of |TL-BL| and |TR-BR|, each raised to at least 100; the
    quad [(0,0), (200,0), (200,300), (0,300)] gives exactly 200 x 300. *)
Theorem output_size_truncates (W : world) (tl tr br bl : point) :
  root_faithful W ->
  pixel_point tl -> pixel_point tr -> pixel_point br -> pixel_point bl ->
  (exists kw kh,
     is_floor_sqrt (Z.max (sqdist tl tr) (sqdist bl br)) kw /\
     is_floor_sqrt (Z.max (sqdist tl bl) (sqdist tr br)) kh /\
     _calculate_output_size W [tl; tr; br; bl] = Ok (Z.max kw 100, Z.max kh 100)) /\
  _calculate_output_size W [(0, 0); (200, 0); (200, 300); (0, 300)] = Ok (200, 300).
Proof.
  intros Hf Htl Htr Hbr Hbl. split.
  - exists (Z.sqrt (Z.max (sqdist tl tr) (sqdist bl br))),
           (Z.sqrt (Z.max (sqdist tl bl) (sqdist tr br))).
    assert (forall n, 0 <= n -> is_floor_sqrt n (Z.sqrt n)) as Hfloor.
    { intros n Hn. unfold is_floor_sqrt.
      pose proof (Z.sqrt_nonneg n). pose proof (Z.sqrt_spec n Hn) as Hs.
      unfold Z.succ in Hs. lia. }
    split; [|split].
    + apply Hfloor. pose proof (sqdist_nonneg tl tr). lia.
    + apply Hfloor. pose proof (sqdist_nonneg tl bl). lia.
    + apply output_size_faithful; assumption.
  - rewrite (output_size_faithful W _ _ _ _ Hf);
      [reflexivity | | | |]; split; simpl; lia.
Qed.

(** An instance: the rectangle of the claim. *)
Lemma output_size_truncates_witness :
  root_faithful (sample_world true white_square None true []) /\
  _calculate_output_size (sample_world true white_square None true [])
    [(0, 0); (200, 0); (200, 300); (0, 300)] = Ok (200, 300).
Proof.
  split; [apply sample_root_faithful|].
  apply (output_size_truncates (sample_world true white_square None true [])
           (0, 0) (200, 0) (200, 300) (0, 300) (sample_root_faithful _ _ _ _ _));
    split; simpl; lia.
Defined.

End OutputSize.

(** ** Deskew *)

Section Deskew.
Import Warp.

Lemma skip_deskew_false (m : Q) :
  skip_deskew m = false <-> (5 # 10 <= Qabs m)%Q /\ (Qabs m <= 15)%Q.
Proof.
  unfold skip_deskew. rewrite orb_false_iff, !Qltb_false. reflexivity.
Qed.

Lemma small_angle_true (a : Q) :
  small_angle a = true <-> (-45 < a)%Q /\ (a < 45)%Q.
Proof. unfold small_angle. rewrite andb_true_iff, !Qltb_true. reflexivity. Qed.

(** [sorted] sorts: the median is taken of the angles in ascending order. *)
Lemma insert_sorted_perm (a : Q) (l : list Q) : Permutation (insert_sorted a l) (a :: l).
Proof.
  induction l as [|b l IH]; simpl; [reflexivity|].
  destruct (Qle_bool a b); [reflexivity|].
  rewrite IH. apply Permutation_swap.
Qed.

Lemma sorted_perm (l : list Q) : Permutation (sorted l) l.
Proof.
  induction l as [|a l IH]; simpl; [reflexivity|].
  rewrite insert_sorted_perm. now constructor.
Qed.

Lemma insert_sorted_ascending (a : Q) (l : list Q) :
  Sorted Qle l -> Sorted Qle (insert_sorted a l).
Proof.
  induction 1 as [|b l Hs IH Hhd]; simpl; [repeat constructor|].
  destruct (Qle_bool a b) eqn:E.
  - apply Qle_bool_iff in E. repeat constructor; assumption.
  - assert (Hba : (b <= a)%Q).
    { apply Qlt_le_weak, Qltb_true. unfold Qltb. now rewrite E. }
    constructor; [exact IH|].
    destruct l as [|c l]; simpl; [now constructor|].
    destruct (Qle_bool a c); constructor; [exact Hba|].
    now inversion Hhd.
Qed.

Lemma sorted_ascending (l : list Q) : Sorted Qle (sorted l).
Proof.
  induction l as [|a l IH]; simpl; [constructor|].
  now apply insert_sorted_ascending.
Qed.

(** What [np.median] returns is the median. *)
Lemma median_is_median (l : list Q) : is_median l (median l).
Proof.
  exists (sorted l). split; [apply sorted_perm|].
  split; [apply sorted_ascending|]. reflexivity.
Qed.

Lemma Forall2_impl_left {A B} (P : A -> Prop) (R R' : A -> B -> Prop)
    (l : list A) (k : list B) :
  (forall x y, P x -> R x y -> R' x y) ->
  Forall P l -> Forall2 R l k -> Forall2 R' l k.
Proof.
  intros Himp HP HR. induction HR as [|x y l k Hxy HR IH]; [constructor|].
  apply Forall_cons in HP as [Hx HP].
  constructor; [now apply Himp | now apply IH].
Qed.

Lemma Forall2_impl_right {A B} (P : B -> Prop) (R R' : A -> B -> Prop)
    (l : list A) (k : list B) :
  (forall x y, P y -> R x y -> R' x y) ->
  Forall P k -> Forall2 R l k -> Forall2 R' l k.
Proof.
  intros Himp HP HR. induction HR as [|x y l k Hxy HR IH]; [constructor|].
  apply Forall_cons in HP as [Hy HP].
  constructor; [now apply Himp | now apply IH].
Qed.

(** The loop collects the qualifying angles: the positions of the lines
    kept, counted from [off]. *)
Lemma collected_positions (W : world) (ls : list (Q * Q)) : forall off : nat,
  exists idx : list nat,
    StronglySorted lt idx /\
    Forall (fun i => (off <= i)%nat) idx /\
    (forall i, i ∈ idx <->
       (off <= i)%nat /\
       exists line, ls !! (i - off)%nat = Some line /\
         small_angle (line_angle W line) = true) /\
    Forall2 (fun i a => exists line, ls !! (i - off)%nat = Some line /\
                          a = line_angle W line)
            idx (List.filter small_angle (map (line_angle W) ls)).
Proof.
  induction ls as [|line ls IH]; intros off.
  { exists []. split; [constructor|]. split; [constructor|]. split; [|constructor].
    intros i. split; [intros H; now apply elem_of_nil in H|].
    intros (_ & l & Hl & _). discriminate. }
  destruct (IH (S off)) as (idx & Hsorted & Hge & Hmem & Hall).
  assert (forall i, (S off <= i)%nat -> (line :: ls) !! (i - off)%nat = ls !! (i - S off)%nat)
    as Hshift.
  { intros i Hi. replace (i - off)%nat with (S (i - S off)) by lia. reflexivity. }
  assert (Forall2 (fun i a => exists l, (line :: ls) !! (i - off)%nat = Some l /\
                                a = line_angle W l)
                  idx (List.filter small_angle (map (line_angle W) ls))) as Hall'.
  { eapply Forall2_impl_left; [|exact Hge|exact Hall].
    simpl. intros i a Hi (l & Hl & Ha). exists l.
    rewrite Hshift by exact Hi. auto. }
  simpl. destruct (small_angle (line_angle W line)) eqn:Hsmall.
  - exists (off :: idx). split; [|split; [|split]].
    + constructor; [exact Hsorted|].
      eapply Forall_impl; [exact Hge|]. simpl. intros i Hi. lia.
    + constructor; [lia|]. eapply Forall_impl; [exact Hge|]. simpl. intros; lia.
    + intros i. rewrite elem_of_cons, Hmem. split.
      * intros [->|(Hi & l & Hl & Hs)].
        -- split; [lia|]. exists line. rewrite Nat.sub_diag. auto.
        -- split; [lia|]. exists l. rewrite Hshift by exact Hi. auto.
      * intros (Hi & l & Hl & Hs).
        destruct (decide (i = off)) as [->|Hne]; [now left|right].
        assert (S off <= i)%nat as Hi' by lia.
        split; [exact Hi'|]. exists l. rewrite <- Hshift by exact Hi'. auto.
    + constructor; [|exact Hall'].
      exists line. rewrite Nat.sub_diag. auto.
  - exists idx. split; [exact Hsorted|]. split; [|split; [|exact Hall']].
    + eapply Forall_impl; [exact Hge|]. simpl. intros; lia.
    + intros i. rewrite Hmem. split.
      * intros (Hi & l & Hl & Hs). split; [lia|]. exists l.
        rewrite Hshift by exact Hi. auto.
      * intros (Hi & l & Hl & Hs).
        destruct (decide (i = off)) as [->|Hne].
        { rewrite Nat.sub_diag in Hl. injection Hl as <-. congruence. }
        assert (S off <= i)%nat as Hi' by lia.
        split; [exact Hi'|]. exists l. rewrite <- Hshift by exact Hi'. auto.
Qed.

Lemma model_angles_qualifying (W : world) (lines : list (Q * Q)) :
  qualifying_angles W lines (deskew_angles W lines).
Proof.
  destruct (collected_positions W (take 20 lines) 0)
    as (idx & Hsorted & _ & Hmem & Hall).
  assert (forall i line, take 20 lines !! (i - 0)%nat = Some line <->
                         (i < 20)%nat /\ lines !! i = Some line) as Htake.
  { intros i line. rewrite Nat.sub_0_r, lookup_take_Some. tauto. }
  assert (forall i, i ∈ idx <-> exists a, qualifying W lines i a) as Hmem'.
  { intros i. rewrite Hmem. split.
    - intros (_ & line & Hl & Hs). apply Htake in Hl as [Hi Hl].
      apply small_angle_true in Hs as [Hlo Hhi].
      exists (line_angle W line). split; [exact Hi|]. exists line. auto.
    - intros (a & Hi & line & Hl & -> & Hlo & Hhi). split; [lia|].
      exists line. split; [apply Htake; auto|].
      apply small_angle_true. auto. }
  exists idx. split; [exact Hsorted|]. split; [exact Hmem'|].
  unfold deskew_angles.
  assert (Forall (fun a => small_angle a = true)
                 (List.filter small_angle (map (line_angle W) (take 20 lines)))) as Hsm.
  { apply List.Forall_forall. intros a Ha. apply filter_In in Ha. tauto. }
  eapply Forall2_impl_right; [|exact Hsm|exact Hall].
  simpl. intros i a Ha (line & Hl & ->). apply Htake in Hl as [Hi Hl].
  apply small_angle_true in Ha as [Hlo Hhi].
  split; [exact Hi|]. exists line. auto.
Qed.

Lemma ascending_ext (l1 : list nat) : forall l2,
  StronglySorted lt l1 -> StronglySorted lt l2 ->
  (forall i, i ∈ l1 <-> i ∈ l2) -> l1 = l2.
Proof.
  induction l1 as [|a l1 IH]; intros l2 H1 H2 Hext.
  { destruct l2 as [|b l2]; [reflexivity|].
    exfalso. eapply not_elem_of_nil. apply Hext. left. }
  destruct l2 as [|b l2].
  { exfalso. eapply not_elem_of_nil. apply Hext. left. }
  apply StronglySorted_inv in H1 as [H1 Ha].
  apply StronglySorted_inv in H2 as [H2 Hb].
  rewrite List.Forall_forall in Ha, Hb.
  assert (a = b) as ->.
  { assert (a ∈ b :: l2) as Hab by (apply Hext; left).
    assert (b ∈ a :: l1) as Hba by (apply Hext; left).
    apply elem_of_cons in Hab as [?|Hab]; [assumption|].
    apply elem_of_cons in Hba as [?|Hba]; [congruence|].
    apply list_elem_of_In in Hab, Hba.
    specialize (Ha _ Hba). specialize (Hb _ Hab). lia. }
  f_equal. apply IH; [exact H1|exact H2|].
  intros i. split; intros Hi.
  - assert (i ∈ b :: l2) as H by (apply Hext; now right).
    apply elem_of_cons in H as [->|H]; [|exact H].
    apply list_elem_of_In in Hi. specialize (Ha _ Hi). lia.
  - assert (i ∈ b :: l1) as H by (apply Hext; now right).
    apply elem_of_cons in H as [->|H]; [|exact H].
    apply list_elem_of_In in Hi. specialize (Hb _ Hi). lia.
Qed.

(** The qualifying angles of given lines are one list. *)
Lemma qualifying_angles_unique (W : world) (lines : list (Q * Q))
    (angles angles' : list Q) :
  qualifying_angles W lines angles -> qualifying_angles W lines angles' ->
  angles = angles'.
Proof.
  intros (idx & Hs & Hm & Hall) (idx' & Hs' & Hm' & Hall').
  assert (idx = idx') as <-.
  { apply ascending_ext; [exact Hs|exact Hs'|].
    intros i. rewrite Hm, Hm'. reflexivity. }
  clear Hs Hs' Hm Hm'. revert angles' Hall'.
  induction Hall as [|i a idx0 as0 Hia Hrest IH]; intros angles' Hall'.
  - now inversion Hall'.
  - inversion Hall' as [|i' a' idx1 as1 Hia' Hrest']; subst.
    f_equal; [|apply IH; exact Hrest'].
    destruct Hia as (_ & line & Hl & -> & _).
    destruct Hia' as (_ & line' & Hl' & -> & _). congruence.
Qed.

(** What [deskew] returns once the image is read and lines are found. *)
Lemma deskew_on_lines (W : world) (image_path output_path : string)
    (img : frame) (lines : list (Q * Q)) :
  OPENCV_AVAILABLE W = true ->
  cv2_imread W image_path = Some img ->
  cv2_hough W img = Ok (Some lines) ->
  deskew W image_path (Some output_path) =
  match deskew_angles W lines with
  | [] => image_path
  | _ :: _ =>
      if skip_deskew (median (deskew_angles W lines)) then image_path
      else match cv2_rotate_write W img (median (deskew_angles W lines)) output_path with
           | Ok _ => output_path
           | Raise _ => image_path
           end
  end.
Proof.
  intros Hcv Hread Hlines.
  unfold deskew, default_output. rewrite Hcv.
  unfold _deskew_opencv. rewrite Hread, Hlines. unfold mbind, exc_bind.
  destruct lines as [|l lines]; [reflexivity|].
  destruct (deskew_angles W (l :: lines)) as [|a angles]; [reflexivity|].
  destruct (skip_deskew (median (a :: angles))); [reflexivity|].
  destruct (cv2_rotate_write W img (median (a :: angles)) output_path); reflexivity.
Qed.




End Deskew.

(** ** Fallback (Pillow) detection *)

Section FallbackDetection.
Import QuadDetect.

Lemma elem_of_coords (w h x y : Z) :
  (x, y) ∈ coords w h <-> 0 <= x < w /\ 0 <= y < h.
Proof.
  unfold coords. rewrite list_elem_of_In, in_flat_map. split.
  - intros (y' & Hy' & Hin). apply in_map_iff in Hin as (x' & [= <- <-] & Hx').
    apply list_elem_of_In, elem_of_seqZ in Hy'.
    apply list_elem_of_In, elem_of_seqZ in Hx'. lia.
  - intros [Hx Hy]. exists y. split.
    + apply list_elem_of_In, elem_of_seqZ. lia.
    + apply in_map_iff. exists x. split; [reflexivity|].
      apply list_elem_of_In, elem_of_seqZ. lia.
Qed.

Lemma foldl_map {A B C} (f : A -> C -> A) (g : B -> C) (l : list B) (a : A) :
  foldl f a (map g l) = foldl (fun a x => f a (g x)) a l.
Proof. revert a. induction l as [|x l IH]; intros a; simpl; [reflexivity | apply IH]. Qed.

Lemma foldl_flat_map {A B C} (f : A -> C -> A) (g : B -> list C) (l : list B) (a : A) :
  foldl f a (flat_map g l) = foldl (fun a y => foldl f a (g y)) a l.
Proof.
  revert a. induction l as [|y l IH]; intros a; simpl; [reflexivity|].
  rewrite foldl_app. apply IH.
Qed.

Lemma foldl_ext {A B} (f g : A -> B -> A) (l : list B) (a : A) :
  (forall a x, f a x = g a x) -> foldl f a l = foldl g a l.
Proof.
  intros Hfg. revert a. induction l as [|x l IH]; intros a; simpl; [reflexivity|].
  rewrite Hfg. apply IH.
Qed.

Lemma bbox_scan_fold (E : frame) :
  bbox_scan E =
  foldl (visit (f_data E) (f_width E))
        (Ok {| min_x := f_width E; min_y := f_height E; max_x := 0; max_y := 0;
               edge_count := 0 |})
        (coords (f_width E) (f_height E)).
Proof.
  unfold bbox_scan, coords. rewrite foldl_flat_map.
  apply foldl_ext. intros a y. unfold bbox_row. rewrite foldl_map. reflexivity.
Qed.

Lemma summary_nil (hot : Z * Z -> bool) (a : bbox_acc) : summary hot [] a a.
Proof.
  constructor; simpl; try lia; auto.
  intros c Hc. now apply elem_of_nil in Hc.
Qed.

Lemma hit_later (hot : Z * Z -> bool) (L : list (Z * Z)) (c0 : Z * Z) (v : Z)
    (proj : Z * Z -> Z) :
  (exists c, c ∈ L /\ hot c = true /\ proj c = v) ->
  exists c, c ∈ c0 :: L /\ hot c = true /\ proj c = v.
Proof.
  intros (c & Hc & Hhot & Hv). exists c. split; [now apply list_elem_of_further | auto].
Qed.

Lemma summary_skip (hot : Z * Z -> bool) (L : list (Z * Z)) (c : Z * Z)
    (a0 a : bbox_acc) :
  hot c = false -> summary hot L a0 a -> summary hot (c :: L) a0 a.
Proof.
  intros Hc [S1 S2 S3 S4 S5 S6 S7 S8 S9 S10].
  constructor; simpl; try rewrite Hc; try assumption.
  - intros c' Hc' Hhot. apply elem_of_cons in Hc' as [->|Hc']; [congruence | auto].
  - destruct S7 as [?|?]; [now left | right; now apply hit_later].
  - destruct S8 as [?|?]; [now left | right; now apply hit_later].
  - destruct S9 as [?|?]; [now left | right; now apply hit_later].
  - destruct S10 as [?|?]; [now left | right; now apply hit_later].
Qed.

Lemma summary_hit (hot : Z * Z -> bool) (L : list (Z * Z)) (c : Z * Z)
    (a0 a : bbox_acc) :
  hot c = true ->
  summary hot L
    {| min_x := Z.min (min_x a0) c.1; min_y := Z.min (min_y a0) c.2;
       max_x := Z.max (max_x a0) c.1; max_y := Z.max (max_y a0) c.2;
       edge_count := edge_count a0 + 1 |} a ->
  summary hot (c :: L) a0 a.
Proof.
  intros Hc [S1 S2 S3 S4 S5 S6 S7 S8 S9 S10]. simpl in *.
  assert (Hin : c ∈ c :: L) by apply list_elem_of_here.
  constructor; simpl; try rewrite Hc; simpl; try lia.
  - intros c' Hc' Hhot. apply elem_of_cons in Hc' as [->|Hc']; [lia | auto].
  - destruct S7 as [E|?]; [|right; now apply hit_later].
    destruct (Z.min_spec (min_x a0) c.1) as [[_ E']|[_ E']]; rewrite E' in E;
      [now left | right; exists c; auto].
  - destruct S8 as [E|?]; [|right; now apply hit_later].
    destruct (Z.min_spec (min_y a0) c.2) as [[_ E']|[_ E']]; rewrite E' in E;
      [now left | right; exists c; auto].
  - destruct S9 as [E|?]; [|right; now apply hit_later].
    destruct (Z.max_spec (max_x a0) c.1) as [[_ E']|[_ E']]; rewrite E' in E;
      [right; exists c; auto | now left].
  - destruct S10 as [E|?]; [|right; now apply hit_later].
    destruct (Z.max_spec (max_y a0) c.2) as [[_ E']|[_ E']]; rewrite E' in E;
      [right; exists c; auto | now left].
Qed.

Lemma fold_visit_summary (F : frame) (L : list (Z * Z)) (a0 : bbox_acc) :
  (forall c, c ∈ L -> is_Some (f_data F !! Z.to_nat (c.2 * f_width F + c.1))) ->
  exists a, foldl (visit (f_data F) (f_width F)) (Ok a0) L = Ok a /\
            summary (edge_here F) L a0 a.
Proof.
  revert a0. induction L as [|c L IH]; intros a0 Hsome.
  - exists a0. split; [reflexivity | apply summary_nil].
  - destruct (Hsome c (list_elem_of_here _ _)) as [b Hb].
    assert (Hrest : forall c', c' ∈ L ->
              is_Some (f_data F !! Z.to_nat (c'.2 * f_width F + c'.1))).
    { intros c' Hc'. apply Hsome. now apply list_elem_of_further. }
    assert (Hhot : edge_here F c = is_edge_sample b).
    { unfold edge_here. now rewrite Hb. }
    change (foldl (visit (f_data F) (f_width F)) (Ok a0) (c :: L))
      with (foldl (visit (f_data F) (f_width F))
                  (visit (f_data F) (f_width F) (Ok a0) c) L).
    replace (visit (f_data F) (f_width F) (Ok a0) c)
      with (if is_edge_sample b
            then Ok {| min_x := Z.min (min_x a0) c.1; min_y := Z.min (min_y a0) c.2;
                       max_x := Z.max (max_x a0) c.1; max_y := Z.max (max_y a0) c.2;
                       edge_count := edge_count a0 + 1 |}
            else Ok a0)
      by (unfold visit, bbox_visit, getitem, mbind, exc_bind; now rewrite Hb).
    destruct (is_edge_sample b) eqn:Hedge.
    + edestruct IH as (a & Hfold & Hsum); [exact Hrest|].
      exists a. split; [exact Hfold|]. now apply summary_hit.
    + destruct (IH a0 Hrest) as (a & Hfold & Hsum).
      exists a. split; [exact Hfold|]. now apply summary_skip.
Qed.

Lemma edge_at_coords (F : frame) (x y : Z) :
  edge_at F x y <-> (x, y) ∈ coords (f_width F) (f_height F) /\ edge_here F (x, y) = true.
Proof. unfold edge_at. rewrite elem_of_coords. tauto. Qed.

Lemma coords_in_range (F : frame) (c : Z * Z) :
  well_formed F -> c ∈ coords (f_width F) (f_height F) ->
  is_Some (f_data F !! Z.to_nat (c.2 * f_width F + c.1)).
Proof.
  intros (Hw & Hh & Hlen) Hc. destruct c as [x y].
  apply elem_of_coords in Hc as [Hx Hy]. simpl.
  apply lookup_lt_is_Some. nia.
Qed.

(** On a well-formed raster the scan ends without an [IndexError], has
    counted the edge pixels and, if there is one, holds their bounding
    box. *)
Lemma bbox_scan_spec (E : frame) :
  well_formed E ->
  exists a, bbox_scan E = Ok a /\ edge_count a = count_edges E /\
            (0 < count_edges E ->
             tight_bbox E (min_x a, min_y a, max_x a, max_y a)).
Proof.
  intros Hwf. rewrite bbox_scan_fold.
  edestruct (fold_visit_summary E (coords (f_width E) (f_height E)))
    as (a & Hfold & [S1 _ _ _ _ S6 S7 S8 S9 S10]).
  { intros c Hc. now apply coords_in_range. }
  exists a. split; [exact Hfold|]. simpl in *. split; [unfold count_edges; lia|].
  intros Hpos. unfold count_edges in Hpos.
  destruct (List.filter (edge_here E) (coords (f_width E) (f_height E)))
    as [|c0 rest] eqn:Hfilter; [simpl in Hpos; lia|].
  assert (Hc0 : c0 ∈ coords (f_width E) (f_height E) /\ edge_here E c0 = true).
  { rewrite list_elem_of_In. apply filter_In. rewrite Hfilter. now left. }
  destruct Hc0 as [Hc0 Hhot0]. destruct c0 as [x0 y0].
  pose proof (proj1 (elem_of_coords _ _ _ _) Hc0) as [Hx0 Hy0].
  destruct (S6 _ Hc0 Hhot0) as [Bx By]. simpl in Bx, By.
  assert (Hedge : forall c, c ∈ coords (f_width E) (f_height E) ->
                    edge_here E c = true -> edge_at E c.1 c.2).
  { intros [x y] Hc Hhot. apply edge_at_coords. auto. }
  unfold tight_bbox. split; [|split; [|split; [|split]]].
  - intros x y Hxy. apply edge_at_coords in Hxy as [Hc Hhot].
    exact (S6 _ Hc Hhot).
  - destruct S7 as [E7|(c & Hc & Hhot & E7)]; [lia|].
    exists c.2. rewrite <- E7. now apply Hedge.
  - destruct S9 as [E9|(c & Hc & Hhot & E9)].
    + exists y0. replace (max_x a) with x0 by lia. now apply (Hedge (x0, y0)).
    + exists c.2. rewrite <- E9. now apply Hedge.
  - destruct S8 as [E8|(c & Hc & Hhot & E8)]; [lia|].
    exists c.1. rewrite <- E8. now apply Hedge.
  - destruct S10 as [E10|(c & Hc & Hhot & E10)].
    + exists x0. replace (max_y a) with y0 by lia. now apply (Hedge (x0, y0)).
    + exists c.1. rewrite <- E10. now apply Hedge.
Qed.

Lemma tight_bbox_unique (F : frame) (b1 b2 : Z * Z * Z * Z) :
  tight_bbox F b1 -> tight_bbox F b2 -> b1 = b2.
Proof.
  destruct b1 as [[[x1 y1] x2] y2], b2 as [[[u1 v1] u2] v2].
  intros (B1 & [ya Ha] & [yb Hb] & [xc Hc] & [xd Hd])
         (B2 & [ya' Ha'] & [yb' Hb'] & [xc' Hc'] & [xd' Hd']).
  pose proof (B2 _ _ Ha). pose proof (B2 _ _ Hb).
  pose proof (B2 _ _ Hc). pose proof (B2 _ _ Hd).
  pose proof (B1 _ _ Ha'). pose proof (B1 _ _ Hb').
  pose proof (B1 _ _ Hc'). pose proof (B1 _ _ Hd').
  repeat f_equal; lia.
Qed.

(** [v < size * 0.2], for ints [v] and [size] *)
Lemma Qltb_fifth (v size : Z) :
  Qltb (inject_Z v) (inject_Z size * (2 # 10)) = (5 * v <? size).
Proof.
  unfold Qltb, Qle_bool. simpl.
  change (Z.pos (1 * 10)) with 10.
  destruct (Z.leb_spec (size * 2 * 1) (v * 10)), (Z.ltb_spec (5 * v) size);
    simpl; try reflexivity; lia.
Qed.

Lemma find_content_bbox_spec (E : frame) :
  well_formed E ->
  exists res, _find_content_bbox E = Ok res /\
    (is_Some res <->
     100 <= count_edges E /\
     exists box, tight_bbox E box /\ spans_fifth E (margin_box E box)) /\
    (forall found, res = Some found ->
     exists box, tight_bbox E box /\ found = margin_box E box).
Proof.
  intros Hwf. destruct (bbox_scan_spec E Hwf) as (a & Hscan & Hcount & Htight).
  unfold _find_content_bbox. rewrite Hscan. unfold mbind, exc_bind.
  rewrite Hcount, !Qltb_fifth. unfold margin.
  destruct (Z.ltb_spec (count_edges E) 100) as [Hfew|Hmany].
  { exists None. split; [reflexivity|]. split.
    - split; [intros [? [=]] | lia].
    - intros found [=]. }
  specialize (Htight ltac:(lia)).
  set (box := (min_x a, min_y a, max_x a, max_y a)) in *.
  match goal with |- context [if ?c then _ else _] => destruct c eqn:Hsmall end.
  - exists None. split; [reflexivity|]. split.
    + split; [intros [? [=]]|].
      intros (_ & box' & Hbox' & Hspan).
      rewrite (tight_bbox_unique E box' box Hbox' Htight) in Hspan.
      unfold box, margin_box, spans_fifth in Hspan.
      apply orb_true_iff in Hsmall as [H|H]; apply Z.ltb_lt in H; lia.
    + intros found [=].
  - exists (Some (margin_box E box)). split; [reflexivity|]. split.
    + split; [|intros _; eexists; reflexivity].
      intros _. split; [exact Hmany|]. exists box. split; [exact Htight|].
      unfold box, margin_box, spans_fifth.
      apply orb_false_iff in Hsmall as [H1 H2].
      apply Z.ltb_ge in H1, H2. lia.
    + intros found [= <-]. exists box. auto.
Qed.

(** After the threshold a sample exceeds 128 exactly when the edge filter's
    response exceeded the binary threshold 30. *)
Lemma binarize_edge (b : byte) :
  is_edge_sample (binarize b) = (30 <? Z.of_N (Byte.to_N b)).
Proof. unfold binarize. now destruct (30 <? Z.of_N (Byte.to_N b)). Qed.

Lemma lookup_map_list {A B} (f : A -> B) (l : list A) (n : nat) :
  map f l !! n = f <$> (l !! n).
Proof.
  revert n. induction l as [|a l IH]; intros [|n]; simpl; try reflexivity. apply IH.
Qed.

Lemma edge_here_threshold (F : frame) (c : Z * Z) :
  edge_here (point_threshold F) c = strong_here F c.
Proof.
  unfold edge_here, strong_here, point_threshold. simpl.
  rewrite lookup_map_list.
  destruct (f_data F !! Z.to_nat (c.2 * f_width F + c.1)) as [b|]; simpl;
    [apply binarize_edge | reflexivity].
Qed.

Lemma edge_at_threshold (F : frame) (x y : Z) :
  edge_at (point_threshold F) x y <-> strong_at F x y.
Proof.
  unfold edge_at, strong_at. rewrite edge_here_threshold. reflexivity.
Qed.

Lemma count_edges_threshold (F : frame) :
  count_edges (point_threshold F) = count_strong F.
Proof.
  unfold count_edges, count_strong. simpl. f_equal. f_equal.
  apply filter_ext. intros c. apply edge_here_threshold.
Qed.

Lemma tight_bbox_threshold (F : frame) (box : Z * Z * Z * Z) :
  tight_bbox (point_threshold F) box <-> bounding_box F box.
Proof.
  destruct box as [[[x1 y1] x2] y2]. unfold tight_bbox, bounding_box.
  setoid_rewrite edge_at_threshold. reflexivity.
Qed.

Lemma well_formed_threshold (F : frame) :
  well_formed F -> well_formed (point_threshold F).
Proof.
  unfold well_formed, point_threshold. simpl. rewrite length_map. auto.
Qed.

(** The first half of [_process_pillow], step by step. *)
Lemma pillow_edges_steps (W : world) (img small gray F : frame) (scale : Q) :
  downscaled W img small scale ->
  pil_convert_L W small = Ok gray ->
  pil_find_edges W gray = Ok F ->
  pillow_edges W img = Ok (scale, point_threshold F).
Proof.
  unfold downscaled, pillow_edges, DOWNSCALE_WIDTH, mbind, exc_bind.
  change (inject_Z 960) with 960%Q.
  destruct (960 <? f_width img).
  - intros [-> Hsmall] Hgray Hedges. rewrite Hsmall, Hgray, Hedges. reflexivity.
  - intros [-> ->] Hgray Hedges. rewrite Hgray, Hedges. reflexivity.
Qed.

(** What [detect] returns without OpenCV, in terms of the binary edge
    image [E]. *)
Lemma detect_pillow_binary (W : world) (image_path : string) (img E : frame)
    (scale : Q) :
  OPENCV_AVAILABLE W = false ->
  pil_open W image_path = Ok img ->
  pillow_edges W img = Ok (scale, E) ->
  well_formed E ->
  let r := detect W image_path in
  (detected r = true <->
   100 <= count_edges E /\
   exists box, tight_bbox E box /\ spans_fifth E (margin_box E box)) /\
  (detected r = true ->
   exists box, tight_bbox E box /\
     points r = Some (rescaled_corners W scale (margin_box E box)) /\
     confidence r = 5 # 10) /\
  (detected r = false -> points r = None) /\
  frame_size r = (f_width img, f_height img).
Proof.
  intros Hcv Hopen Hedges Hwf r.
  destruct (find_content_bbox_spec E Hwf) as (res & Hres & Hiff & Hbox).
  assert (Hr : r = match res with
                   | Some (x1, y1, x2, y2) =>
                       {| detected := true;
                          points := Some (rescaled_corners W scale (x1, y1, x2, y2));
                          confidence := 5 # 10;
                          frame_size := (f_width img, f_height img) |}
                   | None =>
                       {| detected := false; points := None; confidence := 0;
                          frame_size := (f_width img, f_height img) |}
                   end).
  { unfold r, detect, _detect_pillow, _process_pillow. rewrite Hcv. simpl catch.
    rewrite Hopen. unfold mbind, exc_bind. rewrite Hedges, Hres.
    destruct res as [[[[x1 y1] x2] y2]|]; reflexivity. }
  clearbody r. subst r.
  destruct res as [[[[x1 y1] x2] y2]|]; simpl.
  - split; [|split; [|split]]; auto.
    + split; [intros _; apply Hiff; eexists; reflexivity | reflexivity].
    + intros _. destruct (Hbox _ eq_refl) as (box & Htight & Hfound).
      exists box. split; [exact Htight|]. rewrite <- Hfound. auto.
    + discriminate.
  - split; [|split; [|split]]; auto.
    + split; [discriminate|]. intros H. apply Hiff in H as [? [=]].
    + discriminate.
Qed.



End FallbackDetection.

(** ** Detection never raises *)

Section DetectionErrors.
Import QuadDetect.

Lemma detect_opencv_bytes_decode (W : world) (image_bytes : list byte) (width height : Z) :
  _detect_opencv_bytes W image_bytes width height =
  match decode_raw W image_bytes width height with
  | Ok (Some img) => _process_opencv W img
  | Ok None => Ok QuadResult_not_detected
  | Raise _ => Ok QuadResult_not_detected
  end.
Proof. reflexivity. Qed.

Lemma decode_raw_wrong_length (W : world) (image_bytes : list byte) (width height : Z) :
  Z.of_nat (length image_bytes) <> width * height * 4 ->
  Z.of_nat (length image_bytes) <> width * height * 3 ->
  decode_raw W image_bytes width height = Ok None.
Proof.
  intros H4 H3. unfold decode_raw.
  destruct (Z.eqb_spec (Z.of_nat (length image_bytes)) (width * height * 4)); [lia|].
  destruct (Z.eqb_spec (Z.of_nat (length image_bytes)) (width * height * 3)); [lia|].
  reflexivity.
Qed.

(** [detect] and [detect_from_bytes] always return a [QuadResult]; when
    the input cannot be read or decoded, or processing raises, the result
    is [QuadResult(detected=False)], with zero confidence.  With OpenCV
    this covers every buffer whose length is neither [width * height * 3]
    nor [width * height * 4]. *)
Lemma detection_never_raises (W : world) (image_path : string)
    (image_bytes : list byte) (width height : Z) :
  (detect_fails W image_path -> detect W image_path = QuadResult_not_detected) /\
  (bytes_fail W image_bytes width height ->
   detect_from_bytes W image_bytes width height = QuadResult_not_detected) /\
  (OPENCV_AVAILABLE W = true ->
   Z.of_nat (length image_bytes) <> width * height * 3 ->
   Z.of_nat (length image_bytes) <> width * height * 4 ->
   detect_from_bytes W image_bytes width height = QuadResult_not_detected) /\
  detected QuadResult_not_detected = false /\
  confidence QuadResult_not_detected = 0%Q.
Proof.
  split; [|split; [|split; [|split; reflexivity]]].
  - unfold detect_fails, detect. destruct (OPENCV_AVAILABLE W).
    + unfold _detect_opencv. intros [->|(img & -> & Hr)]; [reflexivity|].
      destruct (_process_opencv W img); [destruct Hr | reflexivity].
    + unfold _detect_pillow. simpl catch. intros [Hr|(img & -> & Hr)].
      * destruct (pil_open W image_path); [destruct Hr | reflexivity].
      * unfold mbind, exc_bind.
        destruct (_process_pillow W img); [destruct Hr | reflexivity].
  - unfold bytes_fail, detect_from_bytes. destruct (OPENCV_AVAILABLE W).
    + rewrite detect_opencv_bytes_decode.
      intros [->|[Hr|(img & -> & Hr)]]; [reflexivity| |].
      * destruct (decode_raw W image_bytes width height); [destruct Hr | reflexivity].
      * destruct (_process_opencv W img); [destruct Hr | reflexivity].
    + unfold _detect_pillow_bytes. simpl catch. intros [Hr|(img & -> & Hr)].
      * destruct (pil_open_bytes W image_bytes); [destruct Hr | reflexivity].
      * unfold mbind, exc_bind.
        destruct (_process_pillow W img); [destruct Hr | reflexivity].
  - intros Hcv H3 H4. unfold detect_from_bytes. rewrite Hcv.
    rewrite detect_opencv_bytes_decode, decode_raw_wrong_length by assumption.
    reflexivity.
Qed.

(** C7 fails on the Pillow backend: [_detect_pillow_bytes] never looks at
    [width] and [height] and hands the buffer to [Image.open], which reads
    an encoded image file, not raw pixels.  The 85 bytes of the PNG file
    of a white page on a black desk are neither 20*20*3 nor 20*20*4 long;
    with OpenCV the buffer is rejected, without OpenCV the page is
    detected, with confidence 0.5. *)
Theorem pillow_bytes_ignore_dimensions :
  (forall (W : world) (image_bytes : list byte) (width height width' height' : Z),
     OPENCV_AVAILABLE W = false ->
     detect_from_bytes W image_bytes width height
     = detect_from_bytes W image_bytes width' height') /\
  Z.of_nat (length page_png) = 85 /\
  85 <> 20 * 20 * 3 /\ 85 <> 20 * 20 * 4 /\
  detect_from_bytes (sample_world true white_square None true []) page_png 20 20
  = QuadResult_not_detected /\
  detect_from_bytes (sample_world false white_square None true []) page_png 20 20
  = {| detected := true;
       points := Some [(0, 0); (39, 0); (39, 39); (0, 39)];
       confidence := 5 # 10;
       frame_size := (40, 40) |}.
Proof.
  split.
  { intros W image_bytes width height width' height' Hcv.
    unfold detect_from_bytes. rewrite Hcv. reflexivity. }
  split; [reflexivity|]. split; [lia|]. split; [lia|].
  split; vm_compute; reflexivity.
Qed.

End DetectionErrors.

(** ** Brightness estimate *)

Section Brightness.
Import QuadDetect.

Lemma sum_samples_bounds (pixels : list byte) :
  0 <= sum_samples pixels <= 255 * Z.of_nat (length pixels).
Proof.
  induction pixels as [|b pixels IH]; simpl; [lia|].
  pose proof (Byte.to_N_bounded b). lia.
Qed.

Lemma mean_bounds (pixels : list byte) :
  pixels <> [] ->
  (0 <= inject_Z (sum_samples pixels) / inject_Z (Z.of_nat (length pixels)) <= 255)%Q.
Proof.
  intros Hne. pose proof (sum_samples_bounds pixels) as [Hlo Hhi].
  assert (Hlen : 0 < Z.of_nat (length pixels)) by (destruct pixels; [congruence | simpl; lia]).
  assert (Hpos : (0 < inject_Z (Z.of_nat (length pixels)))%Q).
  { change 0%Q with (inject_Z 0). now rewrite <- Zlt_Qlt. }
  split.
  - apply Qle_shift_div_l; [exact Hpos|]. rewrite Qmult_0_l.
    change 0%Q with (inject_Z 0). now rewrite <- Zle_Qle.
  - apply Qle_shift_div_r; [exact Hpos|].
    change 255%Q with (inject_Z 255). rewrite <- inject_Z_mult, <- Zle_Qle. exact Hhi.
Qed.

Lemma estimate_brightness_unreadable (W : world) (image_path : string) :
  unreadable W image_path -> estimate_brightness W image_path = 128%Q.
Proof.
  unfold unreadable, estimate_brightness, mbind, exc_bind.
  intros [Hr|(img & -> & Hr)].
  - destruct (pil_open W image_path); [destruct Hr | reflexivity].
  - destruct (pil_convert_L W img); [destruct Hr | reflexivity].
Qed.

(** C10: [estimate_brightness] is total and its value lies in [0, 255];
    when the image cannot be opened or converted it is the default 128;
    [is_low_light] (of the detector and of the pipeline) is true exactly
    when the estimate is below 50, so an unreadable image is not
    low-light. *)
Theorem brightness_estimate (W : world) (self : Pipeline.ScannerPipeline)
    (image_path : string) :
  (0 <= estimate_brightness W image_path <= 255)%Q /\
  (unreadable W image_path -> estimate_brightness W image_path = 128%Q) /\
  (is_low_light W image_path = true <-> (estimate_brightness W image_path < 50)%Q) /\
  Pipeline.is_low_light W self image_path = is_low_light W image_path /\
  (unreadable W image_path -> Pipeline.is_low_light W self image_path = false).
Proof.
  split; [|split; [|split; [|split]]].
  - unfold estimate_brightness, mbind, exc_bind.
    destruct (pil_open W image_path) as [img|]; simpl; [|split; discriminate].
    destruct (pil_convert_L W img) as [gray|]; simpl; [|split; discriminate].
    match goal with |- context [crop_data ?g ?a ?b ?c ?d] =>
      destruct (crop_data g a b c d) as [|p pixels] eqn:Hcrop end.
    + split; discriminate.
    + apply mean_bounds. discriminate.
  - apply estimate_brightness_unreadable.
  - unfold is_low_light, is_low_light_with. apply Qltb_true.
  - reflexivity.
  - intros Hu. unfold Pipeline.is_low_light, is_low_light, is_low_light_with.
    now rewrite (estimate_brightness_unreadable W image_path Hu).
Qed.

Lemma brightness_of_white_square :
  let W := sample_world false white_square None true [] in
  (estimate_brightness W "page.jpg" == 255)%Q /\
  is_low_light W "page.jpg" = false.
Proof. cbv zeta. split; reflexivity. Qed.

End Brightness.

(** ** Capture processing *)

Section ProcessCapture.
Import Pipeline.

(** A stage in which an exception is raised hands its input path on. *)
Lemma stage_pass_through (W : world) (image_path output_path : string) :
  (forall quad, raises (warp_body W image_path quad output_path) ->
     Warp.warp W image_path quad (Some output_path) = image_path) /\
  (forall degrees, raises (rotate_body W image_path degrees output_path) ->
     Warp.rotate_image W image_path degrees (Some output_path) = image_path) /\
  (raises (deskew_body W image_path output_path) ->
     Warp.deskew W image_path (Some output_path) = image_path) /\
  (forall f, raises (filter_render W f image_path output_path) ->
     Filters.apply_filter W image_path f (Some output_path) = image_path) /\
  (raises (sanitize_write W image_path output_path) ->
     ExifSanitize.sanitize_image W image_path (Some output_path) = image_path).
Proof.
  split; [|split; [|split; [|split]]].
  - intros quad. unfold Warp.warp, warp_body, default_output.
    destruct (OPENCV_AVAILABLE W).
    + destruct (Warp._warp_opencv W image_path quad output_path); [intros [] | reflexivity].
    + destruct (Warp._warp_pillow W image_path quad output_path); [intros [] | reflexivity].
  - intros degrees. unfold Warp.rotate_image, rotate_body, default_output.
    destruct (degrees mod 360 =? 0); [intros [] |].
    unfold mbind, exc_bind.
    destruct (pil_rotate_save W image_path (degrees mod 360) output_path);
      [intros [] | reflexivity].
  - unfold Warp.deskew, deskew_body, default_output.
    destruct (OPENCV_AVAILABLE W); [|intros []].
    destruct (Warp._deskew_opencv W image_path output_path); [intros [] | reflexivity].
  - intros f. unfold Filters.apply_filter, default_output, mbind, exc_bind.
    destruct (filter_render W f image_path output_path); [intros [] |].
    destruct f; reflexivity.
  - unfold ExifSanitize.sanitize_image, default_output, mbind, exc_bind.
    destruct (sanitize_write W image_path output_path); [intros [] | reflexivity].
Qed.

(** A write that [cv2.imwrite] fails without raising is not noticed: the
    stage hands on the path of the file that was not written. *)
Lemma stage_silent_failure (W : world) (image_path output_path : string) :
  (forall quad img size,
     OPENCV_AVAILABLE W = true ->
     cv2_imread W image_path = Some img ->
     Warp._calculate_output_size W quad = Ok size ->
     cv2_warp_write W img quad size output_path = Ok false ->
     Warp.warp W image_path quad (Some output_path) = output_path) /\
  (forall img lines,
     OPENCV_AVAILABLE W = true ->
     cv2_imread W image_path = Some img ->
     cv2_hough W img = Ok (Some lines) ->
     Warp.deskew_angles W lines <> [] ->
     Warp.skip_deskew (Warp.median (Warp.deskew_angles W lines)) = false ->
     cv2_rotate_write W img (Warp.median (Warp.deskew_angles W lines)) output_path
     = Ok false ->
     Warp.deskew W image_path (Some output_path) = output_path) /\
  (forall f,
     f <> ORIGINAL ->
     filter_render W f image_path output_path = Ok false ->
     Filters.apply_filter W image_path f (Some output_path) = output_path).
Proof.
  split; [|split].
  - intros quad img size Hcv Hread Hsize Hw.
    unfold Warp.warp, default_output, Warp._warp_opencv.
    rewrite Hcv, Hread, Hsize. unfold mbind, exc_bind. rewrite Hw. reflexivity.
  - intros img lines Hcv Hread Hlines Hne Hskip Hw.
    unfold Warp.deskew, default_output, Warp._deskew_opencv.
    rewrite Hcv, Hread, Hlines. unfold mbind, exc_bind.
    destruct lines as [|l lines]; [now destruct Hne|].
    destruct (Warp.deskew_angles W (l :: lines)) as [|a angles]; [now destruct Hne|].
    rewrite Hskip, Hw. reflexivity.
  - intros f Hf Hw. unfold Filters.apply_filter, default_output, mbind, exc_bind.
    rewrite Hw. destruct f; [now destruct Hf | reflexivity..].
Qed.

(** What [process_capture] returns, whatever its callees do. *)
Lemma process_capture_with_outcome (W : world) (S : stages)
    (self : ScannerPipeline) (c : capture) (rt : runtime) :
  let r := (process_capture_with W S self c rt).1 in
  match (process_capture_try W S self c (time_time W rt).2).1 with
  | Ok p => success r = true /\ output_path r = p /\ error_message r = ""
  | Raise e => success r = false /\ output_path r = "" /\ error_message r = e
  end.
Proof.
  unfold process_capture_with. simpl.
  destruct (process_capture_try W S self c _) as [[p|e] rt1]; simpl; auto.
Qed.

(** With the callees of this repository the [try] block ends normally, with
    the path returned by [sanitize_image]. *)
Lemma process_capture_try_ok (W : world) (self : ScannerPipeline) (c : capture)
    (rt : runtime) :
  exists current final rt',
    process_capture_try W (repo_stages W) self c rt =
    (Ok (ExifSanitize.sanitize_image W current (Some final)), rt').
Proof.
  unfold process_capture_try, bindM, report, timestamp, liftM, retM, repo_stages,
    time_time.
  destruct (progress_callback c), (truthy (quad_points c)), (rotation c =? 0),
    (is_original (filter_type c)); simpl; eauto.
Qed.

(** The stages are chained: each one receives the path returned by the
    one before it. *)
Lemma process_capture_try_chain (W : world) (self : ScannerPipeline) (c : capture)
    (rt : runtime) :
  exists (tw tr td tf tp : Z) (rt' : runtime),
    let warped :=
      match truthy (quad_points c) with
      | Some quad =>
          Warp.warp W (image_path c) quad (Some (stage_path self "warped_" tw))
      | None => image_path c
      end in
    let rotated :=
      if rotation c =? 0 then warped
      else Warp.rotate_image W warped (rotation c)
             (Some (stage_path self "rotated_" tr)) in
    let deskewed :=
      match truthy (quad_points c) with
      | Some _ => Warp.deskew W rotated (Some (stage_path self "deskewed_" td))
      | None => rotated
      end in
    let filtered :=
      if is_original (filter_type c) then deskewed
      else Filters.apply_filter W deskewed (filter_type c)
             (Some (stage_path self "filtered_" tf)) in
    process_capture_try W (repo_stages W) self c rt =
    (Ok (ExifSanitize.sanitize_image W filtered (Some (stage_path self "page_" tp))),
     rt').
Proof.
  unfold process_capture_try, bindM, report, timestamp, liftM, retM, repo_stages,
    time_time.
  destruct (progress_callback c), (truthy (quad_points c)), (rotation c =? 0),
    (is_original (filter_type c)); simpl;
    eexists _, _, _, _, _, _; reflexivity.
  Unshelve. all: exact 0.
Qed.




End ProcessCapture.

(** ** Cleanup of temporary files *)

Section Cleanup.
Import Pipeline.

Lemma cleanup_fold_elem (W : world) (self : ScannerPipeline) (keep : gset string)
    (names removed : list string) (p : string) :
  p ∈ foldl (cleanup_visit W self keep) removed names <->
  (p ∈ removed \/
   exists filename, filename ∈ names /\
     p = os_path_join (cache_path self) filename /\
     (p ∉ keep) /\ marked filename = true /\ os_remove W p = Ok tt).
Proof.
  revert removed. induction names as [|n names IH]; intros removed.
  - simpl. split; [auto|]. intros [H|(f & Hf & _)]; [exact H|].
    now apply elem_of_nil in Hf.
  - change (foldl (cleanup_visit W self keep) removed (n :: names))
      with (foldl (cleanup_visit W self keep)
                  (cleanup_visit W self keep removed n) names).
    rewrite IH. unfold cleanup_visit. fold (marked n).
    set (fp := os_path_join (cache_path self) n).
    split.
    + intros [H|(f & Hf & Hrest)].
      * destruct (decide (fp ∈ keep)) as [Hk|Hk]; [now left|].
        destruct (marked n) eqn:Hm; [|now left].
        destruct (os_remove W fp) as [[]|] eqn:Hrm; [|now left].
        apply elem_of_app in H as [H|H]; [now left|].
        apply list_elem_of_singleton in H. subst p.
        right. exists n. split; [apply list_elem_of_here | auto].
      * right. exists f. split; [now apply list_elem_of_further | exact Hrest].
    + intros [H|(f & Hf & Hp & Hk & Hm & Hrm)].
      * left. destruct (decide (fp ∈ keep)); [exact H|].
        destruct (marked n); [|exact H].
        destruct (os_remove W fp); [|exact H]. apply elem_of_app. now left.
      * apply elem_of_cons in Hf as [->|Hf].
        -- left. fold fp in Hp. subst p.
           destruct (decide (fp ∈ keep)); [contradiction|].
           rewrite Hm, Hrm. apply elem_of_app. right. apply list_elem_of_here.
        -- right. exists f. auto.
Qed.

(** What [cleanup_temp_files] deletes: the files of the cache directory
    whose name contains a marker and whose path is not to be kept. *)
Lemma cleanup_deletes (W : world) (self : ScannerPipeline)
    (keep_paths : list string) (p : string) :
  p ∈ cleanup_temp_files W self (Some keep_paths) <->
  exists names filename,
    os_listdir W (cache_path self) = Ok names /\ filename ∈ names /\
    p = os_path_join (cache_path self) filename /\
    (p ∉ keep_paths) /\ marked filename = true /\ os_remove W p = Ok tt.
Proof.
  unfold cleanup_temp_files, mbind, exc_bind.
  set (keep := match truthy (Some keep_paths) with
               | Some l => list_to_set l
               | None => ∅
               end).
  assert (Hkeep : forall q : string, q ∈ keep <-> q ∈ keep_paths).
  { intros q. subst keep. destruct keep_paths as [|k ks]; unfold truthy.
    - split; intros H; [now apply not_elem_of_empty in H | now apply elem_of_nil in H].
    - apply elem_of_list_to_set. }
  clearbody keep.
  destruct (os_listdir W (cache_path self)) as [names|]; unfold catch.
  - rewrite cleanup_fold_elem. split.
    + intros [H|(f & Hf & Hp & Hk & Hm & Hrm)]; [now apply elem_of_nil in H|].
      exists names, f. rewrite <- Hkeep. repeat split; auto.
    + intros (names' & f & [= <-] & Hf & Hp & Hk & Hm & Hrm).
      right. exists f. rewrite Hkeep. repeat split; auto.
  - split; [intros H; now apply elem_of_nil in H|].
    intros (names' & f & [=] & _).
Qed.

(** A path to keep is never deleted. *)
Lemma cleanup_keeps (W : world) (self : ScannerPipeline)
    (keep_paths : list string) (p : string) :
  p ∈ keep_paths -> p ∉ cleanup_temp_files W self (Some keep_paths).
Proof.
  intros Hp Hdel. apply cleanup_deletes in Hdel as (? & ? & _ & _ & _ & Hk & _).
  contradiction.
Qed.

(** C2 (the code at the failing input): in a cache directory holding the
    thumbnail [thumb_warped_1.jpg], the final page [page_1.jpg] and two
    intermediate files, [cleanup_temp_files] keeping [warped_3.jpg] deletes
    the thumbnail although its name starts with none of the five stage
    prefixes: the test is [prefix in filename], not
    [filename.startswith(prefix)]. *)
Theorem cleanup_deletes_unprefixed_name :
  let W := sample_world true white_square None true
             ["thumb_warped_1.jpg"; "page_1.jpg"; "warped_2.jpg"; "warped_3.jpg"] in
  has_temp_prefix "thumb_warped_1.jpg" = false /\
  marked "thumb_warped_1.jpg" = true /\
  cleanup_temp_files W (new_pipeline "/cache") (Some ["/cache/warped_3.jpg"]) =
  ["/cache/thumb_warped_1.jpg"; "/cache/warped_2.jpg"].
Proof. cbv zeta. repeat split. Qed.

End Cleanup.

(** ** One capture in flight *)

Section Busy.
Import Pipeline.

(** C8: called while [_is_processing] is set, [process_capture_async]
    reads no clock and starts no thread (nothing is run or queued), leaves
    every field of the pipeline as it was (the thread in flight and its
    captured arguments included) and schedules for the completion callback,
    if there is one, a result with [success = false] and error message
    "Already processing". *)
Theorem busy_call_rejected (self : ScannerPipeline) (c : capture)
    (completion_callback : option callback) (rt : runtime) :
  _is_processing self = true ->
  let self' := (process_capture_async self c completion_callback rt).1 in
  let rt' := (process_capture_async self c completion_callback rt).2 in
  self' = self /\
  started rt' = started rt /\
  ticks rt' = ticks rt /\
  exists r,
    success r = false /\ error_message r = "Already processing" /\
    clock_events rt' =
    clock_events rt ++ match completion_callback with
                       | Some cb => [Completed cb r]
                       | None => []
                       end.
Proof.
  intros Hbusy self' rt'. subst self' rt'.
  unfold process_capture_async. rewrite Hbusy.
  destruct completion_callback as [cb|]; simpl.
  - repeat split. exists already_processing. repeat split.
  - repeat split. exists already_processing. repeat split.
    now rewrite app_nil_r.
Qed.

Lemma busy_call_rejected_witness :
  let self := {| cache_path := "/cache"; _processing_thread := None;
                 _is_processing := true; _last_preview_time := 0 |} in
  let c := {| image_path := "/in/second.jpg"; quad_points := None;
              filter_type := GRAYSCALE; rotation := 90;
              progress_callback := None |} in
  let rt := {| ticks := 4; clock_events := []; started := [] |} in
  _is_processing self = true /\
  (process_capture_async self c (Some 1%nat) rt).1 = self /\
  started (process_capture_async self c (Some 1%nat) rt).2 = [].
Proof.
  cbv zeta. split; [reflexivity|].
  destruct (busy_call_rejected
              {| cache_path := "/cache"; _processing_thread := None;
                 _is_processing := true; _last_preview_time := 0 |}
              {| image_path := "/in/second.jpg"; quad_points := None;
                 filter_type := GRAYSCALE; rotation := 90;
                 progress_callback := None |}
              (Some 1%nat)
              {| ticks := 4; clock_events := []; started := [] |}
              eq_refl) as (Hself & Hstarted & _).
  split; [exact Hself | exact Hstarted].
Defined.

(** When idle, the call sets the flag and starts the worker. *)
Lemma idle_call_accepted (self : ScannerPipeline) (c : capture)
    (completion_callback : option callback) (rt : runtime) :
  _is_processing self = false ->
  let self' := (process_capture_async self c completion_callback rt).1 in
  let rt' := (process_capture_async self c completion_callback rt).2 in
  _is_processing self' = true /\
  started rt' = started rt ++ [ProcessJob c completion_callback] /\
  clock_events rt' = clock_events rt.
Proof.
  intros Hidle self' rt'. subst self' rt'.
  unfold process_capture_async. rewrite Hidle. simpl. auto.
Qed.

End Busy.

(** ** Preview throttling *)

Section Throttle.
Import Pipeline.

Lemma preview_step (W : world) (self : ScannerPipeline) (image_bytes : list byte)
    (width height : Z) (cb : callback) (rt : runtime) :
  let now := time_at W (ticks rt) in
  let out := detect_document_preview W self image_bytes width height cb rt in
  ((now - _last_preview_time self < PREVIEW_FRAME_INTERVAL)%Q ->
   out = (false, self, (time_time W rt).2)) /\
  ((PREVIEW_FRAME_INTERVAL <= now - _last_preview_time self)%Q ->
   out.1.1 = true /\ _last_preview_time out.1.2 = now /\
   started out.2 = started rt ++ [DetectJob image_bytes width height cb]).
Proof.
  cbv zeta. unfold detect_document_preview. simpl.
  split; intros H.
  - apply Qltb_true in H. now rewrite H.
  - apply Qltb_false in H. rewrite H. simpl. auto.
Qed.

(** Every call that runs reads a time at least 0.2 s after the last
    accepted one. *)
Lemma accepted_after_last (W : world) (calls : list preview_call)
    (self : ScannerPipeline) (rt : runtime) (j : nat) (tj : Q) :
  run_previews W self rt calls !! j = Some (tj, true) ->
  (PREVIEW_FRAME_INTERVAL <= tj - _last_preview_time self)%Q.
Proof.
  revert self rt j. induction calls as [|c calls IH]; intros self rt j Hj.
  - destruct j; discriminate.
  - simpl in Hj. unfold detect_document_preview in Hj. simpl in Hj.
    set (now := time_at W (skip c + ticks rt)) in *.
    destruct (Qltb (now - _last_preview_time self) PREVIEW_FRAME_INTERVAL) eqn:Hthr.
    + destruct j as [|j]; [discriminate|]. simpl in Hj. exact (IH _ _ _ Hj).
    + apply Qltb_false in Hthr. destruct j as [|j].
      * simpl in Hj. injection Hj as <-. exact Hthr.
      * simpl in Hj. apply IH in Hj. simpl in Hj.
        unfold PREVIEW_FRAME_INTERVAL in *. lra.
Qed.

(** C9: a preview call that reads the clock less than 0.2 s after the last
    accepted call returns [False], starts no thread and changes no field;
    hence in every run of calls any two that were accepted read times at
    least 0.2 s apart. *)
Theorem preview_throttled (W : world) (self : ScannerPipeline) (rt : runtime) :
  (forall image_bytes width height cb,
     (time_at W (ticks rt) - _last_preview_time self < 2 # 10)%Q ->
     let out := detect_document_preview W self image_bytes width height cb rt in
     out.1.1 = false /\ out.1.2 = self /\ started out.2 = started rt /\
     clock_events out.2 = clock_events rt) /\
  (forall calls i j ti tj,
     (i < j)%nat ->
     run_previews W self rt calls !! i = Some (ti, true) ->
     run_previews W self rt calls !! j = Some (tj, true) ->
     (2 # 10 <= tj - ti)%Q).
Proof.
  split.
  - intros image_bytes width height cb Hsoon. cbv zeta.
    rewrite (proj1 (preview_step W self image_bytes width height cb rt) Hsoon).
    simpl. auto.
  - intros calls. revert self rt.
    induction calls as [|c calls IH]; intros self rt i j ti tj Hij Hi Hj.
    + destruct i; discriminate.
    + destruct j as [|j]; [lia|].
      simpl in Hi, Hj. unfold detect_document_preview in Hi, Hj. simpl in Hi, Hj.
      set (now := time_at W (skip c + ticks rt)) in *.
      destruct (Qltb (now - _last_preview_time self) PREVIEW_FRAME_INTERVAL) eqn:Hthr.
      * destruct i as [|i]; [discriminate|]. simpl in Hi, Hj.
        eapply (IH _ _ i j); [lia | exact Hi | exact Hj].
      * destruct i as [|i].
        -- simpl in Hi, Hj. injection Hi as <-.
           apply accepted_after_last in Hj. exact Hj.
        -- simpl in Hi, Hj. eapply (IH _ _ i j); [lia | exact Hi | exact Hj].
Qed.

(** An instance: the clock reads 0, 0.15, 0.30, 0.45, 0.60; the calls at
    0.30 and 0.60 run, the others are dropped. *)
Lemma preview_throttled_witness :
  let W := sample_world true white_square None true [] in
  let rt := {| ticks := 0; clock_events := []; started := [] |} in
  let call := {| skip := 0; pc_bytes := []; pc_width := 0; pc_height := 0;
                 pc_callback := 0%nat |} in
  map snd (run_previews W (new_pipeline "/cache") rt [call; call; call; call; call]) =
    [false; false; true; false; true] /\
  (2 # 10 <= time_at W 4 - time_at W 2)%Q.
Proof.
  cbv zeta. split; [reflexivity|].
  apply (proj2 (preview_throttled
                  (sample_world true white_square None true [])
                  (new_pipeline "/cache")
                  {| ticks := 0; clock_events := []; started := [] |})
               (repeat {| skip := 0; pc_bytes := []; pc_width := 0; pc_height := 0;
                          pc_callback := 0%nat |} 5)
               2%nat 4%nat); [lia | reflexivity | reflexivity].
Defined.

End Throttle.

(** * Further properties *)

(** ** The fallback quad *)

Section FallbackQuad.
Import QuadDetect.

(** X1: the full-frame quad offered for manual cropping is already in the
    order [_order_points] produces, whenever the margin is non-negative and
    smaller than half of each dimension (and the frame is below 2^23
    pixels wide and high, where float32 is exact). *)
Theorem full_frame_quad_ordered (width height margin : Z) :
  0 <= margin -> 2 * margin < width -> 2 * margin < height ->
  width < 2 ^ 23 -> height < 2 ^ 23 ->
  _order_points (get_full_frame_quad width height margin) =
  Ok (get_full_frame_quad width height margin).
Proof.
  intros Hm Hw Hh Hwb Hhb. unfold _order_points, get_full_frame_quad.
  assert (Hex : Forall f32_exact
                  [ (margin, margin); (width - margin, margin);
                    (width - margin, height - margin); (margin, height - margin) ]).
  { repeat constructor; simpl; lia. }
  destruct (map_f32_exact _ Hex) as (E1 & E2 & E3).
  rewrite E1, E2, E3. unfold psum, pdiff, argmin, argmax. simpl.
  repeat match goal with
         | |- context [Z.ltb ?a ?b] => destruct (Z.ltb_spec a b); try lia
         end;
    reflexivity.
Qed.

Lemma full_frame_quad_ordered_witness :
  _order_points (Pipeline.get_fallback_quad (Pipeline.new_pipeline "/cache") 1080 1920) =
  Ok [(20, 20); (1060, 20); (1060, 1900); (20, 1900)].
Proof.
  apply (full_frame_quad_ordered 1080 1920 20); lia.
Defined.

End FallbackQuad.

(** ** Output size, continued *)

Section OutputSizeMore.
Import Warp.

(** X2: an axis-aligned rectangle of [w] x [h] pixels, at pixel positions
    (coordinates below 2^23 in absolute value, where the float power is
    faithful), is warped to [max w 100] x [max h 100]; in particular the
    fallback quad of a [width] x [height] frame with margin [m] gives
    [max (width - 2m) 100] x [max (height - 2m) 100]. *)
Theorem rectangle_output_size (W : world) (x y w h : Z) :
  root_faithful W ->
  0 <= w -> 0 <= h ->
  pixel_point (x, y) -> pixel_point (x + w, y + h) ->
  _calculate_output_size W [(x, y); (x + w, y); (x + w, y + h); (x, y + h)] =
  Ok (Z.max w 100, Z.max h 100).
Proof.
  intros Hf Hw Hh [Hx Hy] [Hxw Hyh]. simpl in Hx, Hy, Hxw, Hyh.
  rewrite (output_size_faithful W _ _ _ _ Hf);
    [| split; simpl; lia..].
  unfold sqdist. simpl.
  assert (Ew : Z.max ((x + w - x) * (x + w - x) + (y - y) * (y - y))
                     ((x + w - x) * (x + w - x) + (y + h - (y + h)) * (y + h - (y + h)))
               = w * w).
  { rewrite Z.max_l; [ring | apply Z.eq_le_incl; ring]. }
  assert (Eh : Z.max ((x - x) * (x - x) + (y + h - y) * (y + h - y))
                     ((x + w - (x + w)) * (x + w - (x + w)) + (y + h - y) * (y + h - y))
               = h * h).
  { rewrite Z.max_l; [ring | apply Z.eq_le_incl; ring]. }
  rewrite Ew, Eh, !Z.sqrt_square by lia. reflexivity.
Qed.

Lemma rectangle_output_size_witness :
  _calculate_output_size (sample_world true white_square None true [])
    (QuadDetect.get_full_frame_quad 1080 1920 20) =
  Ok (1040, 1880).
Proof.
  apply (rectangle_output_size (sample_world true white_square None true [])
           20 20 1040 1880 (sample_root_faithful _ _ _ _ _));
    try lia; split; simpl; lia.
Defined.

(** X3: [_calculate_output_size] returns a size only for quads of four
    points, and a size it returns is never below 100 in either dimension;
    for four pixel positions (coordinates below 2^23 in absolute value,
    where the float power is faithful) it does return one.  With any other
    number of points it raises, and [warp] returns the path of its input,
    on both backends. *)
Theorem warp_quad_arity (W : world) (image_path output_path : string)
    (quad_points : list point) :
  (forall width height,
     _calculate_output_size W quad_points = Ok (width, height) ->
     length quad_points = 4%nat /\ 100 <= width /\ 100 <= height) /\
  (length quad_points = 4%nat ->
   root_faithful W -> Forall pixel_point quad_points ->
   exists width height,
     _calculate_output_size W quad_points = Ok (width, height)) /\
  (length quad_points <> 4%nat ->
   raises (_calculate_output_size W quad_points) /\
   warp W image_path quad_points (Some output_path) = image_path).
Proof.
  split; [|split].
  - intros width height.
    destruct quad_points as [|tl [|tr [|br [|bl [|? ?]]]]]; try discriminate.
    unfold _calculate_output_size, mbind, exc_bind.
    destruct (_distance W tl tr); [|discriminate].
    destruct (_distance W bl br); [|discriminate].
    destruct (_distance W tl bl); [|discriminate].
    destruct (_distance W tr br); [|discriminate].
    intros [= <- <-]. split; [reflexivity|]. lia.
  - intros Hlen Hf Hpix.
    destruct quad_points as [|tl [|tr [|br [|bl [|? ?]]]]]; try discriminate.
    apply Forall_cons in Hpix as [Htl Hpix].
    apply Forall_cons in Hpix as [Htr Hpix].
    apply Forall_cons in Hpix as [Hbr Hpix].
    apply Forall_cons in Hpix as [Hbl _].
    eexists _, _. apply output_size_faithful; assumption.
  - intros Hlen.
    assert (Hr : raises (_calculate_output_size W quad_points)).
    { destruct quad_points as [|tl [|tr [|br [|bl [|? ?]]]]]; simpl; auto;
        now destruct Hlen. }
    split; [exact Hr|].
    unfold warp, default_output, _warp_opencv, _warp_pillow, mbind, exc_bind.
    destruct (_calculate_output_size W quad_points); [destruct Hr|].
    destruct (OPENCV_AVAILABLE W).
    + destruct (cv2_imread W image_path); reflexivity.
    + destruct (pil_open W image_path); reflexivity.
Qed.

End OutputSizeMore.

(** ** Quad selection with OpenCV *)

Section BestQuad.
Import QuadDetect.

Lemma best_quad_step_cases (lo hi : Q) (b0 : option (list point)) (a0 : Q)
    (c : contour) :
  (qualifies lo hi c /\ (a0 < c_area c)%Q /\
   best_quad_step lo hi (b0, a0) c = (Some (c_approx c), c_area c)) \/
  ((qualifies lo hi c -> (c_area c <= a0)%Q) /\
   best_quad_step lo hi (b0, a0) c = (b0, a0)).
Proof.
  unfold best_quad_step, qualifies. simpl.
  destruct (Qltb (c_area c) lo) eqn:E1; simpl.
  { right. split; [|reflexivity]. apply Qltb_true in E1. intros (H & _). lra. }
  destruct (Qltb hi (c_area c)) eqn:E2; simpl.
  { right. split; [|reflexivity]. apply Qltb_true in E2. intros (_ & H & _). lra. }
  apply Qltb_false in E1, E2.
  destruct (Nat.eqb_spec (length (c_approx c)) 4) as [E3|E3].
  2:{ right. split; [|reflexivity]. intros (_ & _ & H & _). contradiction. }
  destruct (Qltb a0 (c_area c)) eqn:E4.
  2:{ right. split; [|reflexivity]. apply Qltb_false in E4. auto. }
  apply Qltb_true in E4.
  destruct (c_convex c) eqn:E5.
  - left. auto.
  - right. split; [|reflexivity]. intros (_ & _ & _ & H). discriminate.
Qed.

Lemma best_quad_fold (lo hi : Q) (cs : list contour) (b0 : option (list point))
    (a0 : Q) :
  (foldl (best_quad_step lo hi) (b0, a0) cs = (b0, a0) /\
   forall c, c ∈ cs -> qualifies lo hi c -> (c_area c <= a0)%Q) \/
  (exists pre c post,
     cs = pre ++ c :: post /\ qualifies lo hi c /\ (a0 < c_area c)%Q /\
     foldl (best_quad_step lo hi) (b0, a0) cs = (Some (c_approx c), c_area c) /\
     (forall c', c' ∈ pre -> qualifies lo hi c' -> (c_area c' < c_area c)%Q) /\
     (forall c', c' ∈ post -> qualifies lo hi c' -> (c_area c' <= c_area c)%Q)).
Proof.
  revert b0 a0. induction cs as [|c1 cs IH]; intros b0 a0.
  { left. split; [reflexivity|]. intros c Hc. now apply elem_of_nil in Hc. }
  change (foldl (best_quad_step lo hi) (b0, a0) (c1 :: cs))
    with (foldl (best_quad_step lo hi) (best_quad_step lo hi (b0, a0) c1) cs).
  destruct (best_quad_step_cases lo hi b0 a0 c1) as [(Hq & Hlt & ->)|(Hle & ->)].
  - right. destruct (IH (Some (c_approx c1)) (c_area c1))
      as [(Hfold & Hrest)|(pre & c & post & -> & Hqc & Hltc & Hfold & Hpre & Hpost)].
    + exists [], c1, cs.
      split; [reflexivity|]. split; [exact Hq|]. split; [exact Hlt|].
      split; [exact Hfold|].
      split; [intros c' Hc'; now apply elem_of_nil in Hc' | exact Hrest].
    + exists (c1 :: pre), c, post.
      split; [reflexivity|]. split; [exact Hqc|]. split; [lra|].
      split; [exact Hfold|]. split; [|exact Hpost].
      intros c' Hc' Hq'. apply elem_of_cons in Hc' as [->|Hc']; auto.
  - destruct (IH b0 a0)
      as [(Hfold & Hrest)|(pre & c & post & -> & Hqc & Hltc & Hfold & Hpre & Hpost)].
    + left. split; [exact Hfold|].
      intros c Hc Hq. apply elem_of_cons in Hc as [->|Hc]; auto.
    + right. exists (c1 :: pre), c, post.
      split; [reflexivity|]. split; [exact Hqc|]. split; [exact Hltc|].
      split; [exact Hfold|]. split; [|exact Hpost].
      intros c' Hc' Hq'. apply elem_of_cons in Hc' as [->|Hc']; auto.
      specialize (Hle Hq'). lra.
Qed.

(** X4: the loop of [_process_opencv] returns the first contour of
    largest area among those that qualify (area within the bounds, four
    vertices, convex) and have positive area; it returns no quad exactly
    when no contour qualifies with positive area. *)
Theorem best_quad_is_first_largest (lo hi : Q) (cs : list contour) :
  let r := foldl (best_quad_step lo hi) (None, 0%Q) cs in
  (r.1 = None ->
   forall c, c ∈ cs -> qualifies lo hi c -> (c_area c <= 0)%Q) /\
  (forall quad, r.1 = Some quad ->
   exists pre c post,
     cs = pre ++ c :: post /\ qualifies lo hi c /\ (0 < c_area c)%Q /\
     quad = c_approx c /\ r.2 = c_area c /\
     (forall c', c' ∈ pre -> qualifies lo hi c' -> (c_area c' < c_area c)%Q) /\
     (forall c', c' ∈ post -> qualifies lo hi c' -> (c_area c' <= c_area c)%Q)).
Proof.
  intros r. subst r.
  destruct (best_quad_fold lo hi cs None 0%Q)
    as [(-> & Hrest)|(pre & c & post & Hcs & Hq & Hlt & -> & Hpre & Hpost)]; simpl.
  - split; [auto | discriminate].
  - split; [discriminate|]. intros quad [= <-].
    exists pre, c, post.
    split; [exact Hcs|]. split; [exact Hq|]. split; [exact Hlt|].
    split; [reflexivity|]. split; [reflexivity|]. split; [exact Hpre | exact Hpost].
Qed.

Lemma order_points_length (P Q : list point) :
  _order_points P = Ok Q -> length Q = 4%nat.
Proof.
  unfold _order_points, mbind, exc_bind.
  repeat match goal with
         | |- context [match ?m with Ok _ => _ | Raise _ => _ end] =>
             destruct m; try discriminate
         end.
  now intros [= <-].
Qed.

Lemma process_opencv_sound (W : world) (img : frame) (r : QuadResult) :
  _process_opencv W img = Ok r -> sound_result r.
Proof.
  unfold _process_opencv, mbind, exc_bind.
  set (sc := if DOWNSCALE_WIDTH <? f_width img then _ else _).
  destruct sc as [[scale img']|]; [|discriminate].
  destruct (cv2_contours W img') as [cs|]; [|discriminate].
  set (fa := f_width img' * f_height img').
  destruct (best_quad_fold (inject_Z fa * MIN_AREA_RATIO) (inject_Z fa * MAX_AREA_RATIO)
                           cs None 0%Q)
    as [(-> & _)|(pre & c & post & _ & Hq & Hlt & -> & _)].
  - intros [= <-]. intros H. discriminate.
  - destruct (_order_points _) as [pts|] eqn:Hord; [|discriminate].
    intros [= <-] _. unfold is_valid. simpl.
    rewrite (order_points_length _ _ Hord). split; [reflexivity|].
    destruct Hq as (Hlo & Hhi & _). unfold MIN_AREA_RATIO, MAX_AREA_RATIO in *.
    assert (Hfa : (0 < inject_Z fa)%Q) by lra.
    split.
    + apply Qle_shift_div_l; [exact Hfa | lra].
    + apply Qle_shift_div_r; [exact Hfa | lra].
Qed.

Lemma process_pillow_sound (W : world) (img : frame) (r : QuadResult) :
  _process_pillow W img = Ok r -> sound_result r.
Proof.
  unfold _process_pillow, mbind, exc_bind.
  destruct (pillow_edges W img) as [[scale E]|]; [|discriminate].
  destruct (_find_content_bbox E) as [[[[[x1 y1] x2] y2]|]|]; try discriminate.
  - intros [= <-] _. unfold is_valid. simpl. repeat split; discriminate.
  - intros [= <-] H. discriminate.
Qed.

Lemma not_detected_sound : sound_result QuadResult_not_detected.
Proof. intros H. discriminate. Qed.

(** X5: whatever the libraries do, a result of [detect] or
    [detect_from_bytes] that reports a document is valid (it carries
    exactly four points) and its confidence lies between 0.1 and 0.95. *)
Theorem detection_results_sound (W : world) (image_path : string)
    (image_bytes : list byte) (width height : Z) :
  sound_result (detect W image_path) /\
  sound_result (detect_from_bytes W image_bytes width height).
Proof.
  split.
  - unfold detect. destruct (OPENCV_AVAILABLE W).
    + unfold _detect_opencv. destruct (cv2_imread W image_path) as [img|].
      * destruct (_process_opencv W img) as [r|] eqn:Hr; simpl;
          [eapply process_opencv_sound; eauto | apply not_detected_sound].
      * apply not_detected_sound.
    + unfold _detect_pillow, mbind, exc_bind. simpl.
      destruct (pil_open W image_path) as [img|]; simpl; [|apply not_detected_sound].
      destruct (_process_pillow W img) as [r|] eqn:Hr; simpl;
        [eapply process_pillow_sound; eauto | apply not_detected_sound].
  - unfold detect_from_bytes. destruct (OPENCV_AVAILABLE W).
    + rewrite detect_opencv_bytes_decode.
      destruct (decode_raw W image_bytes width height) as [[img|]|]; simpl;
        try apply not_detected_sound.
      destruct (_process_opencv W img) as [r|] eqn:Hr; simpl;
        [eapply process_opencv_sound; eauto | apply not_detected_sound].
    + unfold _detect_pillow_bytes, mbind, exc_bind. simpl.
      destruct (pil_open_bytes W image_bytes) as [img|]; simpl;
        [|apply not_detected_sound].
      destruct (_process_pillow W img) as [r|] eqn:Hr; simpl;
        [eapply process_pillow_sound; eauto | apply not_detected_sound].
Qed.

(** X6: the box that [_find_content_bbox] returns for a well-formed edge
    image lies inside the frame and contains every edge pixel. *)
Theorem content_bbox_in_frame (E : frame) (x1 y1 x2 y2 : Z) :
  well_formed E ->
  _find_content_bbox E = Ok (Some (x1, y1, x2, y2)) ->
  0 <= x1 <= x2 /\ x2 < f_width E /\ 0 <= y1 <= y2 /\ y2 < f_height E /\
  forall x y, edge_at E x y -> x1 <= x <= x2 /\ y1 <= y <= y2.
Proof.
  intros Hwf Hbox.
  destruct (find_content_bbox_spec E Hwf) as (res & Hres & _ & Hfound).
  rewrite Hbox in Hres. injection Hres as <-.
  destruct (Hfound _ eq_refl) as ([[[bx1 by1] bx2] by2] & Htight & Hm).
  unfold margin_box in Hm. injection Hm as -> -> -> ->.
  destruct Htight as (Hin & [ya Ha] & [yb Hb] & [xc Hc] & [xd Hd]).
  pose proof (Hin _ _ Ha). pose proof (Hin _ _ Hb).
  pose proof (Hin _ _ Hc). pose proof (Hin _ _ Hd).
  destruct Ha as (? & ? & _), Hb as (? & ? & _), Hc as (? & ? & _), Hd as (? & ? & _).
  split; [lia|]. split; [lia|]. split; [lia|]. split; [lia|].
  intros x y Hxy. specialize (Hin _ _ Hxy). lia.
Qed.

Lemma content_bbox_in_frame_witness :
  let E := point_threshold white_square in
  well_formed E /\
  _find_content_bbox E = Ok (Some (0, 0, 19, 19)) /\
  forall x y, edge_at E x y -> 0 <= x <= 19 /\ 0 <= y <= 19.
Proof.
  cbv zeta.
  assert (Hwf : well_formed (point_threshold white_square)).
  { unfold well_formed. simpl. lia. }
  split; [exact Hwf|]. split; [reflexivity|].
  apply (content_bbox_in_frame (point_threshold white_square) 0 0 19 19 Hwf eq_refl).
Defined.

End BestQuad.

(** ** Brightness of a uniform image *)

Section UniformBrightness.
Import QuadDetect.

Lemma sample_uniform (gray : frame) (b : byte) (x y : Z) :
  well_formed gray -> Forall (fun v => v = b) (f_data gray) ->
  0 <= x < f_width gray -> 0 <= y < f_height gray ->
  sample gray x y = b.
Proof.
  intros (Hw & Hh & Hlen) Hall Hx Hy. unfold sample.
  destruct (Z.leb_spec 0 x); [|lia]. destruct (Z.ltb_spec x (f_width gray)); [|lia].
  destruct (Z.leb_spec 0 y); [|lia]. destruct (Z.ltb_spec y (f_height gray)); [|lia].
  simpl. rewrite Forall_forall in Hall. apply Hall.
  apply list_elem_of_In, nth_In. nia.
Qed.

Lemma crop_data_elem (img : frame) (left upper right lower : Z) (v : byte) :
  v ∈ crop_data img left upper right lower <->
  exists x y, left <= x < right /\ upper <= y < lower /\ v = sample img x y.
Proof.
  unfold crop_data. rewrite list_elem_of_bind. split.
  - intros (y & Hv & Hy). apply list_elem_of_bind in Hv as (x & Hv & Hx).
    apply list_elem_of_singleton in Hv.
    apply elem_of_seqZ in Hx, Hy. exists x, y. repeat split; auto; lia.
  - intros (x & y & Hx & Hy & ->). exists y. split.
    + apply list_elem_of_bind. exists x. split; [apply list_elem_of_here|].
      apply elem_of_seqZ. lia.
    + apply elem_of_seqZ. lia.
Qed.

Lemma sum_samples_uniform (pixels : list byte) (b : byte) :
  Forall (fun v => v = b) pixels ->
  sum_samples pixels = Z.of_N (Byte.to_N b) * Z.of_nat (length pixels).
Proof.
  induction 1 as [|v pixels -> _ IH]; simpl; [lia|]. rewrite IH. lia.
Qed.

(** X7: on a grayscale image of at least 2 x 2 pixels whose samples all
    have the same value, the brightness estimate is that value. *)
Theorem uniform_brightness (W : world) (image_path : string) (img gray : frame)
    (b : byte) :
  pil_open W image_path = Ok img ->
  pil_convert_L W img = Ok gray ->
  well_formed gray ->
  Forall (fun v => v = b) (f_data gray) ->
  2 <= f_width gray -> 2 <= f_height gray ->
  (estimate_brightness W image_path == inject_Z (Z.of_N (Byte.to_N b)))%Q.
Proof.
  intros Hopen Hgray Hwf Hall Hw Hh.
  unfold estimate_brightness, mbind, exc_bind. rewrite Hopen, Hgray. simpl.
  set (cx := f_width gray / 2). set (cy := f_height gray / 2).
  set (s := Z.min (Z.min 200 cx) cy).
  assert (Hcx : 1 <= cx /\ 2 * cx <= f_width gray).
  { unfold cx. split; [apply Z.div_le_lower_bound; lia|].
    apply Z.mul_div_le. lia. }
  assert (Hcy : 1 <= cy /\ 2 * cy <= f_height gray).
  { unfold cy. split; [apply Z.div_le_lower_bound; lia|].
    apply Z.mul_div_le. lia. }
  assert (Hs : 1 <= s /\ s <= cx /\ s <= cy) by (unfold s; lia).
  set (pixels := crop_data gray (cx - s) (cy - s) (cx + s) (cy + s)).
  assert (Huniform : Forall (fun v => v = b) pixels).
  { apply Forall_forall. intros v Hv.
    apply crop_data_elem in Hv as (x & y & Hx & Hy & ->).
    apply sample_uniform; auto; lia. }
  assert (Hne : b ∈ pixels).
  { apply crop_data_elem. exists (cx - s), (cy - s).
    split; [lia|]. split; [lia|]. symmetry. apply sample_uniform; auto; lia. }
  destruct pixels as [|p pixels'] eqn:Hp; [now apply elem_of_nil in Hne|].
  rewrite (sum_samples_uniform _ b Huniform), inject_Z_mult.
  apply Qdiv_mult_l. change 0%Q with (inject_Z 0).
  rewrite inject_Z_injective. simpl. lia.
Qed.

Lemma uniform_brightness_witness :
  let W := sample_world false white_square None true [] in
  (estimate_brightness W "page.jpg" == 255)%Q.
Proof.
  cbv zeta.
  apply (uniform_brightness (sample_world false white_square None true [])
           "page.jpg" white_square white_square xff eq_refl eq_refl).
  - unfold well_formed. simpl. lia.
  - apply Forall_forall. intros v Hv.
    change (f_data white_square) with (repeat xff 400) in Hv.
    apply list_elem_of_In, repeat_spec in Hv. exact Hv.
  - simpl. lia.
  - simpl. lia.
Defined.

End UniformBrightness.

(** ** Rotation *)

Section Rotation.
Import Warp.

(** X8: [rotate_image] depends on the angle only modulo 360 (so -90 acts as
    270), and an angle that is a multiple of 360 returns the input path
    whatever Pillow would do. *)
Theorem rotation_mod_360 (W : world) (image_path : string) (degrees k : Z)
    (output_path : option string) :
  rotate_image W image_path (degrees + 360 * k) output_path =
  rotate_image W image_path degrees output_path /\
  rotate_image W image_path (360 * k) output_path = image_path.
Proof.
  unfold rotate_image.
  replace ((degrees + 360 * k) mod 360) with (degrees mod 360)
    by (rewrite (Z.mul_comm 360 k), Z_mod_plus_full; reflexivity).
  replace ((360 * k) mod 360) with 0
    by (rewrite (Z.mul_comm 360 k), Z_mod_mult; reflexivity).
  split; reflexivity.
Qed.

End Rotation.

(** ** Paths and progress of a capture *)

Section CapturePaths.
Import Pipeline.

(** Each stage returns the path it was given or the path it was asked to
    write. *)
Lemma warp_in_or_out (W : world) (p o : string) (quad : list point) :
  Warp.warp W p quad (Some o) = p \/ Warp.warp W p quad (Some o) = o.
Proof.
  unfold Warp.warp, default_output, Warp._warp_opencv, Warp._warp_pillow, mbind, exc_bind.
  destruct (OPENCV_AVAILABLE W).
  - destruct (cv2_imread W p) as [img|]; [|now left].
    destruct (Warp._calculate_output_size W quad) as [size|]; [|now left].
    destruct (cv2_warp_write W img quad size o); [now right | now left].
  - destruct (pil_open W p) as [img|]; [|now left].
    destruct (Warp._calculate_output_size W quad) as [size|]; [|now left].
    destruct (pil_transform_save W img size quad o); [now right | now left].
Qed.

Lemma rotate_in_or_out (W : world) (p o : string) (degrees : Z) :
  Warp.rotate_image W p degrees (Some o) = p \/
  Warp.rotate_image W p degrees (Some o) = o.
Proof.
  unfold Warp.rotate_image, default_output, mbind, exc_bind.
  destruct (degrees mod 360 =? 0); [now left|].
  destruct (pil_rotate_save W p (degrees mod 360) o); [now right | now left].
Qed.

Lemma deskew_in_or_out (W : world) (p o : string) :
  Warp.deskew W p (Some o) = p \/ Warp.deskew W p (Some o) = o.
Proof.
  unfold Warp.deskew, default_output, Warp._deskew_opencv, mbind, exc_bind.
  destruct (OPENCV_AVAILABLE W); [|now left].
  destruct (cv2_imread W p) as [img|]; [|now left].
  destruct (cv2_hough W img) as [[[|l lines]|]|]; try now left.
  destruct (Warp.deskew_angles W (l :: lines)); [now left|].
  destruct (Warp.skip_deskew _); [now left|].
  destruct (cv2_rotate_write W img _ o); [now right | now left].
Qed.

Lemma filter_in_or_out (W : world) (p o : string) (f : FilterType) :
  Filters.apply_filter W p f (Some o) = p \/ Filters.apply_filter W p f (Some o) = o.
Proof.
  unfold Filters.apply_filter, default_output, mbind, exc_bind.
  destruct f; [now left | | |];
    (destruct (filter_render W _ p o); [now right | now left]).
Qed.

Lemma sanitize_in_or_out (W : world) (p o : string) :
  ExifSanitize.sanitize_image W p (Some o) = p \/
  ExifSanitize.sanitize_image W p (Some o) = o.
Proof.
  unfold ExifSanitize.sanitize_image, default_output, mbind, exc_bind.
  destruct (sanitize_write W p o); [now right | now left].
Qed.

Lemma capture_path_stage (self : ScannerPipeline) (c : capture) (stem : string)
    (ts : Z) :
  stem ∈ stage_stems -> capture_path self c (stage_path self stem ts).
Proof. intros H. right. eauto. Qed.

Lemma capture_path_step (self : ScannerPipeline) (c : capture) (p o r : string)
    (stem : string) (ts : Z) :
  capture_path self c p -> stem ∈ stage_stems -> o = stage_path self stem ts ->
  r = p \/ r = o -> capture_path self c r.
Proof.
  intros Hp Hstem -> [->| ->]; [exact Hp | now apply capture_path_stage].
Qed.

(** X9: the output path of [process_capture] is the path of the image it
    was given or a file of the cache directory named warped_, rotated_,
    deskewed_, filtered_ or page_ followed by a timestamp and ".jpg"; no
    other path is ever returned. *)
Theorem output_path_is_input_or_stage_file (W : world) (self : ScannerPipeline)
    (c : capture) (rt : runtime) :
  let r := (process_capture W self c rt).1 in
  success r = true /\
  (output_path r = image_path c \/
   exists stem ts, stem ∈ stage_stems /\ output_path r = stage_path self stem ts).
Proof.
  assert (Hstems : forall stem, In stem stage_stems -> stem ∈ stage_stems).
  { intros stem H. now apply list_elem_of_In. }
  assert (H0 : capture_path self c (image_path c)) by now left.
  cbv zeta.
  unfold process_capture, process_capture_with, process_capture_try, bindM, report,
    timestamp, liftM, retM, repo_stages, time_time.
  destruct (progress_callback c), (truthy (quad_points c)), (rotation c =? 0),
    (is_original (filter_type c)); simpl; (split; [reflexivity|]);
    match goal with |- ?x = _ \/ _ => change (capture_path self c x) end;
    repeat match goal with
      | |- capture_path _ _ (ExifSanitize.sanitize_image W ?p (Some ?o)) =>
          eapply (capture_path_step self c p o _ "page_" _);
            [ | apply Hstems; simpl; tauto | reflexivity | apply sanitize_in_or_out ]
      | |- capture_path _ _ (Filters.apply_filter W ?p _ (Some ?o)) =>
          eapply (capture_path_step self c p o _ "filtered_" _);
            [ | apply Hstems; simpl; tauto | reflexivity | apply filter_in_or_out ]
      | |- capture_path _ _ (Warp.deskew W ?p (Some ?o)) =>
          eapply (capture_path_step self c p o _ "deskewed_" _);
            [ | apply Hstems; simpl; tauto | reflexivity | apply deskew_in_or_out ]
      | |- capture_path _ _ (Warp.rotate_image W ?p _ (Some ?o)) =>
          eapply (capture_path_step self c p o _ "rotated_" _);
            [ | apply Hstems; simpl; tauto | reflexivity | apply rotate_in_or_out ]
      | |- capture_path _ _ (Warp.warp W ?p _ (Some ?o)) =>
          eapply (capture_path_step self c p o _ "warped_" _);
            [ | apply Hstems; simpl; tauto | reflexivity | apply warp_in_or_out ]
      end;
    exact H0.
Qed.

End CapturePaths.

(** ** Progress reports and the worker *)

Section Progress.
Import Pipeline.

Lemma process_capture_runtime (W : world) (self : ScannerPipeline) (c : capture)
    (rt : runtime) :
  clock_events (process_capture W self c rt).2 =
    clock_events rt ++
    match progress_callback c with
    | Some cb => map (Progress cb) (progress_messages c)
    | None => []
    end /\
  started (process_capture W self c rt).2 = started rt.
Proof.
  unfold process_capture, process_capture_with, process_capture_try, bindM, report,
    timestamp, liftM, retM, repo_stages, time_time, schedule_once, progress_messages.
  destruct (progress_callback c), (truthy (quad_points c)), (rotation c =? 0),
    (is_original (filter_type c)); simpl;
    rewrite <- ?app_assoc, ?app_nil_r; split; reflexivity.
Qed.

(** X10: [process_capture] starts no thread and schedules, for the progress
    callback if there is one, exactly the messages of the stages that
    apply, in order: "Correcting perspective..." always comes first (also
    when no quad is given) and "Finalizing..." last; without a callback
    nothing is scheduled. *)
Theorem progress_reports (W : world) (self : ScannerPipeline) (c : capture)
    (rt : runtime) :
  let rt' := (process_capture W self c rt).2 in
  clock_events rt' =
    clock_events rt ++
    match progress_callback c with
    | Some cb => map (Progress cb) (progress_messages c)
    | None => []
    end /\
  started rt' = started rt.
Proof. cbv zeta. apply process_capture_runtime. Qed.

Lemma process_capture_succeeds (W : world) (self : ScannerPipeline) (c : capture)
    (rt : runtime) :
  success (process_capture W self c rt).1 = true.
Proof.
  pose proof (process_capture_with_outcome W (repo_stages W) self c rt) as H.
  cbv zeta in H.
  destruct (process_capture_try_ok W self c (time_time W rt).2)
    as (current & final & rt' & Htry).
  rewrite Htry in H. simpl in H. apply H.
Qed.

(** X11: from an idle pipeline, [process_capture_async] sets the busy flag
    and starts one worker; when the worker's target has run the flag is
    clear again, the completion callback (if any) has been scheduled last,
    with a successful result, and the next asynchronous capture is
    accepted. *)
Theorem async_round_trip (W : world) (self : ScannerPipeline) (c c' : capture)
    (cb cb' : option callback) (rt : runtime) :
  _is_processing self = false ->
  let accepted := process_capture_async self c cb rt in
  let finished := process W accepted.1 c cb accepted.2 in
  let again := process_capture_async finished.1 c' cb' finished.2 in
  _is_processing accepted.1 = true /\
  started accepted.2 = started rt ++ [ProcessJob c cb] /\
  _is_processing finished.1 = false /\
  started finished.2 = started accepted.2 /\
  (forall k, cb = Some k ->
     exists r, success r = true /\
               last (clock_events finished.2) = Some (Completed k r)) /\
  _is_processing again.1 = true /\
  started again.2 = started finished.2 ++ [ProcessJob c' cb'].
Proof.
  intros Hidle accepted finished again.
  assert (Hacc : accepted = (set_processing self true (Some (ProcessJob c cb)),
                             start_thread (ProcessJob c cb) rt)).
  { unfold accepted, process_capture_async. now rewrite Hidle. }
  assert (Hfin : finished =
            (set_processing accepted.1 false (_processing_thread accepted.1),
             match cb with
             | Some k =>
                 schedule_once
                   (Completed k (process_capture W accepted.1 c accepted.2).1)
                   (process_capture W accepted.1 c accepted.2).2
             | None => (process_capture W accepted.1 c accepted.2).2
             end)).
  { unfold finished, process.
    destruct (process_capture W accepted.1 c accepted.2) as [result rt2].
    reflexivity. }
  assert (Hstarted : started finished.2 = started accepted.2).
  { rewrite Hfin. simpl.
    destruct cb; simpl;
      apply (proj2 (process_capture_runtime W accepted.1 c accepted.2)). }
  assert (Hidle' : _is_processing finished.1 = false) by now rewrite Hfin.
  split; [now rewrite Hacc|]. split; [now rewrite Hacc|].
  split; [exact Hidle'|]. split; [exact Hstarted|]. split.
  - intros k ->. exists (process_capture W accepted.1 c accepted.2).1.
    split; [apply process_capture_succeeds|].
    rewrite Hfin. simpl. apply last_snoc.
  - unfold again, process_capture_async. rewrite Hidle'. simpl. auto.
Qed.

Lemma async_round_trip_witness :
  let W := sample_world true white_square None true [] in
  let c := {| image_path := "/in/photo.jpg"; quad_points := None;
              filter_type := GRAYSCALE; rotation := 0;
              progress_callback := None |} in
  let rt := {| ticks := 0; clock_events := []; started := [] |} in
  let accepted := process_capture_async (new_pipeline "/cache") c (Some 3%nat) rt in
  let finished := process W accepted.1 c (Some 3%nat) accepted.2 in
  _is_processing (new_pipeline "/cache") = false /\
  _is_processing accepted.1 = true /\
  _is_processing finished.1 = false.
Proof.
  cbv zeta. split; [reflexivity|].
  destruct (async_round_trip
              (sample_world true white_square None true []) (new_pipeline "/cache")
              {| image_path := "/in/photo.jpg"; quad_points := None;
                 filter_type := GRAYSCALE; rotation := 0;
                 progress_callback := None |}
              {| image_path := "/in/photo.jpg"; quad_points := None;
                 filter_type := GRAYSCALE; rotation := 0;
                 progress_callback := None |}
              (Some 3%nat) None
              {| ticks := 0; clock_events := []; started := [] |} eq_refl)
    as (H1 & _ & H3 & _).
  split; [exact H1 | exact H3].
Defined.

End Progress.

(** ** Cleanup, continued *)

Section CleanupMore.
Import Pipeline.

(** X12: [cleanup_temp_files] deletes a path exactly when it is the path of
    a listed file whose name contains a stage marker, is not among
    [keep_paths], and [os.remove] succeeds on it (a failing removal leaves
    the other files unaffected); a path of [keep_paths] is never deleted,
    and nothing is deleted when the directory cannot be listed. *)
Theorem cleanup_effect (W : world) (self : ScannerPipeline)
    (keep_paths : list string) :
  (forall p, p ∈ keep_paths -> p ∉ cleanup_temp_files W self (Some keep_paths)) /\
  (forall p,
     p ∈ cleanup_temp_files W self (Some keep_paths) <->
     exists names filename,
       os_listdir W (cache_path self) = Ok names /\ filename ∈ names /\
       p = os_path_join (cache_path self) filename /\
       (p ∉ keep_paths) /\ marked filename = true /\ os_remove W p = Ok tt) /\
  (raises (os_listdir W (cache_path self)) ->
   cleanup_temp_files W self (Some keep_paths) = []).
Proof.
  split; [|split].
  - intros p Hp Hdel. apply cleanup_deletes in Hdel as (? & ? & _ & _ & _ & Hk & _).
    contradiction.
  - intros p. apply cleanup_deletes.
  - unfold cleanup_temp_files, mbind, exc_bind.
    destruct (os_listdir W (cache_path self)); [intros [] | reflexivity].
Qed.

End CleanupMore.

(** ** Final pages and cleanup *)

Section FinalPages.
Import Pipeline.

Lemma no_underscore_app (a b : string) :
  no_underscore a -> no_underscore b -> no_underscore (a +:+ b).
Proof.
  intros Ha Hb. induction a as [|ch a IH]; [exact Hb|].
  intros [|k]; simpl.
  - exact (Ha 0%nat).
  - apply IH. intros j. exact (Ha (S j)).
Qed.

Lemma no_underscore_cons (ch : ascii) (s : string) :
  ch <> "_"%char -> no_underscore s -> no_underscore (String ch s).
Proof.
  intros Hch Hs [|k]; simpl; [congruence | apply Hs].
Qed.

Lemma no_underscore_empty : no_underscore "".
Proof. intros k. destruct k; discriminate. Qed.

Lemma pretty_N_go_no_underscore (x : N) (s : string) :
  no_underscore s -> no_underscore (pretty_N_go x s).
Proof.
  revert s. induction (N.lt_wf_0 x) as [x _ IH]; intros s Hs.
  destruct (decide (x = 0)%N) as [->|Hx]; [now rewrite pretty_N_go_0|].
  rewrite pretty_N_go_step by lia. apply IH.
  - apply N.div_lt; lia.
  - apply no_underscore_cons; [|exact Hs].
    unfold pretty_N_char. repeat case_match; discriminate.
Qed.

Lemma pretty_Z_no_underscore (z : Z) : no_underscore (pretty z).
Proof.
  assert (HN : forall n : N, no_underscore (pretty n)).
  { intros n. unfold pretty, pretty_N. destruct (decide (n = 0)%N).
    - apply no_underscore_cons; [discriminate | apply no_underscore_empty].
    - apply pretty_N_go_no_underscore, no_underscore_empty. }
  destruct z as [|x|x]; unfold pretty, pretty_Z.
  - apply no_underscore_cons; [discriminate | apply no_underscore_empty].
  - apply HN.
  - apply no_underscore_app; [|apply HN].
    apply no_underscore_cons; [discriminate | apply no_underscore_empty].
Qed.

(** In the name of a final page the only underscore is the fifth
    character. *)
Lemma page_name_underscore (d : string) (k : nat) :
  no_underscore d ->
  String.get k ("page_" +:+ d +:+ ".jpg") = Some "_"%char -> k = 4%nat.
Proof.
  intros Hd Hk.
  do 4 (destruct k as [|k]; [discriminate|]).
  destruct k as [|k]; [reflexivity|]. exfalso. simpl in Hk.
  apply (no_underscore_app d ".jpg" Hd) in Hk; [exact Hk|].
  repeat (apply no_underscore_cons; [discriminate|]). apply no_underscore_empty.
Qed.

Lemma contains_substring (needle haystack : string) :
  contains needle haystack = true ->
  exists n, String.substring n (String.length needle) haystack = needle.
Proof.
  unfold contains. destruct (String.index 0 needle haystack) as [n|] eqn:Hi;
    [|discriminate].
  intros _. exists n. exact (String.index_correct1 _ _ _ _ Hi).
Qed.

Lemma page_name_unmarked (d : string) :
  no_underscore d -> marked ("page_" +:+ d +:+ ".jpg") = false.
Proof.
  intros Hd. unfold marked, temp_markers.
  assert (Hno : forall m (l : nat),
            String.length m = S l -> (5 <= l)%nat ->
            String.get l m = Some "_"%char ->
            contains m ("page_" +:+ d +:+ ".jpg") = false).
  { intros m l Hlen Hl Hget.
    destruct (contains m ("page_" +:+ d +:+ ".jpg")) eqn:Hc; [|reflexivity].
    apply contains_substring in Hc as [n Hsub].
    assert (Hg : String.get (l + n) ("page_" +:+ d +:+ ".jpg") = Some "_"%char).
    { rewrite <- (String.substring_correct1 _ n (String.length m) l) by lia.
      now rewrite Hsub. }
    apply page_name_underscore in Hg; [lia | exact Hd]. }
  simpl. rewrite (Hno "warped_" 6%nat), (Hno "rotated_" 7%nat),
    (Hno "deskewed_" 8%nat), (Hno "filtered_" 8%nat), (Hno "sanitized_" 9%nat);
    (reflexivity || lia).
Qed.

Lemma os_path_join_inj (a b1 b2 : string) :
  String.prefix "/" b1 = false -> String.prefix "/" b2 = false ->
  os_path_join a b1 = os_path_join a b2 -> b1 = b2.
Proof.
  unfold os_path_join. intros -> ->.
  destruct (String.eqb a "" || ends_with_slash a); intros H.
  - now apply (inj (String.app a)) in H.
  - apply (inj (String.app a)) in H. now apply (inj (String.app "/")) in H.
Qed.

(** X13: the name [process_capture] gives a final page, page_<timestamp>.jpg,
    contains none of the stage markers, so [cleanup_temp_files] never
    deletes a final page, whatever [keep_paths] holds (directory entries
    being plain names, without a leading slash). *)
Theorem final_pages_survive_cleanup (W : world) (self : ScannerPipeline)
    (keep_paths : list string) (names : list string) (ts : Z) :
  os_listdir W (cache_path self) = Ok names ->
  Forall (fun filename => String.prefix "/" filename = false) names ->
  marked ("page_" +:+ pretty ts +:+ ".jpg") = false /\
  stage_path self "page_" ts ∉ cleanup_temp_files W self (Some keep_paths).
Proof.
  intros Hlist Hplain.
  pose proof (page_name_unmarked (pretty ts) (pretty_Z_no_underscore ts)) as Hpage.
  split; [exact Hpage|].
  intros Hdel. apply cleanup_deletes in Hdel
    as (names' & filename & Hl & Hin & Hjoin & _ & Hmarked & _).
  rewrite Hlist in Hl. injection Hl as <-.
  rewrite Forall_forall in Hplain. specialize (Hplain _ Hin).
  unfold stage_path in Hjoin.
  apply os_path_join_inj in Hjoin; [|reflexivity | exact Hplain].
  subst filename. congruence.
Qed.

Lemma final_pages_survive_cleanup_witness :
  let W := sample_world true white_square None true
             ["page_150.jpg"; "warped_100.jpg"; "thumb_page_150.jpg"] in
  cleanup_temp_files W (new_pipeline "/cache") (Some []) = ["/cache/warped_100.jpg"] /\
  stage_path (new_pipeline "/cache") "page_" 150
    ∉ cleanup_temp_files W (new_pipeline "/cache") (Some []).
Proof.
  cbv zeta. split; [reflexivity|].
  apply (final_pages_survive_cleanup
           (sample_world true white_square None true
              ["page_150.jpg"; "warped_100.jpg"; "thumb_page_150.jpg"])
           (new_pipeline "/cache") []
           ["page_150.jpg"; "warped_100.jpg"; "thumb_page_150.jpg"] 150 eq_refl).
  repeat constructor.
Defined.

End FinalPages.

(** ** Pages of a scan session *)

Section Session.
Import Models.

Lemma set_order_twice i j p : set_order i (set_order j p) = set_order i p.
Proof. reflexivity. Qed.

Lemma set_order_own p k : order p = k -> set_order k p = p.
Proof. intros <-. destruct p; reflexivity. Qed.

Lemma same_but_order_refl h : same_but_order h h.
Proof. intros r. destruct (h !! r); auto. Qed.

Lemma same_but_order_alter h h' i r :
  same_but_order h h' -> same_but_order h (alter (set_order i) r h').
Proof.
  intros H r'. specialize (H r').
  destruct (decide (r = r')) as [->|Hne].
  - rewrite lookup_alter_eq. destruct (h !! r'), (h' !! r'); simpl; auto.
  - rewrite lookup_alter_ne by auto. exact H.
Qed.

Lemma same_but_order_renumber l : forall i h h',
  same_but_order h h' -> same_but_order h (renumber_from i l h').
Proof.
  induction l as [|r l IH]; intros i h h' H; simpl; [exact H|].
  apply IH. apply same_but_order_alter. exact H.
Qed.

(** The renumbering loop leaves the pages outside the list alone ... *)
Lemma renumber_notin l : forall i h r,
  r ∉ l -> renumber_from i l h !! r = h !! r.
Proof.
  induction l as [|a l IH]; intros i h r Hr; simpl; [reflexivity|].
  apply not_elem_of_cons in Hr as [Hne Hr].
  rewrite IH by exact Hr. apply lookup_alter_ne. auto.
Qed.

(** ... and gives the page at position [k] the number [i + k]. *)
Lemma renumber_in l : forall i h k r,
  NoDup l -> l !! k = Some r ->
  renumber_from i l h !! r = set_order (i + Z.of_nat k) <$> (h !! r).
Proof.
  induction l as [|a l IH]; intros i h k r Hnd Hk; [discriminate|].
  apply NoDup_cons in Hnd as [Ha Hnd]. simpl.
  destruct k as [|k]; simpl in Hk.
  - injection Hk as ->. rewrite renumber_notin by exact Ha.
    rewrite lookup_alter_eq. rewrite Z.add_0_r. reflexivity.
  - rewrite (IH _ _ k r Hnd Hk).
    assert (a <> r) as Hne.
    { intros ->. apply Ha. eapply list_elem_of_lookup_2. exact Hk. }
    rewrite lookup_alter_ne by exact Hne.
    f_equal. f_equal. lia.
Qed.

Lemma ordered_renumber h l :
  NoDup l -> allocated h l -> ordered (renumber_from 0 l h) l.
Proof.
  intros Hnd Hall i r Hi.
  rewrite (renumber_in l 0 h i r Hnd Hi).
  unfold allocated in Hall. rewrite Forall_forall in Hall.
  destruct (Hall r) as [p Hp]; [eapply list_elem_of_lookup_2; exact Hi|].
  rewrite Hp. simpl. eexists. split; [reflexivity|]. simpl. lia.
Qed.

Lemma ordered_allocated h l : ordered h l -> allocated h l.
Proof.
  intros H. apply Forall_forall. intros r Hr.
  apply list_elem_of_lookup_1 in Hr as [i Hi].
  destruct (H i r Hi) as (p & Hp & _). exists p. exact Hp.
Qed.

Lemma renumber_ordered h l :
  NoDup l -> ordered h l -> renumber_from 0 l h = h.
Proof.
  intros Hnd Hord. apply map_eq. intros r.
  destruct (decide (r ∈ l)) as [Hr|Hr].
  - apply list_elem_of_lookup_1 in Hr as [i Hi].
    rewrite (renumber_in l 0 h i r Hnd Hi).
    destruct (Hord i r Hi) as (p & Hp & Ho). rewrite Hp. simpl.
    f_equal. apply set_order_own. lia.
  - apply renumber_notin. exact Hr.
Qed.

Lemma renumber_twice h l l' :
  NoDup l -> l' ≡ₚ l -> ordered h l ->
  renumber_from 0 l (renumber_from 0 l' h) = h.
Proof.
  intros Hnd Hp Hord. apply map_eq. intros r.
  assert (NoDup l') as Hnd' by (rewrite Hp; exact Hnd).
  destruct (decide (r ∈ l)) as [Hr|Hr].
  - assert (r ∈ l') as Hr' by (rewrite Hp; exact Hr).
    apply list_elem_of_lookup_1 in Hr as [i Hi].
    apply list_elem_of_lookup_1 in Hr' as [j Hj].
    rewrite (renumber_in l 0 _ i r Hnd Hi).
    rewrite (renumber_in l' 0 h j r Hnd' Hj).
    destruct (Hord i r Hi) as (p & Hq & Ho). rewrite Hq. simpl.
    f_equal. rewrite set_order_twice. apply set_order_own. lia.
  - rewrite renumber_notin by exact Hr.
    apply renumber_notin. rewrite Hp. exact Hr.
Qed.

Lemma in_range_spec index (l : list nat) :
  in_range index l = true <-> 0 <= index < Z.of_nat (length l).
Proof. unfold in_range. rewrite andb_true_iff, Z.leb_le, Z.ltb_lt. tauto. Qed.

Lemma in_range_lookup index (l : list nat) :
  in_range index l = true -> exists x, l !! Z.to_nat index = Some x.
Proof.
  intros H. apply in_range_spec in H.
  apply lookup_lt_is_Some. lia.
Qed.

Lemma allocated_perm h l l' : l ≡ₚ l' -> allocated h l -> allocated h l'.
Proof. intros Hp. unfold allocated. rewrite Hp. auto. Qed.

Lemma allocated_sub h l l' : l' ⊆ l -> allocated h l -> allocated h l'.
Proof.
  unfold allocated. rewrite !Forall_forall. intros Hs H r Hr. apply H, Hs, Hr.
Qed.

Lemma NoDup_delete (k : nat) (l : list nat) : NoDup l -> NoDup (delete k l).
Proof. intros H. eapply sublist_NoDup; [exact H|apply sublist_delete]. Qed.

Lemma insert_at_perm (k : nat) x (l : list nat) :
  list_insert_at k x l ≡ₚ x :: l.
Proof.
  unfold list_insert_at. rewrite <- Permutation_middle.
  rewrite take_drop. reflexivity.
Qed.

Lemma length_insert_at (k : nat) x (l : list nat) :
  length (list_insert_at k x l) = S (length l).
Proof. rewrite (Permutation_length (insert_at_perm k x l)). reflexivity. Qed.

Lemma delete_insert_at (k : nat) x (l : list nat) :
  (k <= length l)%nat -> delete k (list_insert_at k x l) = l.
Proof.
  intros Hk. unfold list_insert_at.
  rewrite <- (take_drop k l) at 3.
  rewrite <- (delete_middle (take k l) (drop k l) x).
  rewrite length_take. f_equal. lia.
Qed.

Lemma lookup_insert_at (k : nat) x (l : list nat) :
  (k <= length l)%nat -> list_insert_at k x l !! k = Some x.
Proof.
  intros Hk. unfold list_insert_at.
  rewrite lookup_app_r by (rewrite length_take; lia).
  rewrite length_take. replace (k - k `min` length l)%nat with 0%nat by lia.
  reflexivity.
Qed.

Lemma insert_at_delete (k : nat) x (l : list nat) :
  l !! k = Some x -> list_insert_at k x (delete k l) = l.
Proof.
  intros Hk. unfold list_insert_at.
  rewrite delete_take_drop.
  rewrite take_app_length', drop_app_length'
    by (rewrite length_take; apply lookup_lt_Some in Hk; lia).
  apply take_drop_middle. exact Hk.
Qed.

(** The list of pages after a move within range. *)
Lemma reorder_pages_pages h s from_index to_index x :
  in_range from_index (pages s) = true ->
  in_range to_index (pages s) = true ->
  pages s !! Z.to_nat from_index = Some x ->
  reorder_pages h s from_index to_index =
    (let l := list_insert_at (Z.to_nat to_index) x
                (delete (Z.to_nat from_index) (pages s)) in
     (renumber_from 0 l h, with_pages s l (current_page_index s))).
Proof.
  intros Hf Ht Hx. unfold reorder_pages. rewrite Hf, Ht, Hx. reflexivity.
Qed.

(** The sample store numbers its first two pages. *)
Lemma sample_store_ordered : ordered sample_store [0; 1]%nat.
Proof.
  intros i r Hi. destruct i as [|[|i]]; simpl in Hi; try discriminate;
    injection Hi as <-; eexists; (split; [reflexivity|reflexivity]).
Qed.

Lemma sample_store_allocated : allocated sample_store [0; 1; 2]%nat.
Proof. repeat constructor; eexists; reflexivity. Qed.



(** X15 ([ScanSession.remove_page]).  In a session whose pages are
    distinct objects of the store: an index outside [0, len) changes
    nothing (a negative index does not count from the end); an index
    inside removes that one page, the pages after it move up by one, and
    afterwards every page carries its position as [order], whatever the
    numbers were before.  The current page index is never adjusted. *)
Theorem remove_page_effect h s index :
  NoDup (pages s) -> allocated h (pages s) ->
  (in_range index (pages s) = false -> remove_page h s index = (h, s)) /\
  (in_range index (pages s) = true ->
     (forall i : nat,
        pages (remove_page h s index).2 !! i
        = pages s !! (if decide (i < Z.to_nat index)%nat then i else S i)) /\
     S (length (pages (remove_page h s index).2)) = length (pages s) /\
     ordered (remove_page h s index).1 (pages (remove_page h s index).2) /\
     same_but_order h (remove_page h s index).1 /\
     current_page_index (remove_page h s index).2 = current_page_index s).
Proof.
  intros Hnd Hall. unfold remove_page.
  split; intros Hr; rewrite Hr; [reflexivity|]. simpl.
  apply in_range_spec in Hr.
  split.
  { intros i. destruct (decide (i < Z.to_nat index)%nat).
    - apply list_lookup_delete_lt. assumption.
    - apply list_lookup_delete_ge. lia. }
  split.
  { rewrite length_delete; [lia|]. apply lookup_lt_is_Some. lia. }
  split.
  { apply ordered_renumber.
    - apply NoDup_delete, Hnd.
    - eapply allocated_sub; [apply list_subseteq_delete|exact Hall]. }
  split; [|reflexivity].
  apply same_but_order_renumber, same_but_order_refl.
Qed.

Lemma remove_page_effect_witness :
  remove_page sample_store (sample_session [0; 1; 2]%nat) (-1)
    = (sample_store, sample_session [0; 1; 2]%nat) /\
  pages (remove_page sample_store (sample_session [0; 1; 2]%nat) 1).2 !! 1%nat
    = Some 2%nat /\
  ordered (remove_page sample_store (sample_session [0; 1; 2]%nat) 1).1
          (pages (remove_page sample_store (sample_session [0; 1; 2]%nat) 1).2).
Proof.
  assert (NoDup [0; 1; 2]%nat) as Hnd.
  { compute_done. }
  split.
  - apply (remove_page_effect sample_store (sample_session [0; 1; 2]%nat) (-1)
             Hnd sample_store_allocated). reflexivity.
  - destruct (remove_page_effect sample_store (sample_session [0; 1; 2]%nat) 1
                Hnd sample_store_allocated) as [_ H].
    destruct (H eq_refl) as (H1 & _ & H3 & _).
    split; [exact (H1 1%nat)|exact H3].
Defined.

(** X16 ([ScanSession.reorder_pages]).  In a session whose pages are
    distinct objects of the store: unless both indices lie in [0, len)
    nothing changes; otherwise the list is permuted, the page that was at
    [from_index] is at [to_index], the other pages keep their relative
    order, and afterwards every page carries its position as [order].
    The current page index is never adjusted. *)
Theorem reorder_pages_effect h s from_index to_index :
  NoDup (pages s) -> allocated h (pages s) ->
  (in_range from_index (pages s) && in_range to_index (pages s) = false ->
     reorder_pages h s from_index to_index = (h, s)) /\
  (in_range from_index (pages s) = true ->
   in_range to_index (pages s) = true ->
     pages (reorder_pages h s from_index to_index).2 ≡ₚ pages s /\
     pages (reorder_pages h s from_index to_index).2 !! Z.to_nat to_index
       = pages s !! Z.to_nat from_index /\
     delete (Z.to_nat to_index) (pages (reorder_pages h s from_index to_index).2)
       = delete (Z.to_nat from_index) (pages s) /\
     ordered (reorder_pages h s from_index to_index).1
             (pages (reorder_pages h s from_index to_index).2) /\
     same_but_order h (reorder_pages h s from_index to_index).1 /\
     current_page_index (reorder_pages h s from_index to_index).2
       = current_page_index s).
Proof.
  intros Hnd Hall. split.
  { intros Hr. unfold reorder_pages. rewrite Hr. reflexivity. }
  intros Hf Ht.
  destruct (in_range_lookup _ _ Hf) as [x Hx].
  rewrite (reorder_pages_pages h s _ _ x Hf Ht Hx). cbv zeta. simpl.
  apply in_range_spec in Hf, Ht.
  assert (S (length (delete (Z.to_nat from_index) (pages s))) = length (pages s))
    as Hlen.
  { rewrite length_delete; [|eexists; exact Hx].
    apply lookup_lt_Some in Hx. lia. }
  assert (list_insert_at (Z.to_nat to_index) x
            (delete (Z.to_nat from_index) (pages s)) ≡ₚ pages s) as Hperm.
  { rewrite insert_at_perm. symmetry. apply delete_Permutation. exact Hx. }
  split; [exact Hperm|].
  split. { rewrite Hx. apply lookup_insert_at. lia. }
  split. { apply delete_insert_at. lia. }
  split.
  { apply ordered_renumber.
    - rewrite Hperm. exact Hnd.
    - eapply allocated_perm; [symmetry; exact Hperm|exact Hall]. }
  split; [|reflexivity].
  apply same_but_order_renumber, same_but_order_refl.
Qed.

Lemma reorder_pages_effect_witness :
  reorder_pages sample_store (sample_session [0; 1; 2]%nat) 0 3
    = (sample_store, sample_session [0; 1; 2]%nat) /\
  pages (reorder_pages sample_store (sample_session [0; 1; 2]%nat) 0 2).2 !! 2%nat
    = Some 0%nat /\
  delete 2%nat (pages (reorder_pages sample_store (sample_session [0; 1; 2]%nat) 0 2).2)
    = [1; 2]%nat.
Proof.
  assert (NoDup [0; 1; 2]%nat) as Hnd.
  { compute_done. }
  split.
  - apply (reorder_pages_effect sample_store (sample_session [0; 1; 2]%nat) 0 3
             Hnd sample_store_allocated). reflexivity.
  - destruct (reorder_pages_effect sample_store (sample_session [0; 1; 2]%nat) 0 2
                Hnd sample_store_allocated) as [_ H].
    destruct (H eq_refl eq_refl) as (_ & H2 & H3 & _).
    split; [exact H2|exact H3].
Defined.

(** X17 ([ScanSession.reorder_pages]).  Moving a page back undoes the
    move: when the pages are distinct, numbered by their positions, and
    both indices are in range, [reorder_pages(from, to)] followed by
    [reorder_pages(to, from)] restores the session and every page of the
    store. *)
Theorem reorder_pages_undo h s from_index to_index :
  NoDup (pages s) -> ordered h (pages s) ->
  in_range from_index (pages s) = true ->
  in_range to_index (pages s) = true ->
  reorder_pages (reorder_pages h s from_index to_index).1
                (reorder_pages h s from_index to_index).2
                to_index from_index = (h, s).
Proof.
  intros Hnd Hord Hf Ht.
  destruct (in_range_lookup _ _ Hf) as [x Hx].
  rewrite (reorder_pages_pages h s _ _ x Hf Ht Hx). cbv zeta. simpl.
  set (l' := list_insert_at (Z.to_nat to_index) x
               (delete (Z.to_nat from_index) (pages s))).
  assert (S (length (delete (Z.to_nat from_index) (pages s))) = length (pages s))
    as Hlen.
  { rewrite length_delete; [|eexists; exact Hx].
    apply lookup_lt_Some in Hx. lia. }
  assert (length l' = length (pages s)) as Hlen'.
  { unfold l'. rewrite length_insert_at. exact Hlen. }
  assert (l' ≡ₚ pages s) as Hperm.
  { unfold l'. rewrite insert_at_perm. symmetry.
    apply delete_Permutation. exact Hx. }
  pose proof Hf as Hf'. pose proof Ht as Ht'.
  apply in_range_spec in Hf', Ht'.
  assert (l' !! Z.to_nat to_index = Some x) as Hx'.
  { apply lookup_insert_at. lia. }
  rewrite (reorder_pages_pages _ _ to_index from_index x).
  - cbv zeta. simpl.
    assert (list_insert_at (Z.to_nat from_index) x (delete (Z.to_nat to_index) l')
            = pages s) as ->.
    { unfold l'. rewrite delete_insert_at by lia.
      apply insert_at_delete. exact Hx. }
    rewrite (renumber_twice h (pages s) l' Hnd Hperm Hord).
    f_equal. destruct s; reflexivity.
  - simpl. apply in_range_spec. rewrite Hlen'. exact Ht'.
  - simpl. apply in_range_spec. rewrite Hlen'. exact Hf'.
  - exact Hx'.
Qed.

Lemma reorder_pages_undo_witness :
  pages (reorder_pages sample_store (sample_session [0; 1]%nat) 0 1).2 = [1; 0]%nat /\
  reorder_pages (reorder_pages sample_store (sample_session [0; 1]%nat) 0 1).1
                (reorder_pages sample_store (sample_session [0; 1]%nat) 0 1).2
                1 0 = (sample_store, sample_session [0; 1]%nat).
Proof.
  split; [reflexivity|].
  apply (reorder_pages_undo sample_store (sample_session [0; 1]%nat) 0 1).
  - compute_done.
  - exact sample_store_ordered.
  - reflexivity.
  - reflexivity.
Defined.



End Session.

(** ** Frequency cap of interstitial ads *)

Section Ads.
Import Models.

Lemma ads_off_guard s :
  negb (ads_enabled s) || ads_removed_purchased s = negb (ads_on s).
Proof.
  unfold ads_on. destruct (ads_enabled s), (ads_removed_purchased s); reflexivity.
Qed.

Lemma can_show_off s now1 now2 :
  ads_on s = false -> can_show_interstitial s now1 now2 = (false, s).
Proof.
  intros H. unfold can_show_interstitial. rewrite ads_off_guard, H. reflexivity.
Qed.

(** The state after the daily reset of [can_show_interstitial]. *)
Lemma can_show_state s now1 now2 :
  ads_on s = true ->
  (can_show_interstitial s now1 now2).2
  = with_count s (last_interstitial_time s) (counted s (dt_date now1))
      (Some (dt_date now1)).
Proof.
  intros Hon. unfold can_show_interstitial, counted.
  rewrite ads_off_guard, Hon. simpl.
  destruct (decide (last_count_reset_date s = Some (dt_date now1))) as [E|E].
  - assert (s = with_count s (last_interstitial_time s) (interstitial_count_today s)
                  (Some (dt_date now1))) as Hs.
    { rewrite <- E. destruct s; reflexivity. }
    rewrite <- Hs.
    destruct (_ <=? _); [reflexivity|].
    destruct (last_interstitial_time s); [|reflexivity].
    destruct (Qltb _ _); reflexivity.
  - simpl. destruct (_ <=? _); [reflexivity|].
    destruct (last_interstitial_time s); [|reflexivity].
    destruct (Qltb _ _); reflexivity.
Qed.

Lemma can_show_answer s now1 now2 :
  (can_show_interstitial s now1 now2).1 = true <->
  ads_on s = true /\
  counted s (dt_date now1) < MAX_INTERSTITIALS_PER_DAY s /\
  (forall last, last_interstitial_time s = Some last ->
     (inject_Z (MIN_INTERSTITIAL_INTERVAL_SECONDS s)
      <= dt_seconds now2 - dt_seconds last)%Q).
Proof.
  unfold can_show_interstitial, counted. rewrite ads_off_guard.
  destruct (ads_on s); simpl; [|split; [discriminate|intros [? _]; discriminate]].
  destruct (decide (last_count_reset_date s = Some (dt_date now1))) as [E|E]; simpl.
  - destruct (Z.leb_spec (MAX_INTERSTITIALS_PER_DAY s) (interstitial_count_today s)).
    + simpl. split; [discriminate|]. intros (_ & ? & _). lia.
    + destruct (last_interstitial_time s) as [last|].
      * destruct (Qltb _ _) eqn:Q; simpl.
        -- split; [discriminate|]. intros (_ & _ & Hl).
           specialize (Hl last eq_refl). apply Qltb_false in Hl. congruence.
        -- split; [|reflexivity]. intros _. split; [reflexivity|].
           split; [assumption|].
           intros ? [= <-]. apply Qltb_false. exact Q.
      * simpl. split; [|reflexivity]. intros _. split; [reflexivity|].
        split; [assumption|]. discriminate.
  - destruct (Z.leb_spec (MAX_INTERSTITIALS_PER_DAY s) 0).
    + simpl. split; [discriminate|]. intros (_ & ? & _). lia.
    + destruct (last_interstitial_time s) as [last|].
      * destruct (Qltb _ _) eqn:Q; simpl.
        -- split; [discriminate|]. intros (_ & _ & Hl).
           specialize (Hl last eq_refl). apply Qltb_false in Hl. congruence.
        -- split; [|reflexivity]. intros _. split; [reflexivity|].
           split; [assumption|].
           intros ? [= <-]. apply Qltb_false. exact Q.
      * simpl. split; [|reflexivity]. intros _. split; [reflexivity|].
        split; [assumption|]. discriminate.
Qed.

Lemma check_then_record_answer s a :
  (check_then_record s a).1 = (can_show_interstitial s (asked1 a) (asked2 a)).1.
Proof.
  unfold check_then_record.
  destruct (can_show_interstitial s (asked1 a) (asked2 a)) as [[|] s']; reflexivity.
Qed.

Lemma check_then_record_state s a :
  (check_then_record s a).2
  = if (can_show_interstitial s (asked1 a) (asked2 a)).1
    then record_interstitial_shown (can_show_interstitial s (asked1 a) (asked2 a)).2
           (closed a)
    else (can_show_interstitial s (asked1 a) (asked2 a)).2.
Proof.
  unfold check_then_record.
  destruct (can_show_interstitial s (asked1 a) (asked2 a)) as [[|] s']; reflexivity.
Qed.

Lemma attempts_cons s a l :
  attempts s (a :: l)
  = ((check_then_record s a).1 :: (attempts (check_then_record s a).2 l).1,
     (attempts (check_then_record s a).2 l).2).
Proof.
  simpl. destruct (check_then_record s a) as [ok s']. simpl.
  destruct (attempts s' l). reflexivity.
Qed.

Lemma shown_cons b l : shown (b :: l) = (if b then 1 else 0) + shown l.
Proof. unfold shown. destruct b; simpl; lia. Qed.

(** X19 ([AppState.can_show_interstitial]).  The answer is True exactly
    when ads are enabled and not bought off, fewer than
    MAX_INTERSTITIALS_PER_DAY interstitials are counted for today (the
    stored count if it was last reset today, none otherwise) and no
    interstitial was shown before or at least
    MIN_INTERSTITIAL_INTERVAL_SECONDS have passed since the last one.
    With ads off the state is untouched; with ads on the query itself
    moves the counter to today, also when it answers False, and changes
    nothing else. *)
Theorem can_show_interstitial_spec s now1 now2 :
  ((can_show_interstitial s now1 now2).1 = true <->
     ads_on s = true /\
     counted s (dt_date now1) < MAX_INTERSTITIALS_PER_DAY s /\
     (forall last, last_interstitial_time s = Some last ->
        (inject_Z (MIN_INTERSTITIAL_INTERVAL_SECONDS s)
         <= dt_seconds now2 - dt_seconds last)%Q)) /\
  (can_show_interstitial s now1 now2).2
  = (if ads_on s
     then with_count s (last_interstitial_time s) (counted s (dt_date now1))
            (Some (dt_date now1))
     else s).
Proof.
  split; [apply can_show_answer|].
  destruct (ads_on s) eqn:Hon.
  - apply can_show_state. exact Hon.
  - rewrite can_show_off by exact Hon. reflexivity.
Qed.

(** X20 ([AppState.record_interstitial_shown], then
    [AppState.can_show_interstitial]).  Once an interstitial is recorded
    at [now], every query that reads the clock less than
    MIN_INTERSTITIAL_INTERVAL_SECONDS later is answered False, whatever
    the flags, the counter and the date. *)
Theorem shown_recently_refused s now now1 now2 :
  (dt_seconds now2 - dt_seconds now
   < inject_Z (MIN_INTERSTITIAL_INTERVAL_SECONDS s))%Q ->
  (can_show_interstitial (record_interstitial_shown s now) now1 now2).1 = false.
Proof.
  intros Hlt.
  destruct ((can_show_interstitial (record_interstitial_shown s now) now1 now2).1)
    eqn:E; [|reflexivity].
  apply can_show_answer in E as (_ & _ & Hl).
  specialize (Hl now eq_refl). simpl in Hl.
  exfalso. apply (Qlt_not_le _ _ Hlt). exact Hl.
Qed.

Lemma shown_recently_refused_witness :
  (can_show_interstitial (record_interstitial_shown AppState_default (sample_time 100))
     (sample_time 129) (sample_time 129)).1 = false /\
  (can_show_interstitial (record_interstitial_shown AppState_default (sample_time 100))
     (sample_time 130) (sample_time 130)).1 = true.
Proof.
  split; [|reflexivity].
  apply (shown_recently_refused AppState_default (sample_time 100)
           (sample_time 129) (sample_time 129)).
  reflexivity.
Defined.

(** X21 ([AppState.can_show_interstitial],
    [AppState.record_interstitial_shown]).  When an interstitial is
    recorded only after a query that answered True, then over any
    sequence of attempts made on one date at most
    MAX_INTERSTITIALS_PER_DAY minus the number already counted for that
    date are shown (none if that is negative), whatever the clock
    readings. *)
Theorem daily_cap s today l :
  Forall (fun a => dt_date (asked1 a) = today) l ->
  shown (attempts s l).1
  <= Z.max 0 (MAX_INTERSTITIALS_PER_DAY s - counted s today).
Proof.
  revert s. induction l as [|a l IH]; intros s Hd; [simpl; unfold shown; simpl; lia|].
  apply Forall_cons in Hd as [Ha Hd].
  rewrite attempts_cons. simpl. rewrite shown_cons.
  rewrite check_then_record_answer, check_then_record_state.
  destruct (ads_on s) eqn:Hon.
  - pose proof (can_show_state s (asked1 a) (asked2 a) Hon) as Hs.
    rewrite Ha in Hs.
    destruct ((can_show_interstitial s (asked1 a) (asked2 a)).1) eqn:E.
    + apply can_show_answer in E as (_ & Hlt & _). rewrite Ha in Hlt.
      rewrite Hs.
      set (s' := record_interstitial_shown _ _).
      specialize (IH s' Hd).
      assert (counted s' today = counted s today + 1) as Hcount.
      { unfold counted at 1. simpl. rewrite decide_True by reflexivity. reflexivity. }
      rewrite Hcount in IH. simpl in IH. lia.
    + rewrite Hs.
      set (s' := with_count _ _ _ _).
      specialize (IH s' Hd).
      assert (counted s' today = counted s today) as Hcount.
      { unfold counted at 1. simpl. rewrite decide_True by reflexivity. reflexivity. }
      rewrite Hcount in IH. simpl in IH. lia.
  - rewrite can_show_off by exact Hon. simpl.
    specialize (IH s Hd). lia.
Qed.

Lemma daily_cap_witness :
  (attempts (with_count AppState_default None 19 (Some "2024-03-01"))
     [ {| asked1 := sample_time 10; asked2 := sample_time 10; closed := sample_time 15 |};
       {| asked1 := sample_time 50; asked2 := sample_time 50; closed := sample_time 55 |} ]).1
  = [true; false] /\
  shown (attempts (with_count AppState_default None 19 (Some "2024-03-01"))
     [ {| asked1 := sample_time 10; asked2 := sample_time 10; closed := sample_time 15 |};
       {| asked1 := sample_time 50; asked2 := sample_time 50; closed := sample_time 55 |} ]).1
  <= 1.
Proof.
  split; [reflexivity|].
  apply (daily_cap (with_count AppState_default None 19 (Some "2024-03-01"))
           "2024-03-01"
           [ {| asked1 := sample_time 10; asked2 := sample_time 10;
                closed := sample_time 15 |};
             {| asked1 := sample_time 50; asked2 := sample_time 50;
                closed := sample_time 55 |} ]).
  repeat constructor.
Defined.

(** X22 ([AppState.can_show_interstitial]).  While ads are disabled or
    bought off no attempt shows an interstitial, and the attempts leave
    the state - counter, reset date and time of the last interstitial -
    as it was. *)
Theorem no_ads_once_off s l :
  ads_on s = false ->
  attempts s l = (repeat false (length l), s).
Proof.
  intros Hoff. induction l as [|a l IH]; [reflexivity|].
  rewrite attempts_cons.
  assert (check_then_record s a = (false, s)) as ->.
  { unfold check_then_record. rewrite can_show_off by exact Hoff. reflexivity. }
  simpl. rewrite IH. reflexivity.
Qed.

Lemma no_ads_once_off_witness :
  attempts {| ads_enabled := false; ads_removed_purchased := true;
              last_interstitial_time := None; interstitial_count_today := 0;
              last_count_reset_date := None; max_pages_per_document := 200;
              MIN_INTERSTITIAL_INTERVAL_SECONDS := 30;
              MAX_INTERSTITIALS_PER_DAY := 20 |}
    [ {| asked1 := sample_time 10; asked2 := sample_time 10; closed := sample_time 15 |} ]
  = ([false],
     {| ads_enabled := false; ads_removed_purchased := true;
        last_interstitial_time := None; interstitial_count_today := 0;
        last_count_reset_date := None; max_pages_per_document := 200;
        MIN_INTERSTITIAL_INTERVAL_SECONDS := 30;
        MAX_INTERSTITIALS_PER_DAY := 20 |}).
Proof.
  apply (no_ads_once_off
           {| ads_enabled := false; ads_removed_purchased := true;
              last_interstitial_time := None; interstitial_count_today := 0;
              last_count_reset_date := None; max_pages_per_document := 200;
              MIN_INTERSTITIAL_INTERVAL_SECONDS := 30;
              MAX_INTERSTITIALS_PER_DAY := 20 |}
           [ {| asked1 := sample_time 10; asked2 := sample_time 10;
                closed := sample_time 15 |} ]).
  reflexivity.
Defined.

End Ads.

(** ** Stored application state *)

Section StoredState.
Import Models.

(** X23 ([AppState.to_dict], [AppState.from_dict]).  If the time of the
    last interstitial, when there is one, is written by [isoformat] as a
    non-empty text that [fromisoformat] reads back, then reading the
    dictionary of a state gives that state with the two frequency caps
    set to the defaults of the class, 30 seconds and 20 a day: the caps
    are not stored, and the state itself comes back exactly when it had
    the default caps. *)
Theorem app_state_round_trip (C : calendar) (s : AppState) :
  (forall t, last_interstitial_time s = Some t ->
     isoformat C t <> "" /\ fromisoformat C (isoformat C t) = Some t) ->
  AppState_from_dict C (AppState_to_dict C s) = Some (with_default_caps s) /\
  (AppState_from_dict C (AppState_to_dict C s) = Some s <->
   MIN_INTERSTITIAL_INTERVAL_SECONDS s = 30 /\ MAX_INTERSTITIALS_PER_DAY s = 20).
Proof.
  intros Hiso.
  assert (AppState_from_dict C (AppState_to_dict C s) = Some (with_default_caps s))
    as Hrt.
  { unfold AppState_from_dict, AppState_to_dict, dict_get.
    repeat (rewrite ?lookup_insert_eq; rewrite ?lookup_insert_ne by discriminate).
    simpl. unfold with_default_caps.
    destruct (last_count_reset_date s) as [d|]; simpl;
    destruct (last_interstitial_time s) as [t|]; simpl; try reflexivity.
    all: destruct (Hiso t eq_refl) as [Hne Ht];
      apply String.eqb_neq in Hne; rewrite Hne; simpl; rewrite Ht; reflexivity. }
  split; [exact Hrt|].
  rewrite Hrt. split.
  - intros [= E]. rewrite <- E. split; reflexivity.
  - intros [E1 E2]. f_equal. unfold with_default_caps.
    rewrite <- E1, <- E2. destruct s; reflexivity.
Qed.

Lemma app_state_round_trip_witness :
  AppState_from_dict sample_calendar
    (AppState_to_dict sample_calendar
       (record_interstitial_shown AppState_default (sample_time 0)))
  = Some (record_interstitial_shown AppState_default (sample_time 0)) /\
  AppState_to_dict sample_calendar
    (record_interstitial_shown AppState_default (sample_time 0))
    !! "MAX_INTERSTITIALS_PER_DAY" = None.
Proof.
  split; [|reflexivity].
  apply (app_state_round_trip sample_calendar
           (record_interstitial_shown AppState_default (sample_time 0))).
  - intros t [= <-]. split; [discriminate|reflexivity].
  - split; reflexivity.
Defined.

End StoredState.
